(** * Numina audit-rule core: instruction parsing and the versioned rule store

    A shallow embedding of the TypeScript/JavaScript sources

      - [src/services/geminiService.ts] and the server route [routes/gemini.js]
        (AI adapter, response handling, heuristic fallback),
      - the two [RuleParser] front ends (in-process and HTTP-mediated),
      - [RuleStorage] (versioned rule store over [localStorage]),

    together with the parts of the JavaScript run time they rely on:
    string primitives, a backtracking regular-expression matcher, and
    [JSON.parse] / [JSON.stringify].

    Modelling conventions.
      - A JavaScript string is a [string]; every [ascii] stands for one code
        unit below 256.  Code units above 255 are outside the model
        (non-Latin-1 characters of source literals appear as UTF-8 bytes).
      - A JavaScript number is an exact decimal [Num m e] = m / 10^e kept in
        lowest terms; IEEE-754 rounding is not modelled.
      - Exceptions and mutable state are explicit: a computation is a function
        from a state to an outcome ([Ok] or [Throw]) and a new state.  State
        changes made before a [throw] persist, as in JavaScript. *)

From Stdlib Require Import ZArith Lia Bool Ascii String Sorted.
From stdpp Require Import gmap strings list.

Open Scope string_scope.
Open Scope Z_scope.
Open Scope list_scope.

(* ===================================================================== *)
(** * JavaScript strings and characters *)
(* ===================================================================== *)

Module JS.

Definition str := list ascii.

Definition chars (s : string) : str := list_ascii_of_string s.
Definition text (l : str) : string := string_of_list_ascii l.

Definition code (c : ascii) : N := N_of_ascii c.

Definition in_range (lo hi : N) (c : ascii) : bool :=
  ((lo <=? code c) && (code c <=? hi))%N.

Definition is_digit : ascii -> bool := in_range 48 57.

(** [WhiteSpace] and [LineTerminator] of ECMA-262, restricted to code units
    below 256: TAB, LF, VT, FF, CR, SP and NBSP. *)
Definition is_space (c : ascii) : bool :=
  in_range 9 13 c || (code c =? 32)%N || (code c =? 160)%N.

(** Line terminators below 256 (what [.] refuses to match). *)
Definition is_line_terminator (c : ascii) : bool :=
  (code c =? 10)%N || (code c =? 13)%N.

(** [String.prototype.trim] *)
Fixpoint trimStart (s : str) : str :=
  match s with
  | c :: s' => if is_space c then trimStart s' else s
  | [] => []
  end.

Definition trimEnd (s : str) : str := rev (trimStart (rev s)).

Definition trim (s : str) : str := trimEnd (trimStart s).

(** [String.prototype.toLowerCase] on code units below 256. *)
Definition lower (c : ascii) : ascii :=
  if in_range 65 90 c
     || (in_range 192 222 c && negb (code c =? 215)%N)
  then ascii_of_N (code c + 32) else c.

(** [String.prototype.toUpperCase] on a single code unit.  The three
    Latin-1 letters whose upper case lies outside Latin-1 or is not a
    single unit (U+00B5, U+00DF, U+00FF) are left unchanged. *)
Definition upper (c : ascii) : ascii :=
  if in_range 97 122 c
     || (in_range 224 254 c && negb (code c =? 247)%N)
  then ascii_of_N (code c - 32) else c.

Definition toLowerCase (s : str) : str := map lower s.
Definition toUpperCase (s : str) : str := map upper s.

Definition ascii_eqb (a b : ascii) : bool := (code a =? code b)%N.

Fixpoint starts_with (p s : str) : bool :=
  match p, s with
  | [], _ => true
  | a :: p', b :: s' => ascii_eqb a b && starts_with p' s'
  | _ :: _, [] => false
  end.

(** [String.prototype.includes] *)
Fixpoint includes (s kw : str) : bool :=
  starts_with kw s ||
  match s with
  | [] => false
  | _ :: s' => includes s' kw
  end.

(** [s.charAt(0)] and [s.slice(1)] *)
Definition charAt0 (s : str) : str := firstn 1 s.
Definition slice1 (s : str) : str := skipn 1 s.

(** [s.replace(c, d)] with a one-character string pattern: only the first
    occurrence is replaced. *)
Fixpoint replace_first (c d : ascii) (s : str) : str :=
  match s with
  | [] => []
  | x :: s' => if ascii_eqb x c then d :: s' else x :: replace_first c d s'
  end.

(** [s.replace(/c/g, '')]: every occurrence is removed. *)
Definition remove_all (c : ascii) (s : str) : str :=
  List.filter (fun x => negb (ascii_eqb x c)) s.

End JS.

(* ===================================================================== *)
(** * Numbers *)
(* ===================================================================== *)

Module Number.

(** [Num m e] is the number m / 10^e. *)
Inductive number := Num (m : Z) (e : nat).

Definition mant (n : number) : Z := let 'Num m _ := n in m.
Definition expo (n : number) : nat := let 'Num _ e := n in e.

(** Lowest terms: no fractional digit is a trailing zero. *)
Definition canonical (n : number) : bool :=
  match n with
  | Num m 0 => true
  | Num m (S _) => negb (m mod 10 =? 0)
  end.

Fixpoint normalize_aux (m : Z) (e : nat) : number :=
  match e with
  | 0%nat => Num m 0
  | S e' => if m mod 10 =? 0 then normalize_aux (m / 10) e' else Num m e
  end.

Definition normalize (n : number) : number :=
  let 'Num m e := n in normalize_aux m e.

Definition of_Z (z : Z) : number := Num z 0.

Definition pow10 (e : nat) : Z := 10 ^ Z.of_nat e.

(** [a + b], exact.  The sum of two doubles is rounded to a double; on
    integers whose sum stays below 2^53 in magnitude the two are the
    same. *)
Definition add (a b : number) : number :=
  let 'Num m1 e1 := a in
  let 'Num m2 e2 := b in
  let e := Nat.max e1 e2 in
  normalize (Num (m1 * pow10 (e - e1) + m2 * pow10 (e - e2)) e).

(** [a - b] *)
Definition sub (a b : number) : number :=
  let 'Num m1 e1 := a in
  let 'Num m2 e2 := b in
  let e := Nat.max e1 e2 in
  normalize (Num (m1 * pow10 (e - e1) - m2 * pow10 (e - e2)) e).

(** The sign of a number: -1, 0 or 1. *)
Definition sgn (n : number) : Z := Z.sgn (mant n).

(** [a <= b] and [a < b] *)
Definition leb (a b : number) : bool :=
  let 'Num m1 e1 := a in
  let 'Num m2 e2 := b in
  m1 * pow10 e2 <=? m2 * pow10 e1.

Definition ltb (a b : number) : bool :=
  let 'Num m1 e1 := a in
  let 'Num m2 e2 := b in
  m1 * pow10 e2 <? m2 * pow10 e1.

Definition eqb (a b : number) : bool :=
  let 'Num m1 e1 := a in
  let 'Num m2 e2 := b in
  (m1 =? m2) && (e1 =? e2)%nat.

Definition is_zero (n : number) : bool := mant n =? 0.

(** A positive integer. *)
Definition is_positive_integer (n : number) : Prop :=
  exists k : Z, 1 <= k /\ n = of_Z k.

(** The numbers of the run time are IEEE-754 doubles; [Num m e] is an exact
    decimal.  The two agree on the decimals of at most 15 significant
    digits that are zero or at least 1e-300 in magnitude ([plain]): such a
    decimal is the shortest notation of exactly one double, and its order
    and its being zero are those of that double.  Adding 1 is exact in both
    on the integers below 2^53 - 1 ([integer_below]); beyond that the
    double sum is rounded and [add] is not. *)
Definition plain (n : number) : bool :=
  (Z.abs (mant n) <? 10 ^ 15) && (expo n <=? 300)%nat.


(** Value of a digit string, most significant digit first. *)
Definition digit_val (c : ascii) : Z := Z.of_N (JS.code c) - 48.

Definition digits_val (ds : JS.str) : Z :=
  fold_left (fun acc c => 10 * acc + digit_val c) ds 0.

(** The character of a digit. *)
Definition digit_char (d : Z) : ascii := ascii_of_N (Z.to_N (48 + d)).

(** Decimal digits of a natural number, most significant first; the
    empty string for zero. *)
Fixpoint digits_fuel (fuel : nat) (n : Z) (acc : JS.str) : JS.str :=
  match fuel with
  | 0%nat => acc
  | S f =>
      if n <=? 0 then acc
      else digits_fuel f (n / 10) (digit_char (n mod 10) :: acc)
  end.

Definition digits_of (n : Z) : JS.str :=
  digits_fuel (S (Z.to_nat (Z.log2 n))) n [].

End Number.

Export Number(number, Num).

(* ===================================================================== *)
(** * Regular expressions *)
(* ===================================================================== *)

(** A backtracking matcher in continuation-passing style that follows the
    matching rules of ECMA-262 for the constructs the sources use:
    alternatives are tried left to right, quantifiers are greedy, an
    iteration of [*] that consumes nothing is rejected, and a search tries
    the start positions from left to right. *)
Module Regex.

Inductive regex :=
| Eps
| Chr (c : ascii)                    (* a pattern character *)
| Dot                                (* .  *)
| Class (p : ascii -> bool)          (* \d  [\s\S]  *)
| Seq (r1 r2 : regex)
| Alt (r1 r2 : regex)                (* r1|r2 *)
| Star (r : regex)                   (* r*  *)
| Group (r : regex).                 (* (r), capturing *)

(** Derived forms. *)
Definition Opt (r : regex) : regex := Alt r Eps.                 (* r? *)
Definition Plus (r : regex) : regex := Seq r (Star r).           (* r+ *)
Fixpoint Times (n : nat) (r : regex) : regex :=                  (* r{n} *)
  match n with
  | 0%nat => Eps
  | S n' => Seq r (Times n' r)
  end.
Fixpoint Lit (s : JS.str) : regex :=                             (* abc *)
  match s with
  | [] => Eps
  | c :: s' => Seq (Chr c) (Lit s')
  end.
Definition Word (s : string) : regex := Lit (JS.chars s).
Fixpoint Alts (rs : list regex) : regex :=
  match rs with
  | [] => Eps
  | [r] => r
  | r :: rs' => Alt r (Alts rs')
  end.

Definition digit : regex := Class JS.is_digit.                   (* \d *)
Definition any_char : regex := Class (fun _ => true).            (* [\s\S] *)

(** Character comparison; with the [i] flag both sides are canonicalised
    (upper-cased, where a non-ASCII unit never becomes ASCII). *)
Definition canon (c : ascii) : ascii :=
  if JS.in_range 97 122 c then JS.upper c else c.

Definition char_matches (ignoreCase : bool) (pat x : ascii) : bool :=
  if ignoreCase then JS.ascii_eqb (canon pat) (canon x)
  else JS.ascii_eqb pat x.

Section Matcher.
Context {R : Type}.
Variable ignoreCase : bool.

(** [rmatch r s caps k]: match [r] at the front of [s]; on success call
    the continuation with the rest of the input and the captures. *)
Fixpoint rmatch (r : regex) (s : JS.str) (caps : list JS.str)
         (k : JS.str -> list JS.str -> option R) : option R :=
  match r with
  | Eps => k s caps
  | Chr c =>
      match s with
      | x :: s' => if char_matches ignoreCase c x then k s' caps else None
      | [] => None
      end
  | Dot =>
      match s with
      | x :: s' => if JS.is_line_terminator x then None else k s' caps
      | [] => None
      end
  | Class p =>
      match s with
      | x :: s' => if p x then k s' caps else None
      | [] => None
      end
  | Seq r1 r2 =>
      rmatch r1 s caps (fun s' caps' => rmatch r2 s' caps' k)
  | Alt r1 r2 =>
      match rmatch r1 s caps k with
      | Some x => Some x
      | None => rmatch r2 s caps k
      end
  | Star r1 =>
      (fix star (n : nat) (s : JS.str) (caps : list JS.str) : option R :=
         match n with
         | 0%nat => k s caps
         | S n' =>
             match rmatch r1 s caps
                     (fun s' caps' =>
                        if (length s' <? length s)%nat
                        then star n' s' caps' else None) with
             | Some x => Some x
             | None => k s caps
             end
         end) (length s) s caps
  | Group r1 =>
      rmatch r1 s caps
        (fun s' caps' => k s' (caps' ++ [firstn (length s - length s') s]))
  end.
End Matcher.

(** The result of [RegExp.prototype.exec]: the matched text and the
    captured groups. *)
Record match_result := { matched : JS.str; groups : list JS.str }.

(** Match at the front of [s]. *)
Definition match_here (ignoreCase : bool) (r : regex) (s : JS.str)
  : option match_result :=
  rmatch ignoreCase r s []
    (fun s' caps =>
       Some {| matched := firstn (length s - length s') s; groups := caps |}).

(** [s.match(r)] for a regex without the [g] flag: leftmost match. *)
Fixpoint exec (ignoreCase : bool) (r : regex) (s : JS.str)
  : option match_result :=
  match match_here ignoreCase r s with
  | Some m => Some m
  | None =>
      match s with
      | [] => None
      | _ :: s' => exec ignoreCase r s'
      end
  end.

(** [r.test(s)] *)
Definition test (ignoreCase : bool) (r : regex) (s : JS.str) : bool :=
  match exec ignoreCase r s with Some _ => true | None => false end.

(** A regex without capturing groups. *)
Fixpoint group_free (r : regex) : bool :=
  match r with
  | Seq r1 r2 | Alt r1 r2 => group_free r1 && group_free r2
  | Star r1 => group_free r1
  | Group _ => false
  | _ => true
  end.

End Regex.

(* ===================================================================== *)
(** * JSON values, [JSON.stringify] and [JSON.parse] *)
(* ===================================================================== *)

Module JSON.

(** A JavaScript value that JSON can carry.  The members of an object are
    kept in property order. *)
#[warnings="-register-all"] Inductive json :=
| JNull
| JBool (b : bool)
| JNum (n : number)
| JStr (s : string)
| JArr (l : list json)
| JObj (l : list (string * json)).

(** ** Objects as ordered property lists *)

Fixpoint assoc (k : string) (l : list (string * json)) : option json :=
  match l with
  | [] => None
  | (k', v) :: l' => if String.eqb k k' then Some v else assoc k l'
  end.

(** [o[k] = v]: an existing property keeps its place, a new one goes last. *)
Fixpoint obj_set (k : string) (v : json) (l : list (string * json))
  : list (string * json) :=
  match l with
  | [] => [(k, v)]
  | (k', v') :: l' =>
      if String.eqb k k' then (k, v) :: l' else (k', v') :: obj_set k v l'
  end.

Definition obj_of_members (ms : list (string * json)) : list (string * json) :=
  fold_left (fun o m => obj_set (fst m) (snd m) o) ms [].

Fixpoint mem (k : string) (ks : list string) : bool :=
  match ks with
  | [] => false
  | k' :: ks' => String.eqb k k' || mem k ks'
  end.

Fixpoint distinct (ks : list string) : bool :=
  match ks with
  | [] => true
  | k :: ks' => negb (mem k ks') && distinct ks'
  end.

(** Representation invariant of a JavaScript value: the properties of an
    object have distinct names and every number is in lowest terms
    ([wf], with [wf_member] for the members of an object). *)
Fixpoint wf (v : json) : bool :=
  match v with
  | JNull | JBool _ | JStr _ => true
  | JNum n => Number.canonical n
  | JArr l => forallb wf l
  | JObj l =>
      distinct (map fst l) && forallb (fun m => let '(_, x) := m in wf x) l
  end.

Definition wf_member (m : string * json) : bool := let '(_, x) := m in wf x.

(** Every number of a value is [Number.plain]: the value is the one the run
    time holds. *)
Fixpoint plain (v : json) : bool :=
  match v with
  | JNull | JBool _ | JStr _ => true
  | JNum n => Number.plain n
  | JArr l => forallb plain l
  | JObj l => forallb (fun m => let '(_, x) := m in plain x) l
  end.

(** ** Reading values the way JavaScript does *)

(** [v.k] for a value that is neither [null] nor [undefined]; [None] is
    [undefined].  Only objects carry the property names the sources read. *)
Definition get (k : string) (v : json) : option json :=
  match v with
  | JObj l => assoc k l
  | _ => None
  end.

(** [ToBoolean] *)
Definition truthy (v : json) : bool :=
  match v with
  | JNull => false
  | JBool b => b
  | JNum n => negb (Number.is_zero n)
  | JStr s => negb (String.eqb s "")
  | JArr _ | JObj _ => true
  end.

(** [ToBoolean] of a property read: [undefined] is falsy. *)
Definition truthy_opt (o : option json) : bool :=
  match o with
  | Some v => truthy v
  | None => false
  end.

Definition is_array (v : json) : bool :=
  match v with JArr _ => true | _ => false end.

(** [typeof v === 'string'] and [typeof v === 'number'] *)
Definition is_string (o : option json) : bool :=
  match o with Some (JStr _) => true | _ => false end.
Definition is_number (o : option json) : bool :=
  match o with Some (JNum _) => true | _ => false end.

(** ** Characters of the JSON grammar *)

Definition dquote : ascii := ascii_of_N 34.
Definition backslash : ascii := ascii_of_N 92.
Definition newline : ascii := ascii_of_N 10.

Definition is_ws (c : ascii) : bool :=
  let n := JS.code c in
  ((n =? 32) || (n =? 9) || (n =? 10) || (n =? 13))%N.

Definition is_char (c : ascii) (x : ascii) : bool := JS.ascii_eqb x c.

(** ** [JSON.stringify] *)

Definition hex_digit (n : N) : ascii :=
  if (n <? 10)%N then ascii_of_N (48 + n) else ascii_of_N (87 + n).

(** [QuoteJSONString], one code unit. *)
Definition quote_char (c : ascii) : JS.str :=
  let n := JS.code c in
  if (n =? 34)%N then [backslash; dquote]
  else if (n =? 92)%N then [backslash; backslash]
  else if (n =? 8)%N then [backslash; "b"%char]
  else if (n =? 9)%N then [backslash; "t"%char]
  else if (n =? 10)%N then [backslash; "n"%char]
  else if (n =? 12)%N then [backslash; "f"%char]
  else if (n =? 13)%N then [backslash; "r"%char]
  else if (n <? 32)%N then
    [backslash; "u"%char; "0"%char; "0"%char;
     hex_digit (n / 16); hex_digit (n mod 16)]
  else [c].

Definition quote (s : string) : JS.str :=
  dquote :: flat_map quote_char (JS.chars s) ++ [dquote].

(** [Number::toString] in plain decimal notation.  (JavaScript switches to
    exponent notation outside 1e-7 .. 1e21; the model does not.) *)
Definition number_to_chars (n : number) : JS.str :=
  let 'Num m e := n in
  let ds := Number.digits_of (Z.abs m) in
  let ds := repeat "0"%char (S e - length ds) ++ ds in
  let ip := firstn (length ds - e) ds in
  let fp := skipn (length ds - e) ds in
  (if m <? 0 then ["-"%char] else [])
    ++ ip ++ (match e with 0%nat => [] | S _ => "."%char :: fp end).

Section Stringify.
(** The [space] argument of [JSON.stringify]: the number of blanks per
    nesting level ([0] when the argument is absent). *)
Variable gap : nat.

(** Line break and indentation between the items of a non-empty array or
    object; nothing when [gap] is zero. *)
Definition break (level : nat) : JS.str :=
  match gap with
  | 0%nat => []
  | S _ => newline :: repeat " "%char (level * gap)
  end.

(** The text between a property name and its value. *)
Definition colon : JS.str :=
  match gap with
  | 0%nat => [":"%char]
  | S _ => [":"%char; " "%char]
  end.

Fixpoint serialize (level : nat) (v : json) : JS.str :=
  match v with
  | JNull => JS.chars "null"
  | JBool true => JS.chars "true"
  | JBool false => JS.chars "false"
  | JNum n => number_to_chars n
  | JStr s => quote s
  | JArr [] => JS.chars "[]"
  | JArr (x :: l) =>
      "["%char :: break (S level) ++ serialize (S level) x
        ++ (fix items (l : list json) : JS.str :=
              match l with
              | [] => []
              | y :: l' =>
                  ","%char :: break (S level) ++ serialize (S level) y
                    ++ items l'
              end) l
        ++ break level ++ ["]"%char]
  | JObj [] => JS.chars "{}"
  | JObj ((k, x) :: l) =>
      "{"%char :: break (S level) ++ quote k ++ colon
        ++ serialize (S level) x
        ++ (fix members (l : list (string * json)) : JS.str :=
              match l with
              | [] => []
              | (k', y) :: l' =>
                  ","%char :: break (S level) ++ quote k' ++ colon
                    ++ serialize (S level) y ++ members l'
              end) l
        ++ break level ++ ["}"%char]
  end.
End Stringify.

(** [JSON.stringify(v)] and [JSON.stringify(v, null, n)] *)
Definition stringify (v : json) : string := JS.text (serialize 0 0 v).
Definition stringify_indent (n : nat) (v : json) : string :=
  JS.text (serialize n 0 v).

(** ** [JSON.parse] *)

Fixpoint skip_ws (s : JS.str) : JS.str :=
  match s with
  | c :: s' => if is_ws c then skip_ws s' else s
  | [] => []
  end.

Fixpoint span_digits (s : JS.str) : JS.str * JS.str :=
  match s with
  | c :: s' =>
      if JS.is_digit c
      then let '(d, r) := span_digits s' in (c :: d, r)
      else ([], s)
  | [] => ([], [])
  end.

Definition hex_val (c : ascii) : option N :=
  let n := JS.code c in
  if JS.in_range 48 57 c then Some (n - 48)%N
  else if JS.in_range 97 102 c then Some (n - 87)%N
  else if JS.in_range 65 70 c then Some (n - 55)%N
  else None.

Definition hex4 (a b c d : ascii) : option N :=
  match hex_val a, hex_val b, hex_val c, hex_val d with
  | Some x, Some y, Some z, Some w => Some (((x * 16 + y) * 16 + z) * 16 + w)%N
  | _, _, _, _ => None
  end.

(** The character denoted by a two-character escape. *)
Definition unescape (c : ascii) : option ascii :=
  let n := JS.code c in
  if (n =? 34)%N then Some dquote
  else if (n =? 92)%N then Some backslash
  else if (n =? 47)%N then Some "/"%char
  else if (n =? 98)%N then Some (ascii_of_N 8)
  else if (n =? 102)%N then Some (ascii_of_N 12)
  else if (n =? 110)%N then Some (ascii_of_N 10)
  else if (n =? 114)%N then Some (ascii_of_N 13)
  else if (n =? 116)%N then Some (ascii_of_N 9)
  else None.

Definition cons_to {A} (c : A) (r : option (list A * JS.str))
  : option (list A * JS.str) :=
  match r with
  | Some (l, rest) => Some (c :: l, rest)
  | None => None
  end.

(** The characters of a string literal after its opening quote, up to and
    including the closing quote.  An escape that denotes a code unit above
    255 is refused (such units are outside the model). *)
Fixpoint parse_string (s : JS.str) : option (JS.str * JS.str) :=
  match s with
  | [] => None
  | c :: r =>
      if is_char dquote c then Some ([], r)
      else if is_char backslash c then
        match r with
        | [] => None
        | e :: r' =>
            if is_char "u"%char e then
              match r' with
              | h1 :: h2 :: h3 :: h4 :: r'' =>
                  match hex4 h1 h2 h3 h4 with
                  | Some n =>
                      if (n <? 256)%N
                      then cons_to (ascii_of_N n) (parse_string r'')
                      else None
                  | None => None
                  end
              | _ => None
              end
            else
              match unescape e with
              | Some x => cons_to x (parse_string r')
              | None => None
              end
        end
      else if (JS.code c <? 32)%N then None
      else cons_to c (parse_string r)
  end.

(** int = 0 | [1-9][0-9]* *)
Definition parse_int (s : JS.str) : option (JS.str * JS.str) :=
  match s with
  | c :: r =>
      if is_char "0"%char c then Some ([c], r)
      else if JS.is_digit c
           then let '(d, r') := span_digits r in Some (c :: d, r')
           else None
  | [] => None
  end.

(** frac = . [0-9]+ (optional) *)
Definition parse_frac (s : JS.str) : option (JS.str * JS.str) :=
  match s with
  | c :: r =>
      if is_char "."%char c then
        match span_digits r with
        | ([], _) => None
        | (d, r') => Some (d, r')
        end
      else Some ([], s)
  | [] => Some ([], s)
  end.

(** exp = [eE] [+-]? [0-9]+ (optional) *)
Definition parse_exp (s : JS.str) : option (Z * JS.str) :=
  match s with
  | c :: r =>
      if is_char "e"%char c || is_char "E"%char c then
        let '(sign, r1) :=
          match r with
          | x :: r1 =>
              if is_char "+"%char x then (1, r1)
              else if is_char "-"%char x then (-1, r1)
              else (1, r)
          | [] => (1, r)
          end in
        match span_digits r1 with
        | ([], _) => None
        | (d, r2) => Some (sign * Number.digits_val d, r2)
        end
      else Some (0, s)
  | [] => Some (0, s)
  end.

(** The number with digits [ip.fp] times ten to the [ex], exact.
    [JSON.parse] and [parseFloat] round the literal to a double, which is
    the same number when the literal is [Number.plain]. *)
Definition make_number (neg : bool) (ip fp : JS.str) (ex : Z) : number :=
  let m := Number.digits_val (ip ++ fp) in
  let m := if neg then - m else m in
  let scale := ex - Z.of_nat (length fp) in
  if 0 <=? scale then Num (m * 10 ^ scale) 0
  else Number.normalize (Num m (Z.to_nat (- scale))).

Definition parse_number (s : JS.str) : option (number * JS.str) :=
  let '(neg, s1) :=
    match s with
    | c :: r => if is_char "-"%char c then (true, r) else (false, s)
    | [] => (false, s)
    end in
  match parse_int s1 with
  | None => None
  | Some (ip, s2) =>
      match parse_frac s2 with
      | None => None
      | Some (fp, s3) =>
          match parse_exp s3 with
          | None => None
          | Some (ex, s4) => Some (make_number neg ip fp ex, s4)
          end
      end
  end.

Definition keyword (w : string) (v : json) (s : JS.str)
  : option (json * JS.str) :=
  if JS.starts_with (JS.chars w) s
  then Some (v, skipn (length (JS.chars w)) s) else None.

(** Recursive descent; [fuel] bounds the nesting of calls.  Each function
    returns the value read and the rest of the input. *)
Fixpoint parse_value (fuel : nat) (s : JS.str) : option (json * JS.str) :=
  match fuel with
  | 0%nat => None
  | S f =>
      match skip_ws s with
      | [] => None
      | c :: r =>
          if is_char "n"%char c then keyword "null" JNull (c :: r)
          else if is_char "t"%char c then keyword "true" (JBool true) (c :: r)
          else if is_char "f"%char c then keyword "false" (JBool false) (c :: r)
          else if is_char dquote c then
            match parse_string r with
            | Some (x, r') => Some (JStr (JS.text x), r')
            | None => None
            end
          else if is_char "["%char c then
            match skip_ws r with
            | c' :: r' =>
                if is_char "]"%char c' then Some (JArr [], r')
                else
                  match parse_elements f r with
                  | Some (l, r'') => Some (JArr l, r'')
                  | None => None
                  end
            | [] => None
            end
          else if is_char "{"%char c then
            match skip_ws r with
            | c' :: r' =>
                if is_char "}"%char c' then Some (JObj [], r')
                else
                  match parse_members f r with
                  | Some (ms, r'') => Some (JObj (obj_of_members ms), r'')
                  | None => None
                  end
            | [] => None
            end
          else
            match parse_number (c :: r) with
            | Some (n, r') => Some (JNum n, r')
            | None => None
            end
      end
  end

(** value (, value)* ] *)
with parse_elements (fuel : nat) (s : JS.str)
  : option (list json * JS.str) :=
  match fuel with
  | 0%nat => None
  | S f =>
      match parse_value f s with
      | None => None
      | Some (v, r) =>
          match skip_ws r with
          | c :: r' =>
              if is_char ","%char c then cons_to v (parse_elements f r')
              else if is_char "]"%char c then Some ([v], r')
              else None
          | [] => None
          end
      end
  end

(** string : value (, string : value)* } *)
with parse_members (fuel : nat) (s : JS.str)
  : option (list (string * json) * JS.str) :=
  match fuel with
  | 0%nat => None
  | S f =>
      match skip_ws s with
      | q :: r0 =>
          if is_char dquote q then
            match parse_string r0 with
            | None => None
            | Some (k, r1) =>
                match skip_ws r1 with
                | c1 :: r2 =>
                    if is_char ":"%char c1 then
                      match parse_value f r2 with
                      | None => None
                      | Some (v, r3) =>
                          match skip_ws r3 with
                          | c :: r' =>
                              if is_char ","%char c
                              then cons_to (JS.text k, v) (parse_members f r')
                              else if is_char "}"%char c
                                   then Some ([(JS.text k, v)], r')
                                   else None
                          | [] => None
                          end
                      end
                    else None
                | [] => None
                end
            end
          else None
      | [] => None
      end
  end.

(** The items after the first one of a non-empty array, and the members
    after the first one of a non-empty object, as [serialize] prints
    them at nesting level [level]. *)
Definition serialize_items (gap level : nat) : list json -> JS.str :=
  fix items (l : list json) : JS.str :=
    match l with
    | [] => []
    | y :: l' =>
        ","%char :: break gap level ++ serialize gap level y ++ items l'
    end.

Definition serialize_members (gap level : nat)
  : list (string * json) -> JS.str :=
  fix members (l : list (string * json)) : JS.str :=
    match l with
    | [] => []
    | (k', y) :: l' =>
        ","%char :: break gap level ++ quote k' ++ colon gap
          ++ serialize gap level y ++ members l'
    end.

(** Fuel that [parse_value] needs to read a value back. *)
Fixpoint need (v : json) : nat :=
  match v with
  | JArr l => S (fold_right (fun x n => S (Nat.max (need x) n)) 0%nat l)
  | JObj l =>
      S (fold_right (fun m n => let '(_, x) := m in S (Nat.max (need x) n))
                    0%nat l)
  | _ => 1%nat
  end.

Definition need_items (l : list json) : nat :=
  fold_right (fun x n => S (Nat.max (need x) n)) 0%nat l.

Definition need_members (l : list (string * json)) : nat :=
  fold_right (fun m n => let '(_, x) := m in S (Nat.max (need x) n)) 0%nat l.

(** The first character of a value: not white space, not a closing
    bracket. *)
Definition starts_value (s : JS.str) : Prop :=
  match s with
  | c :: _ =>
      is_ws c = false /\ is_char "]" c = false /\ is_char "}" c = false
  | [] => False
  end.

(** What may follow a number without being read as part of it. *)
Definition ends_number (rest : JS.str) : Prop :=
  match rest with
  | [] => True
  | c :: _ =>
      JS.is_digit c = false /\ is_char "." c = false
      /\ is_char "e" c = false /\ is_char "E" c = false
  end.

(** [JSON.parse(text)]; [None] stands for a thrown [SyntaxError].  Every
    call of the descent consumes input, so twice the length of the text is
    fuel enough. *)
Definition parse (text : string) : option json :=
  let s := JS.chars text in
  match parse_value (2 * length s + 2) s with
  | Some (v, r) =>
      match skip_ws r with
      | [] => Some v
      | _ :: _ => None
      end
  | None => None
  end.

(** ** Texts that [parse] reads as the run time does *)

(** The strings of this model hold code units below 256, and [parse]
    refuses an escape [\uXXXX] that denotes a higher one, which
    [JSON.parse] accepts.  [no_wide_escape s]: every [\u] of [s] is
    followed by [00]. *)
Fixpoint no_wide_escape (s : JS.str) : bool :=
  match s with
  | [] => true
  | _ :: s' =>
      (if JS.starts_with [backslash; "u"%char] s
       then JS.starts_with [backslash; "u"%char; "0"%char; "0"%char] s
       else true)
      && no_wide_escape s'
  end.

(** A text on which [parse] and [JSON.parse] agree: it has no escape above
    [00FF], and the numbers of the value it denotes are plain (a number
    literal such as 1.00000000000000000001 or 1e-400 is rounded by
    [JSON.parse], to 1 and to 0, and kept as it is by [parse]). *)
Definition reads_alike (text : string) : bool :=
  no_wide_escape (JS.chars text)
  && match parse text with
     | Some v => plain v
     | None => true
     end.

End JSON.

Export JSON(json, JNull, JBool, JNum, JStr, JArr, JObj).

(* ===================================================================== *)
(** * Effects: exceptions and state *)
(* ===================================================================== *)

Module Eff.

(** A thrown value.  [Thrown EError m] is [new Error(m)]; the messages of
    the errors the run time raises by itself come from the [Engine].  A
    thrown value that is not an [Error] is either [null] or [undefined]
    ([ENullish], of which no property can be read) or any other value
    ([ENotAnError]); its [message] field is not used. *)
Inductive error_class :=
| EError | ESyntaxError | ETypeError | ENotAnError | ENullish.

Record exn := Thrown { class_of : error_class; message : string }.

(** [error instanceof Error ? error.message : 'Unknown error'] *)
Definition message_or_unknown (e : exn) : string :=
  match class_of e with
  | ENotAnError | ENullish => "Unknown error"
  | _ => message e
  end.

(** [null] and [undefined]: reading a property of them throws. *)
Definition is_nullish (e : exn) : bool :=
  match class_of e with
  | ENullish => true
  | _ => false
  end.

(** Texts of the run time's own error messages (they differ between
    JavaScript engines). *)
Record Engine := {
  syntax_error_message : string -> string;   (* JSON.parse(text) *)
  null_read_message : string -> string;      (* null.prop *)
  not_a_function_message : string -> string  (* x.f() where x.f is undefined *)
}.

Inductive outcome (A : Type) :=
| Ok (a : A)
| Throw (e : exn).
Arguments Ok {A} a.
Arguments Throw {A} e.

(** A computation over a state of type [S]. *)
Definition M (S A : Type) : Type := S -> outcome A * S.

Definition ret {S A} (a : A) : M S A := fun s => (Ok a, s).

Definition bind {S A B} (m : M S A) (f : A -> M S B) : M S B :=
  fun s =>
    match m s with
    | (Ok a, s') => f a s'
    | (Throw e, s') => (Throw e, s')
    end.

Definition throw {S A} (e : exn) : M S A := fun s => (Throw e, s).

(** [try { m } catch (e) { h e }] *)
Definition try_catch {S A} (m : M S A) (h : exn -> M S A) : M S A :=
  fun s =>
    match m s with
    | (Ok a, s') => (Ok a, s')
    | (Throw e, s') => h e s'
    end.

Definition get_state {S} : M S S := fun s => (Ok s, s).
Definition put_state {S} (s : S) : M S unit := fun _ => (Ok tt, s).

(** Lift a pure outcome. *)
Definition lift {S A} (o : outcome A) : M S A := fun s => (o, s).

Definition new_Error {S A} (msg : string) : M S A := throw (Thrown EError msg).

End Eff.

Export Eff(Ok, Throw, Thrown, EError, ESyntaxError, ETypeError, ENotAnError,
           ENullish).

Declare Scope eff_scope.
Delimit Scope eff_scope with eff.
Notation "x <- m ;; k" := (Eff.bind m (fun x => k))
  (at level 100, m at next level, right associativity) : eff_scope.
Notation "m ;;; k" := (Eff.bind m (fun _ => k))
  (at level 100, right associativity) : eff_scope.

(* ===================================================================== *)
(** * The result contract of every parsing entry point *)
(* ===================================================================== *)

(** [ConversionResult]: [{success: true, rule}] or
    [{success: false, error, suggestions}].  The rule is the JavaScript
    object as built or parsed. *)
Inductive ConversionResult :=
| Success (rule : json)
| Failure (error : string) (suggestions : list string).

Definition success (r : ConversionResult) : bool :=
  match r with Success _ => true | Failure _ _ => false end.

(** Calls that cross a component boundary, in the order they are made. *)
Inductive event :=
| AdapterCall (instruction : string)       (* GeminiService.parseInstruction *)
| ApiCall (instruction : string)           (* apiClient.parseInstruction *)
| GenerateCall (prompt : string)           (* model.generateContent *)
| HeuristicCall (instruction : string).    (* fallbackParsing *)

Definition trace := list event.

Definition emit (e : event) : Eff.M trace unit :=
  fun t => (Ok tt, t ++ [e]).

(* ===================================================================== *)
(** * The AI adapter and the heuristic extractor *)
(* ===================================================================== *)

Module GeminiService.

Import Regex.
Local Open Scope eff_scope.

(** The generation capability: [generateContent(prompt)] followed by
    [result.response] and [response.text()] yields a text or throws. *)
Record Model := { generateContent : string -> Eff.outcome string }.

(** The adapter instance: [model] is [null] when no capability was
    initialised. *)
Record t := { model : option Model; apiKeyPresent : bool }.

Definition isGeminiAvailable (svc : t) : bool :=
  match model svc with Some _ => true | None => false end.

Definition getStatus (svc : t) : bool * bool :=
  (isGeminiAvailable svc, apiKeyPresent svc).

(** ** Heuristic extractor *)

Definition actionKeywords : list (string * list string) :=
  [ ("flag", ["flag"; "mark"; "highlight"; "identify"]);
    ("review", ["review"; "check"; "examine"; "investigate"]);
    ("reject", ["reject"; "deny"; "block"; "prevent"]);
    ("approve", ["approve"; "accept"; "allow"; "permit"]) ].

Definition extractAction (instruction : JS.str) : string :=
  match
    find (fun entry =>
            existsb (fun keyword => JS.includes instruction (JS.chars keyword))
                    (snd entry))
         actionKeywords
  with
  | Some (action, _) => action
  | None => "flag"
  end.

(** [a.*b] *)
Definition then_later (a b : string) : regex :=
  Seq (Word a) (Seq (Star Dot) (Word b)).

(** /expense.*amount|amount.*above|cost.*over/i *)
Definition re_expense : regex :=
  Alts [then_later "expense" "amount"; then_later "amount" "above";
        then_later "cost" "over"].
(** /vendor.*frequency|appears.*times|vendor.*day/i *)
Definition re_vendor : regex :=
  Alts [then_later "vendor" "frequency"; then_later "appears" "times";
        then_later "vendor" "day"].
(** /category.*amount|tagged.*over|categorized.*above/i *)
Definition re_category : regex :=
  Alts [then_later "category" "amount"; then_later "tagged" "over";
        then_later "categorized" "above"].
(** /duplicate|same.*transaction|identical/i *)
Definition re_duplicate : regex :=
  Alts [Word "duplicate"; then_later "same" "transaction"; Word "identical"].
(** /time|after|before|am|pm/i *)
Definition re_time : regex :=
  Alts [Word "time"; Word "after"; Word "before"; Word "am"; Word "pm"].

Definition determineRuleType (instruction : JS.str) : option string :=
  if test true re_expense instruction then Some "expense_amount_threshold"
  else if test true re_vendor instruction then Some "vendor_frequency"
  else if test true re_category instruction then Some "category_amount_threshold"
  else if test true re_duplicate instruction then Some "duplicate_detection"
  else if test true re_time instruction then Some "time_based"
  else None.

(** /\$?(\d+(?:,\d{3})*(?:\.\d{2})?)/ *)
Definition re_amount : regex :=
  Seq (Opt (Chr "$"))
      (Group (Seq (Plus digit)
                  (Seq (Star (Seq (Chr ",") (Times 3 digit)))
                       (Opt (Seq (Chr ".") (Times 2 digit)))))).

(** What the amount pattern lets follow the first digit of an amount:
    [\d*(?:,\d{3})*(?:\.\d{2})?] *)
Definition amount_rest : regex :=
  Seq (Star digit)
      (Seq (Star (Seq (Chr ",") (Times 3 digit)))
           (Opt (Seq (Chr ".") (Times 2 digit)))).

(** [parseFloat] on a string of digits with an optional fraction, which is
    all the amount pattern lets through once the commas are gone; [None]
    is [NaN]. *)
Definition parseFloat (s : JS.str) : option number :=
  let '(ip, r) := JSON.span_digits s in
  let fp :=
    match r with
    | c :: r' => if JSON.is_char "."%char c then fst (JSON.span_digits r') else []
    | [] => []
    end in
  match ip, fp with
  | [], [] => None
  | _, _ => Some (JSON.make_number false ip fp 0)
  end.

Definition extractBasicConditions (instruction : JS.str) : list json :=
  match exec false re_amount instruction with
  | Some amountMatch =>
      match parseFloat (JS.remove_all ","%char (nth 0 (groups amountMatch) [])) with
      | Some value =>
          [JObj [("field", JStr "amount"); ("operator", JStr "gt");
                 ("value", JNum value)]]
      | None =>
          (* NaN, which JSON carries as null; not reached, since group 1
             starts with a digit *)
          [JObj [("field", JStr "amount"); ("operator", JStr "gt");
                 ("value", JNull)]]
      end
  | None => []
  end.

Definition capitalize (action : string) : string :=
  let a := JS.chars action in
  JS.text (JS.toUpperCase (JS.charAt0 a) ++ JS.slice1 a).

(** The suggestion that names the credential differs between the in-process
    adapter and the server route. *)
Definition key_hint_client : string :=
  "Ensure VITE_GEMINI_API_KEY is set in your environment".
Definition key_hint_server : string :=
  "Ensure GEMINI_API_KEY is set in your server/.env file".

Definition quoted (s : string) : string :=
  String JSON.dquote s +:+ String JSON.dquote "".

Definition keyword_hint : string :=
  "Try using more specific keywords like " +:+ quoted "expense" +:+ ", "
    +:+ quoted "vendor" +:+ ", " +:+ quoted "category".

Definition fallbackParsing_with (key_hint : string) (instruction : string)
  : ConversionResult :=
  let normalizedInstruction := JS.trim (JS.toLowerCase (JS.chars instruction)) in
  let action := extractAction normalizedInstruction in
  let ruleType := determineRuleType normalizedInstruction in
  let conditions := extractBasicConditions normalizedInstruction in
  match ruleType with
  | None =>
      Failure
        "Could not determine rule type. Please check your Gemini API configuration."
        [key_hint; keyword_hint; "Include threshold amounts with $ symbol"]
  | Some ruleType =>
      Success
        (JObj [("rule_type", JStr ruleType);
               ("conditions", JArr conditions);
               ("action", JStr action);
               ("reason",
                 JStr (capitalize action +:+ " based on "
                       +:+ JS.text (JS.replace_first "_"%char " "%char
                                      (JS.chars ruleType))));
               ("confidence_score", JNum (Num 6 1))])
  end.

Definition fallbackParsing : string -> ConversionResult :=
  fallbackParsing_with key_hint_client.

(** ** Response handling *)

(** /\{[\s\S]*\}/ *)
Definition re_json : regex :=
  Seq (Chr "{") (Seq (Star any_char) (Chr "}")).

(** [Array.prototype.every] with a callback that may throw. *)
Definition every (p : json -> Eff.outcome bool)
  : list json -> Eff.outcome bool :=
  fix every (l : list json) : Eff.outcome bool :=
    match l with
    | [] => Ok true
    | x :: l' =>
        match p x with
        | Ok true => every l'
        | Ok false => Ok false
        | Throw e => Throw e
        end
    end.

Section Engine.
Variable E : Eff.Engine.

(** [c.field && c.operator && c.value !== undefined]; reading a property
    of [null] throws. *)
Definition validCondition (condition : json) : Eff.outcome bool :=
  match condition with
  | JNull => Throw (Thrown ETypeError (Eff.null_read_message E "field"))
  | _ =>
      Ok (JSON.truthy_opt (JSON.get "field" condition)
          && JSON.truthy_opt (JSON.get "operator" condition)
          && bool_decide (is_Some (JSON.get "value" condition)))
  end.

Definition validateParsedRule (rule : json) : Eff.outcome bool :=
  if negb (JSON.truthy rule) then Ok false
  else if negb (JSON.is_string (JSON.get "rule_type" rule)) then Ok false
  else
    match JSON.get "conditions" rule with
    | Some (JArr conditions) =>
        if negb (JSON.is_string (JSON.get "action" rule)) then Ok false
        else if negb (JSON.is_string (JSON.get "reason" rule)) then Ok false
        else
          match JSON.get "confidence_score" rule with
          | Some (JNum score) =>
              if negb (Number.leb (Num 0 0) score) then Ok false
              else if negb (Number.leb score (Num 1 0)) then Ok false
              else every validCondition conditions
          | _ => Ok false
          end
    | _ => Ok false
    end.

Definition JSON_parse {S} (text : string) : Eff.M S json :=
  match JSON.parse text with
  | Some v => Eff.ret v
  | None => Eff.throw (Thrown ESyntaxError (Eff.syntax_error_message E text))
  end.

Definition response_suggestions : list string :=
  [ "Try rephrasing your instruction more clearly";
    "Include specific amounts, categories, or conditions";
    "Use clear action words like " +:+ quoted "flag" +:+ ", "
      +:+ quoted "review" +:+ ", " +:+ quoted "reject" +:+ ", or "
      +:+ quoted "approve" ].

Definition parseGeminiResponse (response originalInstruction : string)
  : Eff.M trace ConversionResult :=
  Eff.try_catch
    (match exec false re_json (JS.chars response) with
     | None => Eff.new_Error "No JSON found in response"
     | Some jsonMatch =>
         parsedRule <- JSON_parse (JS.text (matched jsonMatch)) ;;
         valid <- Eff.lift (validateParsedRule parsedRule) ;;
         if negb valid
         then Eff.new_Error "Invalid rule structure from Gemini"
         else Eff.ret (Success parsedRule)
     end)
    (fun error =>
       Eff.ret (Failure ("Failed to parse AI response: "
                           +:+ Eff.message_or_unknown error)
                        response_suggestions)).

(** ** The prompt *)

Definition nl : string := String JSON.newline "".

Definition lines (ls : list string) : string :=
  fold_right (fun l acc => l +:+ nl +:+ acc) "" ls.

Definition arrow : string := "→".

Definition buildPrompt (instruction : string) : string :=
  nl +:+ lines
  [ "You are an expert audit rule parser. Convert the following natural language audit instruction into a structured JSON rule.";
    "";
    "INSTRUCTION: " +:+ quoted instruction;
    "";
    "Please analyze the instruction and return a JSON object with the following structure:";
    "{";
    "  " +:+ quoted "rule_type" +:+ ": " +:+ quoted "string (one of: expense_amount_threshold, vendor_frequency, category_amount_threshold, duplicate_detection, time_based, compliance_check)" +:+ ",";
    "  " +:+ quoted "conditions" +:+ ": [";
    "    {";
    "      " +:+ quoted "field" +:+ ": " +:+ quoted "string (e.g., amount, vendor, category, time, etc.)" +:+ ",";
    "      " +:+ quoted "operator" +:+ ": " +:+ quoted "string (gt, lt, eq, ne, contains, not_contains, in, not_in)" +:+ ",";
    "      " +:+ quoted "value" +:+ ": " +:+ quoted "any (the threshold value, category name, etc.)" +:+ ",";
    "      " +:+ quoted "logical_operator" +:+ ": " +:+ quoted "string (AND, OR) - optional";
    "    }";
    "  ],";
    "  " +:+ quoted "action" +:+ ": " +:+ quoted "string (flag, review, reject, approve)" +:+ ",";
    "  " +:+ quoted "reason" +:+ ": " +:+ quoted "string (human-readable explanation of what the rule does)" +:+ ",";
    "  " +:+ quoted "confidence_score" +:+ ": " +:+ quoted "number (0.0 to 1.0 indicating confidence in the parsing)";
    "}";
    "";
    "IMPORTANT RULES:";
    "1. Extract specific numeric thresholds (amounts, frequencies, percentages)";
    "2. Identify the main action (flag, review, reject, approve)";
    "3. Determine the rule type based on what's being checked";
    "4. Create logical conditions that can be evaluated programmatically";
    "5. Provide a confidence score based on how clear the instruction is";
    "6. If the instruction mentions " +:+ quoted "not" +:+ " or exclusions, use appropriate operators";
    "7. For time-based rules, extract specific times or time ranges";
    "8. For duplicate detection, focus on matching criteria (amount, vendor, date, etc.)";
    "";
    "EXAMPLES:";
    "- " +:+ quoted "Flag any expense above $1,000 not tagged as capital expenditure" +:+ " " +:+ arrow +:+ " expense_amount_threshold with amount > 1000 AND category not_contains " +:+ quoted "capital";
    "- " +:+ quoted "If a vendor appears more than twice in one day, flag for review" +:+ " " +:+ arrow +:+ " vendor_frequency with frequency > 2 AND timeframe = " +:+ quoted "day";
    "- " +:+ quoted "Review any expense after 10 PM" +:+ " " +:+ arrow +:+ " time_based with time > " +:+ quoted "22:00";
    "";
    "Return ONLY the JSON object, no additional text or explanation." ].

(** ** [GeminiService.parseInstruction] *)

Definition heuristic (key_hint instruction : string)
  : Eff.M trace ConversionResult :=
  emit (HeuristicCall instruction) ;;;
  Eff.ret (fallbackParsing_with key_hint instruction).

Definition generate (m : Model) (prompt : string) : Eff.M trace string :=
  emit (GenerateCall prompt) ;;;
  Eff.lift (generateContent m prompt).

Definition parseInstruction (svc : t) (instruction : string)
  : Eff.M trace ConversionResult :=
  emit (AdapterCall instruction) ;;;
  match model svc with
  | None => heuristic key_hint_client instruction
  | Some m =>
      Eff.try_catch
        (let prompt := buildPrompt instruction in
         text <- generate m prompt ;;
         parseGeminiResponse text instruction)
        (fun error => heuristic key_hint_client instruction)
  end.

End Engine.

End GeminiService.

(* ===================================================================== *)
(** * The instruction parser (orchestrator) *)
(* ===================================================================== *)

Module RuleParser.

Local Open Scope eff_scope.

Definition empty_instruction : ConversionResult :=
  Failure "Instruction cannot be empty"
          ["Please provide a clear audit instruction"].

(** [!instruction.trim()] *)
Definition is_blank (instruction : string) : bool :=
  match JS.trim (JS.chars instruction) with
  | [] => true
  | _ :: _ => false
  end.

Definition failed_to_parse (middle : string) (error : Eff.exn)
  : ConversionResult :=
  Failure ("Failed to parse instruction: " +:+ Eff.message_or_unknown error)
          [ "Check your internet connection"; middle;
            "Try simplifying your instruction" ].

(** The in-process parser, which owns a [GeminiService]. *)
Definition parseInstruction (E : Eff.Engine) (geminiService : GeminiService.t)
           (instruction : string) : Eff.M trace ConversionResult :=
  if is_blank instruction then Eff.ret empty_instruction
  else
    Eff.try_catch
      (GeminiService.parseInstruction E geminiService instruction)
      (fun error =>
         Eff.ret (failed_to_parse
                    "Verify your Gemini API key is configured correctly" error)).

(** The HTTP-mediated parser of [src/services/ruleParser.ts].  The
    [apiClient] module is not part of the sources at hand; its
    [parseInstruction] is taken as a parameter: a call that yields a
    [ConversionResult] or rejects. *)
Definition parseInstruction_remote
           (apiClient : string -> Eff.outcome ConversionResult)
           (instruction : string) : Eff.M trace ConversionResult :=
  if is_blank instruction then Eff.ret empty_instruction
  else
    Eff.try_catch
      (emit (ApiCall instruction) ;;;
       Eff.lift (apiClient instruction))
      (fun error =>
         Eff.ret (failed_to_parse "Verify the backend server is running" error)).

Definition getParserStatus := GeminiService.getStatus.
Definition isGeminiAvailable := GeminiService.isGeminiAvailable.

End RuleParser.

(* ===================================================================== *)
(** * The server route [POST /parse] *)
(* ===================================================================== *)

Module GeminiRoute.

Local Open Scope eff_scope.

(** An HTTP answer: status code and JSON body. *)
Definition response : Type := nat * ConversionResult.

Definition server_error : ConversionResult :=
  Failure "Failed to parse instruction"
          [ "Check your internet connection";
            "Verify your Gemini API key is configured correctly";
            "Try simplifying your instruction" ].

(** [instruction] is [req.body.instruction]: absent, or any JSON value.
    The inner [catch] reads [error.message] before it falls back, which
    throws when the value thrown is [null] or [undefined]; the outer
    [catch] then answers with status 500. *)
Definition parse (E : Eff.Engine) (model : option GeminiService.Model)
           (instruction : option json) : Eff.M trace response :=
  Eff.try_catch
    (match instruction with
     | Some (JStr text) =>
         if RuleParser.is_blank text
         then Eff.ret (400%nat, RuleParser.empty_instruction)
         else
           match model with
           | None =>
               fallbackResult <-
                 GeminiService.heuristic GeminiService.key_hint_server text ;;
               Eff.ret (200%nat, fallbackResult)
           | Some m =>
               Eff.try_catch
                 (let prompt := GeminiService.buildPrompt text in
                  answer <- GeminiService.generate m prompt ;;
                  parsedResult <- GeminiService.parseGeminiResponse E answer text ;;
                  Eff.ret (200%nat, parsedResult))
                 (fun error =>
                    (* the handler logs [error.message] first *)
                    if Eff.is_nullish error
                    then Eff.throw (Thrown ETypeError
                                           (Eff.null_read_message E "message"))
                    else
                      fallbackResult <-
                        GeminiService.heuristic GeminiService.key_hint_server
                                                text ;;
                      Eff.ret (200%nat, fallbackResult))
           end
     | Some v =>
         if JSON.truthy v
         then (* instruction.trim is not a function *)
           Eff.throw (Thrown ETypeError
                              (Eff.not_a_function_message E "instruction.trim"))
         else Eff.ret (400%nat, RuleParser.empty_instruction)
     | None => Eff.ret (400%nat, RuleParser.empty_instruction)
     end)
    (fun error => Eff.ret (500%nat, server_error)).

End GeminiRoute.

(* ===================================================================== *)
(** * Rule records *)
(* ===================================================================== *)

(** Modelled from the spec: the declarations of [ParsedRule] and [AuditRule]
    ([types/audit.ts]) are not part of the sources at hand.  The fields are
    those of the spec's data model, which are also the ones [saveRule]
    reads and writes; [conditions] is kept as the JavaScript value itself,
    since the store only serialises and compares it. *)
Module ParsedRule.
Record t := {
  rule_type : string;
  conditions : json;
  action : string;
  reason : string;
  confidence_score : number
}.

(** The enumerations of the spec's data model. *)
Definition rule_types : list string :=
  [ "expense_amount_threshold"; "vendor_frequency";
    "category_amount_threshold"; "duplicate_detection"; "time_based";
    "compliance_check" ].
Definition actions : list string := ["flag"; "review"; "reject"; "approve"].

(** Every value held by the record is a JavaScript value. *)
Definition representable (p : t) : Prop :=
  JSON.wf (conditions p) = true
  /\ Number.canonical (confidence_score p) = true.

(** A [ParsedRule] of the data model: [rule_type] and [action] belong to
    their enumerations and [conditions] is a sequence. *)
Definition well_formed (p : t) : Prop :=
  In (rule_type p) rule_types /\ In (action p) actions
  /\ JSON.is_array (conditions p) = true
  /\ representable p.
End ParsedRule.

Module AuditRule.
Record t := {
  id : string;
  version : number;
  rule_type : string;
  conditions : json;
  action : string;
  reason : string;
  original_instruction : string;
  created_at : string;
  created_by : string;
  is_active : bool;
  confidence_score : number
}.

Definition set_active (b : bool) (r : t) : t :=
  {| id := id r; version := version r; rule_type := rule_type r;
     conditions := conditions r; action := action r; reason := reason r;
     original_instruction := original_instruction r;
     created_at := created_at r; created_by := created_by r;
     is_active := b; confidence_score := confidence_score r |}.

(** The object as [saveRule] lays it out. *)
Definition encode (r : t) : json :=
  JObj [ ("id", JStr (id r));
         ("version", JNum (version r));
         ("rule_type", JStr (rule_type r));
         ("conditions", conditions r);
         ("action", JStr (action r));
         ("reason", JStr (reason r));
         ("original_instruction", JStr (original_instruction r));
         ("created_at", JStr (created_at r));
         ("created_by", JStr (created_by r));
         ("is_active", JBool (is_active r));
         ("confidence_score", JNum (confidence_score r)) ].

Definition str_field (k : string) (v : json) : option string :=
  match JSON.get k v with Some (JStr s) => Some s | _ => None end.
Definition num_field (k : string) (v : json) : option number :=
  match JSON.get k v with Some (JNum n) => Some n | _ => None end.
Definition bool_field (k : string) (v : json) : option bool :=
  match JSON.get k v with Some (JBool b) => Some b | _ => None end.

(** The typed view of a stored object ([as AuditRule]): every field is
    present with the type of its declaration.  The view forgets the order
    of the properties and any property that is not a field. *)
Definition decode (v : json) : option t :=
  match str_field "id" v, num_field "version" v, str_field "rule_type" v,
        JSON.get "conditions" v, str_field "action" v, str_field "reason" v
  with
  | Some i, Some n, Some ty, Some c, Some a, Some why =>
      match str_field "original_instruction" v, str_field "created_at" v,
            str_field "created_by" v, bool_field "is_active" v,
            num_field "confidence_score" v
      with
      | Some instr, Some at_, Some by_, Some act, Some score =>
          Some {| id := i; version := n; rule_type := ty; conditions := c;
                  action := a; reason := why; original_instruction := instr;
                  created_at := at_; created_by := by_; is_active := act;
                  confidence_score := score |}
      | _, _, _, _, _ => None
      end
  | _, _, _, _, _, _ => None
  end.

Fixpoint decode_all (l : list json) : option (list t) :=
  match l with
  | [] => Some []
  | v :: l' =>
      match decode v, decode_all l' with
      | Some r, Some rs => Some (r :: rs)
      | _, _ => None
      end
  end.

Definition encode_all (rs : list t) : json := JArr (map encode rs).

(** The lineage signature: [(rule_type, conditions)]. *)
Definition same_lineage (a b : t) : Prop :=
  rule_type a = rule_type b /\ conditions a = conditions b.

(** Every value held by the record is a JavaScript value. *)
Definition well_formed (r : t) : Prop :=
  Number.canonical (version r) = true
  /\ JSON.wf (conditions r) = true
  /\ Number.canonical (confidence_score r) = true.
End AuditRule.

(* ===================================================================== *)
(** * Arrays *)
(* ===================================================================== *)

Module JSArray.

(** [Array.prototype.sort(comparefn)].  The sort is stable (ECMA-262, 2019),
    so that for a comparator that is a consistent ordering its result is
    the one of a stable insertion sort.  [comparefn a b] is the sign of the
    number the callback returns: an element stays in front of the elements
    it does not compare greater than. *)
Fixpoint insert {A} (comparefn : A -> A -> Z) (x : A) (l : list A) : list A :=
  match l with
  | [] => [x]
  | y :: l' =>
      if comparefn x y <=? 0 then x :: l else y :: insert comparefn x l'
  end.

Fixpoint sort {A} (comparefn : A -> A -> Z) (l : list A) : list A :=
  match l with
  | [] => []
  | x :: l' => insert comparefn x (sort comparefn l')
  end.

End JSArray.

(* ===================================================================== *)
(** * The rule store *)
(* ===================================================================== *)

Module RuleStorage.

Local Open Scope eff_scope.

(** [localStorage]: a map from keys to strings. *)
Abbreviation Storage := (gmap string string).

Definition STORAGE_KEY : string := "numina_audit_rules".
Definition VERSION_KEY : string := "numina_rule_versions".

Definition getItem (key : string) : Eff.M Storage (option string) :=
  fun ls => (Ok (ls !! key), ls).
Definition setItem (key value : string) : Eff.M Storage unit :=
  fun ls => (Ok tt, <[key := value]> ls).
Definition removeItem (key : string) : Eff.M Storage unit :=
  fun ls => (Ok tt, delete key ls).

(** [stored ? JSON.parse(stored) : []] *)
Definition parse_or_empty (E : Eff.Engine) (stored : option string)
  : Eff.M Storage json :=
  match stored with
  | Some text =>
      if String.eqb text "" then Eff.ret (JArr [])
      else GeminiService.JSON_parse E text
  | None => Eff.ret (JArr [])
  end.

(** The value [getAllRules] returns at run time. *)
Definition getAllRules_value (E : Eff.Engine) : Eff.M Storage json :=
  stored <- getItem STORAGE_KEY ;;
  parse_or_empty E stored.

(** The marker of a stored value that does not inhabit [AuditRule[]].  The
    type cast of [getAllRules] is unchecked; what the operations do to
    such a value is not modelled. *)
Definition outside_types : Eff.exn :=
  Thrown ENotAnError "stored rules are not of type AuditRule[]".

Definition as_rules (v : json) : Eff.M Storage (list AuditRule.t) :=
  match v with
  | JArr l =>
      match AuditRule.decode_all l with
      | Some rs => Eff.ret rs
      | None => Eff.throw outside_types
      end
  | _ => Eff.throw outside_types
  end.

Definition getAllRules (E : Eff.Engine) : Eff.M Storage (list AuditRule.t) :=
  v <- getAllRules_value E ;;
  as_rules v.

Definition write_rules (rules : list AuditRule.t) : Eff.M Storage unit :=
  setItem STORAGE_KEY (JSON.stringify (AuditRule.encode_all rules)).

Definition getVersionHistory (E : Eff.Engine) : Eff.M Storage json :=
  stored <- getItem VERSION_KEY ;;
  parse_or_empty E stored.

Definition history_entry (rule : AuditRule.t) : json :=
  JObj [ ("rule_id", JStr (AuditRule.id rule));
         ("rule_type", JStr (AuditRule.rule_type rule));
         ("version", JNum (AuditRule.version rule));
         ("timestamp", JStr (AuditRule.created_at rule));
         ("created_by", JStr (AuditRule.created_by rule));
         ("action", JStr "created") ].

Definition saveVersionHistory (E : Eff.Engine) (rule : AuditRule.t)
  : Eff.M Storage unit :=
  versionHistory <- getVersionHistory E ;;
  match versionHistory with
  | JArr entries =>
      setItem VERSION_KEY (JSON.stringify (JArr (entries ++ [history_entry rule])))
  | JNull =>
      Eff.throw (Thrown ETypeError (Eff.null_read_message E "push"))
  | _ =>
      Eff.throw (Thrown ETypeError
                        (Eff.not_a_function_message E "versionHistory.push"))
  end.

(** The lineage test of [saveRule]: same [rule_type], active, and the same
    serialised [conditions]. *)
Definition matches (parsedRule : ParsedRule.t) (rule : AuditRule.t) : bool :=
  String.eqb (AuditRule.rule_type rule) (ParsedRule.rule_type parsedRule)
  && AuditRule.is_active rule
  && String.eqb (JSON.stringify (AuditRule.conditions rule))
                (JSON.stringify (ParsedRule.conditions parsedRule)).

(** The rule [saveRule] creates: a new version of [existingRule] when the
    lineage has an active rule, version 1 otherwise.  The spread copies
    every property of [existingRule], [is_active] included, before the
    old version is deactivated. *)
Definition new_rule (parsedRule : ParsedRule.t)
           (originalInstruction createdBy uuid now : string)
           (existingRule : option AuditRule.t) : AuditRule.t :=
  match existingRule with
  | Some existingRule =>
      {| AuditRule.id := uuid;
         AuditRule.version :=
           Number.add (AuditRule.version existingRule) (Num 1 0);
         AuditRule.rule_type := AuditRule.rule_type existingRule;
         AuditRule.conditions := AuditRule.conditions existingRule;
         AuditRule.action := AuditRule.action existingRule;
         AuditRule.reason := AuditRule.reason existingRule;
         AuditRule.original_instruction := originalInstruction;
         AuditRule.created_at := now;
         AuditRule.created_by := createdBy;
         AuditRule.is_active := AuditRule.is_active existingRule;
         AuditRule.confidence_score := ParsedRule.confidence_score parsedRule |}
  | None =>
      {| AuditRule.id := uuid;
         AuditRule.version := Num 1 0;
         AuditRule.rule_type := ParsedRule.rule_type parsedRule;
         AuditRule.conditions := ParsedRule.conditions parsedRule;
         AuditRule.action := ParsedRule.action parsedRule;
         AuditRule.reason := ParsedRule.reason parsedRule;
         AuditRule.original_instruction := originalInstruction;
         AuditRule.created_at := now;
         AuditRule.created_by := createdBy;
         AuditRule.is_active := true;
         AuditRule.confidence_score := ParsedRule.confidence_score parsedRule |}
  end.

(** The array [saveRule] writes back.  [existingRule.is_active = false]
    acts on the object held by the array; the [map] then puts that object
    wherever its [id] occurs. *)
Definition updated_rules (existingRules : list AuditRule.t)
           (existingRule : option AuditRule.t) (newRule : AuditRule.t)
  : list AuditRule.t :=
  match existingRule with
  | Some existingRule =>
      let existingRule' := AuditRule.set_active false existingRule in
      map (fun rule =>
             if String.eqb (AuditRule.id rule) (AuditRule.id existingRule)
             then existingRule' else rule)
          existingRules
        ++ [newRule]
  | None => existingRules ++ [newRule]
  end.

(** [saveRule].  [uuid] is the value of [uuidv4()] and [now] that of
    [new Date().toISOString()] at this call; [createdBy] defaults to
    ['system']. *)
Definition saveRule (E : Eff.Engine) (parsedRule : ParsedRule.t)
           (originalInstruction : string) (createdBy : option string)
           (uuid now : string) : Eff.M Storage AuditRule.t :=
  let createdBy := default "system" createdBy in
  existingRules <- getAllRules E ;;
  let existingRule := find (matches parsedRule) existingRules in
  let newRule :=
    new_rule parsedRule originalInstruction createdBy uuid now existingRule in
  let updatedRules := updated_rules existingRules existingRule newRule in
  write_rules updatedRules ;;;
  saveVersionHistory E newRule ;;;
  Eff.ret newRule.

Definition getActiveRules (E : Eff.Engine) : Eff.M Storage (list AuditRule.t) :=
  rules <- getAllRules E ;;
  Eff.ret (List.filter (fun rule => AuditRule.is_active rule) rules).

Definition getRuleById (E : Eff.Engine) (id : string)
  : Eff.M Storage (option AuditRule.t) :=
  rules <- getAllRules E ;;
  Eff.ret (find (fun rule => String.eqb (AuditRule.id rule) id) rules).

(** [rules.findIndex(p)]; [None] is -1. *)
Fixpoint findIndex {A} (p : A -> bool) (l : list A) : option nat :=
  match l with
  | [] => None
  | x :: l' => if p x then Some 0%nat else option_map S (findIndex p l')
  end.

(** [rules[i].is_active = b] *)
Definition set_active_at (i : nat) (b : bool) (rules : list AuditRule.t)
  : list AuditRule.t :=
  match rules !! i with
  | Some rule => <[i := AuditRule.set_active b rule]> rules
  | None => rules
  end.

Definition deactivateRule (E : Eff.Engine) (id : string) : Eff.M Storage bool :=
  rules <- getAllRules E ;;
  match findIndex (fun rule => String.eqb (AuditRule.id rule) id) rules with
  | None => Eff.ret false
  | Some ruleIndex =>
      write_rules (set_active_at ruleIndex false rules) ;;;
      Eff.ret true
  end.

(** The target test of [rollbackToVersion]. *)
Definition is_target (ruleType : string) (version : number)
           (rule : AuditRule.t) : bool :=
  String.eqb (AuditRule.rule_type rule) ruleType
  && Number.eqb (AuditRule.version rule) version.

(** The [forEach] of [rollbackToVersion]. *)
Definition deactivate_type (ruleType : string) (rules : list AuditRule.t)
  : list AuditRule.t :=
  map (fun rule =>
         if String.eqb (AuditRule.rule_type rule) ruleType
            && AuditRule.is_active rule
         then AuditRule.set_active false rule else rule)
      rules.

(** [rollbackToVersion]; [None] is [null].  [targetRule] is the object held
    by the array at the first index that passes the test, so the writes
    to it are writes to the array. *)
Definition rollbackToVersion (E : Eff.Engine) (ruleType : string)
           (version : number) : Eff.M Storage (option AuditRule.t) :=
  rules <- getAllRules E ;;
  match findIndex (is_target ruleType version) rules with
  | None => Eff.ret None
  | Some target =>
      let rules := deactivate_type ruleType rules in
      let rules := set_active_at target true rules in
      write_rules rules ;;;
      Eff.ret (rules !! target)
  end.

Definition deleteRule (E : Eff.Engine) (id : string) : Eff.M Storage bool :=
  rules <- getAllRules E ;;
  let filteredRules :=
    List.filter (fun rule => negb (String.eqb (AuditRule.id rule) id)) rules in
  if (length filteredRules =? length rules)%nat then Eff.ret false
  else write_rules filteredRules ;;; Eff.ret true.

Definition exportRules (E : Eff.Engine) : Eff.M Storage string :=
  rules <- getAllRules_value E ;;
  Eff.ret (JSON.stringify_indent 2 rules).

(** [rule.id && rule.rule_type && rule.conditions && rule.action &&
    rule.version !== undefined] *)
Definition importable (E : Eff.Engine) (rule : json) : Eff.outcome bool :=
  match rule with
  | JNull => Throw (Thrown ETypeError (Eff.null_read_message E "id"))
  | _ =>
      Ok (JSON.truthy_opt (JSON.get "id" rule)
          && JSON.truthy_opt (JSON.get "rule_type" rule)
          && JSON.truthy_opt (JSON.get "conditions" rule)
          && JSON.truthy_opt (JSON.get "action" rule)
          && bool_decide (is_Some (JSON.get "version" rule)))
  end.

Definition importRules (E : Eff.Engine) (rulesJson : string)
  : Eff.M Storage bool :=
  Eff.try_catch
    (rules <- GeminiService.JSON_parse E rulesJson ;;
     match rules with
     | JArr elements =>
         isValid <- Eff.lift (GeminiService.every (importable E) elements) ;;
         if negb isValid then Eff.ret false
         else
           setItem STORAGE_KEY rulesJson ;;;
           Eff.ret true
     | _ => Eff.ret false
     end)
    (fun _ => Eff.ret false).

Definition clearAllRules : Eff.M Storage unit :=
  removeItem STORAGE_KEY ;;;
  removeItem VERSION_KEY.

(** The comparator of [getRuleVersions]: [b.version - a.version]. *)
Definition by_version_descending (a b : AuditRule.t) : Z :=
  Number.sgn (Number.sub (AuditRule.version b) (AuditRule.version a)).

Definition getRuleVersions (E : Eff.Engine) (ruleType : string)
  : Eff.M Storage (list AuditRule.t) :=
  rules <- getAllRules E ;;
  Eff.ret (JSArray.sort by_version_descending
             (List.filter
                (fun rule => String.eqb (AuditRule.rule_type rule) ruleType)
                rules)).

(** The result of [getRuleStats]; [byType] and [byAction] are objects used
    as maps from names to counts. *)
Record RuleStats := {
  total : number;
  active : number;
  byType : gmap string number;
  byAction : gmap string number
}.

(** The property names an object literal inherits from [Object.prototype].
    Reading a count under such a name does not yield a number; statistics
    over rules that carry one of these names are not modelled. *)
Definition inherited : list string :=
  [ "constructor"; "hasOwnProperty"; "isPrototypeOf"; "propertyIsEnumerable";
    "toLocaleString"; "toString"; "valueOf"; "__proto__";
    "__defineGetter__"; "__defineSetter__"; "__lookupGetter__";
    "__lookupSetter__" ].

Definition is_inherited (name : string) : bool :=
  existsb (String.eqb name) inherited.

(** [counts[key] = (counts[key] || 0) + 1] *)
Definition count_up (key : string) (counts : gmap string number)
  : gmap string number :=
  let current :=
    match counts !! key with
    | Some n => if Number.is_zero n then Num 0 0 else n
    | None => Num 0 0
    end in
  <[key := Number.add current (Num 1 0)]> counts.

Definition getRuleStats (E : Eff.Engine) : Eff.M Storage RuleStats :=
  rules <- getAllRules E ;;
  let activeRules := List.filter (fun rule => AuditRule.is_active rule) rules in
  if existsb (fun rule => is_inherited (AuditRule.rule_type rule)
                          || is_inherited (AuditRule.action rule))
             activeRules
  then Eff.throw outside_types
  else
    let '(byType, byAction) :=
      fold_left
        (fun '(byType, byAction) rule =>
           (count_up (AuditRule.rule_type rule) byType,
            count_up (AuditRule.action rule) byAction))
        activeRules (∅, ∅) in
    Eff.ret {| total := Number.of_Z (Z.of_nat (length rules));
               active := Number.of_Z (Z.of_nat (length activeRules));
               byType := byType;
               byAction := byAction |}.

(** The number of elements of [l] filed under [name]. *)
Definition filed {A} (key : A -> string) (name : string) (l : list A) : nat :=
  length (List.filter (fun x => String.eqb (key x) name) l).

(** [counts] records [n name] for every name, and has no entry for a name
    that was not counted. *)
Definition records (counts : gmap string number) (n : string -> nat) : Prop :=
  forall name,
    counts !! name
    = match n name with
      | 0%nat => None
      | S _ => Some (Number.of_Z (Z.of_nat (n name)))
      end.

(** ** Histories of store operations *)

Inductive op :=
| Save (parsedRule : ParsedRule.t) (originalInstruction : string)
       (createdBy : option string) (uuid now : string)
| Rollback (ruleType : string) (version : number)
| Deactivate (id : string).

Definition step (E : Eff.Engine) (o : op) (ls : Storage) : Storage :=
  match o with
  | Save p instr by_ uuid now => snd (saveRule E p instr by_ uuid now ls)
  | Rollback ty v => snd (rollbackToVersion E ty v ls)
  | Deactivate i => snd (deactivateRule E i ls)
  end.

Definition run (E : Eff.Engine) (ops : list op) (ls : Storage) : Storage :=
  fold_left (fun ls o => step E o ls) ops ls.

Definition is_save (o : op) : bool :=
  match o with Save _ _ _ _ _ => true | _ => false end.

(** The identifiers drawn by the saves of a history. *)
Definition uuids (ops : list op) : list string :=
  flat_map (fun o => match o with Save _ _ _ u _ => [u] | _ => [] end) ops.

(** The rules a history saves are JavaScript values. *)
Definition representable_op (o : op) : Prop :=
  match o with
  | Save p _ _ _ _ => ParsedRule.representable p
  | _ => True
  end.

(** A save of a rule that has what [importRules] asks of a stored rule: a
    [rule_type] and an [action] that are not empty, and [conditions] that
    are a sequence. *)
Definition importable_op (o : op) : Prop :=
  match o with
  | Save p _ _ _ _ =>
      ParsedRule.rule_type p <> "" /\ ParsedRule.action p <> ""
      /\ JSON.is_array (ParsedRule.conditions p) = true
      /\ ParsedRule.representable p
  | _ => True
  end.

(** The typed contents of the store after an operation, given the contents
    before it. *)
Definition next_rules (o : op) (rules : list AuditRule.t) : list AuditRule.t :=
  match o with
  | Save p instr by_ uuid now =>
      let existingRule := find (matches p) rules in
      updated_rules rules existingRule
        (new_rule p instr (default "system" by_) uuid now existingRule)
  | Rollback ty v =>
      match findIndex (is_target ty v) rules with
      | Some target => set_active_at target true (deactivate_type ty rules)
      | None => rules
      end
  | Deactivate i =>
      match findIndex (fun rule => String.eqb (AuditRule.id rule) i) rules with
      | Some ruleIndex => set_active_at ruleIndex false rules
      | None => rules
      end
  end.

Definition contents (ops : list op) : list AuditRule.t :=
  fold_left (fun rules o => next_rules o rules) ops [].

(** ** Store states *)

(** The typed contents of the store: what [getAllRules] returns. *)
Definition holds (E : Eff.Engine) (ls : Storage) (rules : list AuditRule.t)
  : Prop :=
  fst (getAllRules E ls) = Ok rules.

(** The store holds exactly the objects [saveRule] lays out for [rules]. *)
Definition stores (E : Eff.Engine) (ls : Storage) (rules : list AuditRule.t)
  : Prop :=
  fst (getAllRules_value E ls) = Ok (AuditRule.encode_all rules)
  /\ Forall AuditRule.well_formed rules.

(** The version-history log is a sequence. *)
Definition history_ok (E : Eff.Engine) (ls : Storage) : Prop :=
  exists entries, fst (getVersionHistory E ls) = Ok (JArr entries).

(** A rule whose fields pass the test of [importRules]. *)
Definition exportable (r : AuditRule.t) : Prop :=
  AuditRule.id r <> "" /\ AuditRule.rule_type r <> ""
  /\ AuditRule.action r <> "" /\ JSON.truthy (AuditRule.conditions r) = true.

(** The state of the lineages in a store that only saves have touched:
    identifiers are distinct, a lineage has one active rule, and that rule
    carries the highest version of its lineage. *)
Definition lineages_ordered (rules : list AuditRule.t) : Prop :=
  List.NoDup (map AuditRule.id rules)
  /\ (forall a b,
        In a rules -> In b rules ->
        AuditRule.is_active a = true -> AuditRule.is_active b = true ->
        AuditRule.same_lineage a b -> a = b)
  /\ (forall r,
        In r rules ->
        exists a k kr,
          In a rules /\ AuditRule.is_active a = true
          /\ AuditRule.same_lineage a r
          /\ AuditRule.version a = Number.of_Z k
          /\ AuditRule.version r = Number.of_Z kr /\ 1 <= kr <= k)
  /\ Forall AuditRule.well_formed rules.

(** No signature [(rule_type, conditions)] has two active rules: two
    positions of the array that hold active rules of one signature are the
    same position. *)
Definition one_active_per_signature (rules : list AuditRule.t) : Prop :=
  forall i j a b,
    rules !! i = Some a -> rules !! j = Some b ->
    AuditRule.is_active a = true -> AuditRule.is_active b = true ->
    AuditRule.same_lineage a b -> i = j.

(** An element of an import payload that lacks a truthy [id], [rule_type],
    [conditions] or [action], or lacks [version]. *)
Definition lacking (element : json) : Prop :=
  JSON.truthy_opt (JSON.get "id" element) = false
  \/ JSON.truthy_opt (JSON.get "rule_type" element) = false
  \/ JSON.truthy_opt (JSON.get "conditions" element) = false
  \/ JSON.truthy_opt (JSON.get "action" element) = false
  \/ JSON.get "version" element = None.

End RuleStorage.

(* ===================================================================== *)
(** * What the specification describes, where it differs from the sources *)
(* ===================================================================== *)

Module Spec.

(** The text up to and including the brace that closes an object opened
    at nesting depth [depth]; [s] follows the opening brace. *)
Fixpoint balanced_rest (depth : nat) (s : JS.str) : option JS.str :=
  match s with
  | [] => None
  | c :: s' =>
      if JSON.is_char "{"%char c
      then option_map (cons c) (balanced_rest (S depth) s')
      else if JSON.is_char "}"%char c
           then match depth with
                | 0%nat => Some [c]
                | S d => option_map (cons c) (balanced_rest d s')
                end
           else option_map (cons c) (balanced_rest depth s')
  end.

(** "The first balanced top-level [{...}] substring", found by
    balanced-brace scanning. *)
Fixpoint first_balanced (s : JS.str) : option JS.str :=
  match s with
  | [] => None
  | c :: s' =>
      if JSON.is_char "{"%char c
      then match balanced_rest 0 s' with
           | Some m => Some (c :: m)
           | None => first_balanced s'
           end
      else first_balanced s'
  end.

(** "Non-empty", read literally: a field is empty when it is absent, [null],
    or an empty string, sequence or object. *)
Definition empty_field (o : option json) : bool :=
  match o with
  | None | Some JNull | Some (JStr "") | Some (JArr []) | Some (JObj []) => true
  | Some _ => false
  end.

End Spec.

(* ===================================================================== *)
(** * First-order readings of the response pattern *)
(* ===================================================================== *)

Module Braces.

(** Try a continuation on the suffixes of [s], shortest suffix first:
    what a greedy [[\s\S]*] does to the rest of its pattern. *)
Fixpoint greedy_any {R} (k : JS.str -> option R) (s : JS.str) : option R :=
  match s with
  | [] => k []
  | c :: s' =>
      match greedy_any k s' with
      | Some x => Some x
      | None => k (c :: s')
      end
  end.

(** The text after the last closing brace of [s]. *)
Fixpoint after_last_close (s : JS.str) : option JS.str :=
  match s with
  | [] => None
  | c :: s' =>
      match after_last_close s' with
      | Some r => Some r
      | None => if JSON.is_char "}"%char c then Some s' else None
      end
  end.

(** From the first opening brace through the last closing brace. *)
Fixpoint first_to_last (s : JS.str) : option JS.str :=
  match s with
  | [] => None
  | c :: s' =>
      if JSON.is_char "{"%char c
      then match after_last_close s' with
           | Some r => Some (firstn (length s - length r) s)
           | None => first_to_last s'
           end
      else first_to_last s'
  end.

End Braces.

(* ===================================================================== *)
(** * Sample values *)
(* ===================================================================== *)

Module Samples.

Definition engine : Eff.Engine :=
  {| Eff.syntax_error_message := fun _ => "Unexpected token in JSON";
     Eff.null_read_message :=
       fun prop => "Cannot read properties of null (reading '" +:+ prop +:+ "')";
     Eff.not_a_function_message := fun f => f +:+ " is not a function" |}.

Definition unavailable : GeminiService.t :=
  {| GeminiService.model := None; GeminiService.apiKeyPresent := false |}.

(** A capability that always answers with [text]. *)
Definition answering (text : string) : GeminiService.Model :=
  {| GeminiService.generateContent := fun _ => Ok text |}.

Definition available (text : string) : GeminiService.t :=
  {| GeminiService.model := Some (answering text);
     GeminiService.apiKeyPresent := true |}.

Definition threshold_instruction : string := "Flag any expense above $1,000".
Definition amount_instruction : string := "Flag any expense amount above $1,000".

(** A balanced object followed by commentary that contains braces. *)
Definition object_text : string :=
  "{" +:+ GeminiService.quoted "a" +:+ ":1}".
Definition chatty_response : string := object_text +:+ " as in {b}".

(** Two conditions and the rules built on them. *)
Definition after_ten : json :=
  JArr [JObj [("field", JStr "time"); ("operator", JStr "gt");
              ("value", JStr "22:00")]].
Definition before_six : json :=
  JArr [JObj [("field", JStr "time"); ("operator", JStr "lt");
              ("value", JStr "06:00")]].

Definition rule (id : string) (version : Z) (conditions : json) (active : bool)
  : AuditRule.t :=
  {| AuditRule.id := id;
     AuditRule.version := Number.of_Z version;
     AuditRule.rule_type := "time_based";
     AuditRule.conditions := conditions;
     AuditRule.action := "review";
     AuditRule.reason := "Review based on time based";
     AuditRule.original_instruction := "Review any expense after 10 PM";
     AuditRule.created_at := "2024-05-01T10:00:00.000Z";
     AuditRule.created_by := "system";
     AuditRule.is_active := active;
     AuditRule.confidence_score := Num 6 1 |}.

Definition parsed (conditions : json) : ParsedRule.t :=
  {| ParsedRule.rule_type := "time_based";
     ParsedRule.conditions := conditions;
     ParsedRule.action := "review";
     ParsedRule.reason := "Review based on time based";
     ParsedRule.confidence_score := Num 6 1 |}.

(** A store that holds [rules] and an empty history log. *)
Definition store_of (rules : list AuditRule.t) : RuleStorage.Storage :=
  {[ RuleStorage.STORAGE_KEY := JSON.stringify (AuditRule.encode_all rules) ]}.

(** Two lineages of one rule type, both active. *)
Definition two_lineages : list AuditRule.t :=
  [rule "a1" 1 after_ten true; rule "b1" 2 before_six true].


(** A save of the rule with conditions [after_ten]. *)
Definition save (uuid : string) : RuleStorage.op :=
  RuleStorage.Save (parsed after_ten) "Review any expense after 10 PM" None
                   uuid "2024-05-01T10:00:00.000Z".

(** A rule with an empty action, as the response validation lets it
    through, and a save of it. *)
Definition blank_action : ParsedRule.t :=
  {| ParsedRule.rule_type := "time_based";
     ParsedRule.conditions := after_ten;
     ParsedRule.action := "";
     ParsedRule.reason := "Review late expenses";
     ParsedRule.confidence_score := Num 9 1 |}.

Definition blank_action_answer : json :=
  JObj [ ("rule_type", JStr "time_based");
         ("conditions", after_ten);
         ("action", JStr "");
         ("reason", JStr "Review late expenses");
         ("confidence_score", JNum (Num 9 1)) ].

Definition save_blank_action : RuleStorage.op :=
  RuleStorage.Save blank_action "Review any expense after 10 PM" None
                   "id1" "2024-05-01T10:00:00.000Z".

(** An answer of the model that is the text of a valid rule. *)
Definition valid_answer : string :=
  JSON.stringify
    (JObj [ ("rule_type", JStr "time_based");
            ("conditions", after_ten);
            ("action", JStr "review");
            ("reason", JStr "Review late expenses");
            ("confidence_score", JNum (Num 9 1)) ]).

(** Save, then deactivate what was saved. *)
Definition saved_and_deactivated : list RuleStorage.op :=
  [save "id1"; RuleStorage.Deactivate "id1"].

(** Three saves of one lineage, then a rollback to its first version. *)
Definition saved_and_rolled_back : list RuleStorage.op :=
  [save "id1"; save "id2"; save "id3";
   RuleStorage.Rollback "time_based" (Num 1 0)].

(** An import payload whose only element has an empty [conditions]
    sequence, and one whose second element has no [action]. *)
Definition member (k : string) (v : string) : string :=
  GeminiService.quoted k +:+ ":" +:+ v.

Definition empty_conditions_payload : string :=
  "[{" +:+ member "id" (GeminiService.quoted "r1") +:+ ","
    +:+ member "rule_type" (GeminiService.quoted "time_based") +:+ ","
    +:+ member "conditions" "[]" +:+ ","
    +:+ member "action" (GeminiService.quoted "flag") +:+ ","
    +:+ member "version" "1" +:+ "}]".

Definition missing_action_payload : string :=
  "[{" +:+ member "id" (GeminiService.quoted "r1") +:+ ","
    +:+ member "rule_type" (GeminiService.quoted "time_based") +:+ ","
    +:+ member "conditions" "[]" +:+ ","
    +:+ member "action" (GeminiService.quoted "flag") +:+ ","
    +:+ member "version" "1" +:+ "},{"
    +:+ member "id" (GeminiService.quoted "r2") +:+ ","
    +:+ member "rule_type" (GeminiService.quoted "time_based") +:+ ","
    +:+ member "conditions" "[]" +:+ ","
    +:+ member "version" "2" +:+ "}]".

End Samples.

(* ===================================================================== *)
(** * Properties *)
(* ===================================================================== *)

(** ** Strings *)

Module JSFacts.

Lemma ascii_eqb_eq (a b : ascii) : JS.ascii_eqb a b = true <-> a = b.
Proof.
  unfold JS.ascii_eqb, JS.code. rewrite N.eqb_eq. split.
  - intros H. rewrite <- (ascii_N_embedding a), <- (ascii_N_embedding b).
    now rewrite H.
  - now intros ->.
Qed.

Lemma ascii_eqb_refl (a : ascii) : JS.ascii_eqb a a = true.
Proof. now apply ascii_eqb_eq. Qed.

Lemma ascii_eqb_neq (a b : ascii) : JS.ascii_eqb a b = false <-> a <> b.
Proof.
  rewrite <- ascii_eqb_eq. destruct (JS.ascii_eqb a b); split; congruence.
Qed.

Lemma text_chars (s : string) : JS.text (JS.chars s) = s.
Proof. apply string_of_list_ascii_of_string. Qed.

Lemma chars_text (l : JS.str) : JS.chars (JS.text l) = l.
Proof. apply list_ascii_of_string_of_list_ascii. Qed.

Lemma trimStart_spaces (s : JS.str) :
  Forall (fun c => JS.is_space c = true) s -> JS.trimStart s = [].
Proof.
  induction 1 as [|c s Hc _ IH]; simpl; [reflexivity|]. now rewrite Hc.
Qed.

Lemma trimStart_nil_inv (s : JS.str) :
  JS.trimStart s = [] -> Forall (fun c => JS.is_space c = true) s.
Proof.
  induction s as [|c s IH]; simpl; [constructor|].
  destruct (JS.is_space c) eqn:Hc; [|discriminate].
  intros H. constructor; auto.
Qed.

Lemma trimStart_suffix (s : JS.str) :
  exists pre, s = pre ++ JS.trimStart s
              /\ Forall (fun c => JS.is_space c = true) pre.
Proof.
  induction s as [|c s [pre [IH1 IH2]]]; simpl.
  - exists []. split; [reflexivity|constructor].
  - destruct (JS.is_space c) eqn:Hc.
    + exists (c :: pre). split; [simpl; congruence|now constructor].
    + exists []. split; [reflexivity|constructor].
Qed.

(** [trim] yields the empty string exactly on whitespace-only input. *)
Lemma trim_nil_iff (s : JS.str) :
  JS.trim s = [] <-> Forall (fun c => JS.is_space c = true) s.
Proof.
  unfold JS.trim, JS.trimEnd. split.
  - intros H.
    assert (H1 : JS.trimStart (rev (JS.trimStart s)) = []).
    { apply (f_equal (@rev ascii)) in H. rewrite rev_involutive in H.
      exact H. }
    apply trimStart_nil_inv in H1.
    assert (H2 : Forall (fun c => JS.is_space c = true) (JS.trimStart s)).
    { apply Forall_rev in H1. now rewrite rev_involutive in H1. }
    destruct (trimStart_suffix s) as [pre [Hs Hpre]].
    rewrite Hs. apply Forall_app. split; assumption.
  - intros H. now rewrite (trimStart_spaces _ H).
Qed.

Lemma is_blank_iff (instruction : string) :
  RuleParser.is_blank instruction = true
  <-> Forall (fun c => JS.is_space c = true) (JS.chars instruction).
Proof.
  unfold RuleParser.is_blank. rewrite <- trim_nil_iff.
  destruct (JS.trim (JS.chars instruction)); split; congruence.
Qed.

End JSFacts.

(** ** Empty instructions *)

(** C7.  An instruction that is empty or consists of whitespace only is
    answered at once with [success: false], the error "Instruction cannot be
    empty" and the suggestion "Please provide a clear audit instruction".
    The trace is unchanged: neither the adapter nor the heuristic extractor
    nor the generation capability is called.  This holds for the in-process
    parser, the HTTP-mediated parser and the server route (which answers
    with status 400). *)
Theorem blank_instruction_rejected
        (E : Eff.Engine) (svc : GeminiService.t)
        (apiClient : string -> Eff.outcome ConversionResult)
        (model : option GeminiService.Model)
        (instruction : string) (t : trace) :
  Forall (fun c => JS.is_space c = true) (JS.chars instruction) ->
  let rejected :=
    Failure "Instruction cannot be empty"
            ["Please provide a clear audit instruction"] in
  RuleParser.parseInstruction E svc instruction t = (Ok rejected, t)
  /\ RuleParser.parseInstruction_remote apiClient instruction t = (Ok rejected, t)
  /\ GeminiRoute.parse E model (Some (JStr instruction)) t
     = (Ok (400%nat, rejected), t).
Proof.
  intros H rejected. apply JSFacts.is_blank_iff in H.
  unfold RuleParser.parseInstruction, RuleParser.parseInstruction_remote,
    GeminiRoute.parse, Eff.try_catch.
  rewrite H. repeat split; reflexivity.
Qed.

Lemma blank_instruction_rejected_witness :
  RuleParser.parseInstruction Samples.engine (Samples.available "{}") "   " []
  = (Ok (Failure "Instruction cannot be empty"
                 ["Please provide a clear audit instruction"]), []).
Proof.
  apply (blank_instruction_rejected Samples.engine (Samples.available "{}")
           (fun _ => Ok (Failure "" [])) None "   " []).
  repeat constructor.
Defined.


(** ** The response pattern *)

Module RegexFacts.

Import Regex Braces.

Lemma star_any_char {R} (ic : bool) (s : JS.str) (caps : list JS.str)
      (k : JS.str -> list JS.str -> option R) :
  rmatch ic (Star any_char) s caps k = greedy_any (fun s' => k s' caps) s.
Proof.
  cbn [rmatch any_char].
  generalize (Nat.le_refl (length s)).
  generalize (length s) at 2 3 as n.
  intros n. revert s.
  induction n as [|n IH]; intros s Hn.
  - destruct s; [reflexivity|simpl in Hn; lia].
  - destruct s as [|c s]; [reflexivity|].
    cbn [greedy_any]. simpl in Hn.
    assert (Hlt : (length s <? length (c :: s))%nat = true)
      by (apply Nat.ltb_lt; simpl; lia).
    rewrite Hlt. rewrite IH by lia. reflexivity.
Qed.

Lemma rmatch_Seq {R} (ic : bool) (r1 r2 : regex) (s : JS.str)
      (caps : list JS.str) (k : JS.str -> list JS.str -> option R) :
  rmatch ic (Seq r1 r2) s caps k
  = rmatch ic r1 s caps (fun s' caps' => rmatch ic r2 s' caps' k).
Proof. reflexivity. Qed.

Lemma rmatch_Chr_cons {R} (ic : bool) (c x : ascii) (s : JS.str)
      (caps : list JS.str) (k : JS.str -> list JS.str -> option R) :
  rmatch ic (Chr c) (x :: s) caps k
  = if char_matches ic c x then k s caps else None.
Proof. reflexivity. Qed.

Lemma after_last_close_some (s r : JS.str) :
  after_last_close s = Some r ->
  exists mid, s = mid ++ "}"%char :: r /\ ~ In "}"%char r.
Proof.
  revert r. induction s as [|c s IH]; intros r; simpl; [discriminate|].
  destruct (after_last_close s) as [r'|] eqn:Hs.
  - intros [= <-]. destruct (IH r' eq_refl) as [mid [-> Hn]].
    exists (c :: mid). split; [reflexivity|assumption].
  - destruct (JSON.is_char "}" c) eqn:Hc; [|discriminate].
    intros [= <-]. apply JSFacts.ascii_eqb_eq in Hc. subst c.
    exists []. split; [reflexivity|].
    clear IH. induction s as [|d s IHs]; simpl; [tauto|].
    simpl in Hs. destruct (after_last_close s); [discriminate|].
    destruct (JSON.is_char "}" d) eqn:Hd; [discriminate|].
    apply JSFacts.ascii_eqb_neq in Hd. intros [H|H]; [congruence|].
    now apply IHs.
Qed.

Lemma after_last_close_none (s : JS.str) :
  after_last_close s = None <-> ~ In "}"%char s.
Proof.
  induction s as [|c s IH]; simpl; [tauto|].
  destruct (after_last_close s) as [r|] eqn:Hs.
  - split; [discriminate|]. intros H. exfalso.
    destruct (after_last_close_some _ _ Hs) as [mid [-> _]].
    apply H. right. apply in_or_app. right. now left.
  - destruct (JSON.is_char "}" c) eqn:Hc.
    + apply JSFacts.ascii_eqb_eq in Hc. subst c. split; [discriminate|].
      intros H. exfalso. apply H. now left.
    + apply JSFacts.ascii_eqb_neq in Hc. split; [|reflexivity].
      intros _ [H|H]; [congruence|]. now apply IH.
Qed.

Lemma greedy_close {R} (g : JS.str -> R) (s : JS.str) :
  greedy_any
    (fun s' =>
       match s' with
       | x :: s'' =>
           if char_matches false "}" x then Some (g s'') else None
       | [] => None
       end) s
  = option_map g (after_last_close s).
Proof.
  induction s as [|c s IH]; [reflexivity|].
  cbn [greedy_any after_last_close]. rewrite IH.
  destruct (after_last_close s); [reflexivity|].
  unfold char_matches, JSON.is_char. simpl.
  replace (JS.ascii_eqb "}" c) with (JS.ascii_eqb c "}")
    by (unfold JS.ascii_eqb; apply N.eqb_sym).
  now destruct (JS.ascii_eqb c "}").
Qed.

(** The pattern /\{[\s\S]*\}/ at the front of the input. *)
Lemma match_here_re_json (s : JS.str) :
  match_here false GeminiService.re_json s
  = match s with
    | c :: s' =>
        if JSON.is_char "{" c
        then option_map
               (fun r => {| matched := firstn (length s - length r) s;
                            groups := [] |})
               (after_last_close s')
        else None
    | [] => None
    end.
Proof.
  unfold match_here, GeminiService.re_json.
  destruct s as [|c s]; [reflexivity|].
  rewrite rmatch_Seq, rmatch_Chr_cons. unfold char_matches, JSON.is_char.
  replace (JS.ascii_eqb "{" c) with (JS.ascii_eqb c "{")
    by (unfold JS.ascii_eqb; apply N.eqb_sym).
  destruct (JS.ascii_eqb c "{"); [|reflexivity].
  rewrite rmatch_Seq, star_any_char. cbn [rmatch].
  apply (greedy_close
           (fun r => {| matched := firstn (length (c :: s) - length r) (c :: s);
                        groups := [] |})).
Qed.

(** The search takes the text from the first opening brace through the
    last closing brace. *)
Lemma exec_re_json (s : JS.str) :
  exec false GeminiService.re_json s
  = option_map (fun m => {| matched := m; groups := [] |}) (first_to_last s).
Proof.
  induction s as [|c s IH]; [reflexivity|].
  cbn [exec first_to_last]. rewrite match_here_re_json.
  destruct (JSON.is_char "{" c); [|exact IH].
  destruct (after_last_close s); [reflexivity|exact IH].
Qed.

Lemma first_to_last_some (s m : JS.str) :
  first_to_last s = Some m ->
  exists pre mid post,
    s = pre ++ m ++ post /\ m = "{"%char :: mid ++ ["}"%char]
    /\ ~ In "{"%char pre /\ ~ In "}"%char post.
Proof.
  revert m. induction s as [|c s IH]; intros m; [discriminate|].
  cbn [first_to_last].
  assert (Hrec : first_to_last s = Some m -> c <> "{"%char ->
                 exists pre mid post,
                   c :: s = pre ++ m ++ post /\ m = "{"%char :: mid ++ ["}"%char]
                   /\ ~ In "{"%char pre /\ ~ In "}"%char post).
  { intros H Hc. destruct (IH m H) as (pre & mid & post & -> & Hm & Hp & Hq).
    exists (c :: pre), mid, post. repeat split; auto.
    intros [E|E]; [congruence|tauto]. }
  destruct (JSON.is_char "{" c) eqn:Hc.
  - apply JSFacts.ascii_eqb_eq in Hc. subst c.
    destruct (after_last_close s) as [r|] eqn:Hr.
    + intros [= <-].
      destruct (after_last_close_some _ _ Hr) as [mid [-> Hn]].
      exists [], mid, r.
      assert (Hlen : (S (length (mid ++ "}"%char :: r)) - length r
                      = length ("{"%char :: mid ++ ["}"%char]))%nat).
      { simpl. rewrite !length_app. simpl. lia. }
      rewrite Hlen.
      replace ("{"%char :: mid ++ "}"%char :: r)
        with (("{"%char :: mid ++ ["}"%char]) ++ r)
        by (simpl; now rewrite <- app_assoc).
      rewrite firstn_app, Nat.sub_diag, firstn_all. simpl.
      rewrite app_nil_r. repeat split; auto.
    + intros H. exfalso.
      apply after_last_close_none in Hr.
      destruct (IH m H) as (pre & mid & post & -> & -> & _ & _).
      apply Hr. apply in_or_app. right. simpl. right.
      apply in_or_app. left. apply in_or_app. right. now left.
  - apply JSFacts.ascii_eqb_neq in Hc. intros H. now apply Hrec.
Qed.

Lemma first_to_last_none (s : JS.str) :
  first_to_last s = None ->
  forall pre mid post, s <> pre ++ "{"%char :: mid ++ "}"%char :: post.
Proof.
  induction s as [|c s IH]; intros H pre mid post.
  - destruct pre; discriminate.
  - cbn [first_to_last] in H.
    destruct (JSON.is_char "{" c) eqn:Hc.
    + destruct (after_last_close s) as [r|] eqn:Hr; [discriminate|].
      apply after_last_close_none in Hr.
      intros Heq. apply Hr.
      destruct pre as [|p pre]; simpl in Heq; injection Heq as _ ->.
      * apply in_or_app. right. now left.
      * apply in_or_app. right. right. apply in_or_app. right. now left.
    + apply JSFacts.ascii_eqb_neq in Hc.
      destruct pre as [|p pre]; simpl; intros Heq; injection Heq as Hp Hs.
      * congruence.
      * now apply (IH H pre mid post).
Qed.

End RegexFacts.

(** ** Response handling *)

Module ResponseFacts.

Import Regex.

(** What [parseGeminiResponse] returns: its own [catch] turns every
    failure into a result, and it leaves the trace alone. *)
Lemma parseGeminiResponse_cases
      (E : Eff.Engine) (response instruction : string) (t : trace) :
  GeminiService.parseGeminiResponse E response instruction t
  = (Ok match exec false GeminiService.re_json (JS.chars response) with
        | None =>
            Failure "Failed to parse AI response: No JSON found in response"
                    GeminiService.response_suggestions
        | Some jsonMatch =>
            match JSON.parse (JS.text (matched jsonMatch)) with
            | None =>
                Failure ("Failed to parse AI response: "
                           +:+ Eff.syntax_error_message
                                 E (JS.text (matched jsonMatch)))
                        GeminiService.response_suggestions
            | Some rule =>
                match GeminiService.validateParsedRule E rule with
                | Ok true => Success rule
                | Ok false =>
                    Failure
                      "Failed to parse AI response: Invalid rule structure from Gemini"
                      GeminiService.response_suggestions
                | Throw e =>
                    Failure ("Failed to parse AI response: "
                               +:+ Eff.message_or_unknown e)
                            GeminiService.response_suggestions
                end
            end
        end, t).
Proof.
  unfold GeminiService.parseGeminiResponse, Eff.try_catch.
  destruct (exec false GeminiService.re_json (JS.chars response)) as [jm|];
    [|reflexivity].
  unfold Eff.bind, GeminiService.JSON_parse.
  destruct (JSON.parse (JS.text (matched jm))) as [rule|]; [|reflexivity].
  unfold Eff.ret, Eff.lift.
  destruct (GeminiService.validateParsedRule E rule) as [[|]|e]; reflexivity.
Qed.

End ResponseFacts.

(** C3, as the sources have it.  For every response, the adapter takes the
    text from the first opening brace through the last closing brace (the
    greedy pattern /\{[\s\S]*\}/): no opening brace precedes the match and no
    closing brace follows it.  When no opening brace is followed by a closing
    one, the response handling ends in the failure whose error is "Failed to
    parse AI response: No JSON found in response". *)
Theorem response_extraction_first_to_last
        (E : Eff.Engine) (response instruction : string) (t : trace) :
  match Regex.exec false GeminiService.re_json (JS.chars response) with
  | Some jsonMatch =>
      exists pre mid post,
        JS.chars response = pre ++ Regex.matched jsonMatch ++ post
        /\ Regex.matched jsonMatch = "{"%char :: mid ++ ["}"%char]
        /\ ~ In "{"%char pre /\ ~ In "}"%char post
  | None =>
      (forall pre mid post,
          JS.chars response <> pre ++ "{"%char :: mid ++ "}"%char :: post)
      /\ GeminiService.parseGeminiResponse E response instruction t
         = (Ok (Failure "Failed to parse AI response: No JSON found in response"
                        GeminiService.response_suggestions), t)
  end.
Proof.
  pose proof (ResponseFacts.parseGeminiResponse_cases E response instruction t)
    as Hcases.
  rewrite RegexFacts.exec_re_json in *.
  destruct (Braces.first_to_last (JS.chars response)) as [m|] eqn:Hm; simpl in *.
  - now apply RegexFacts.first_to_last_some.
  - split; [now apply RegexFacts.first_to_last_none|exact Hcases].
Qed.

(** C3 as stated fails: on a balanced object followed by commentary with
    braces, the adapter takes the whole text up to the last brace, not the
    first balanced object. *)
Lemma response_extraction_counterexample :
  option_map Regex.matched
    (Regex.exec false GeminiService.re_json (JS.chars Samples.chatty_response))
  = Some (JS.chars Samples.chatty_response)
  /\ Spec.first_balanced (JS.chars Samples.chatty_response)
     = Some (JS.chars Samples.object_text)
  /\ option_map Regex.matched
       (Regex.exec false GeminiService.re_json (JS.chars Samples.chatty_response))
     <> Spec.first_balanced (JS.chars Samples.chatty_response).
Proof.
  split; [|split]; [vm_compute; reflexivity | vm_compute; reflexivity |].
  vm_compute. discriminate.
Qed.

(** ** The adapter *)

(** C1, as the sources have it.  With the generation capability available,
    [parseInstruction] never throws.  It calls the heuristic extractor only
    when the generation call itself throws.  A response that was generated
    but is malformed (no JSON to extract, JSON that does not parse, a rule
    that fails validation or whose validation throws) ends in the failure
    "Failed to parse AI response: <cause>" without a call of the heuristic
    extractor; a well-formed response is returned as the rule.  The server
    route behaves the same for an instruction that is not blank, with one
    difference: its inner [catch] reads [error.message], so that a
    generation call that throws [null] or [undefined] is answered with
    status 500 and no call of the heuristic extractor.

    The JSON text the adapter takes from the answer is assumed to be one
    that [JSON.parse] of this model reads as the run time does
    ([JSON.reads_alike]: no escape above [00FF], plain numbers). *)
Theorem adapter_result_with_capability
        (E : Eff.Engine) (m : GeminiService.Model) (keyPresent : bool)
        (instruction : string) (t : trace) :
  (forall response jsonMatch,
      GeminiService.generateContent m (GeminiService.buildPrompt instruction)
      = Ok response ->
      Regex.exec false GeminiService.re_json (JS.chars response)
      = Some jsonMatch ->
      JSON.reads_alike (JS.text (Regex.matched jsonMatch)) = true) ->
  let svc := {| GeminiService.model := Some m;
                GeminiService.apiKeyPresent := keyPresent |} in
  let prompt := GeminiService.buildPrompt instruction in
  let response_result (response : string) :=
    match Regex.exec false GeminiService.re_json (JS.chars response) with
    | None =>
        Failure "Failed to parse AI response: No JSON found in response"
                GeminiService.response_suggestions
    | Some jsonMatch =>
        match JSON.parse (JS.text (Regex.matched jsonMatch)) with
        | None =>
            Failure ("Failed to parse AI response: "
                       +:+ Eff.syntax_error_message
                             E (JS.text (Regex.matched jsonMatch)))
                    GeminiService.response_suggestions
        | Some rule =>
            match GeminiService.validateParsedRule E rule with
            | Ok true => Success rule
            | Ok false =>
                Failure
                  "Failed to parse AI response: Invalid rule structure from Gemini"
                  GeminiService.response_suggestions
            | Throw e =>
                Failure ("Failed to parse AI response: "
                           +:+ Eff.message_or_unknown e)
                        GeminiService.response_suggestions
            end
        end
    end in
  GeminiService.parseInstruction E svc instruction t
  = match GeminiService.generateContent m prompt with
    | Ok response =>
        (Ok (response_result response),
         (t ++ [AdapterCall instruction]) ++ [GenerateCall prompt])
    | Throw _ =>
        (Ok (GeminiService.fallbackParsing instruction),
         ((t ++ [AdapterCall instruction]) ++ [GenerateCall prompt])
           ++ [HeuristicCall instruction])
    end
  /\ GeminiRoute.parse E (Some m) (Some (JStr instruction)) t
     = if RuleParser.is_blank instruction
       then (Ok (400%nat, RuleParser.empty_instruction), t)
       else
         match GeminiService.generateContent m prompt with
         | Ok response =>
             (Ok (200%nat, response_result response), t ++ [GenerateCall prompt])
         | Throw error =>
             if Eff.is_nullish error
             then (Ok (500%nat, GeminiRoute.server_error),
                   t ++ [GenerateCall prompt])
             else
               (Ok (200%nat,
                    GeminiService.fallbackParsing_with
                      GeminiService.key_hint_server instruction),
                (t ++ [GenerateCall prompt]) ++ [HeuristicCall instruction])
         end.
Proof.
  intros _ svc prompt response_result. split.
  - unfold GeminiService.parseInstruction, Eff.bind, emit. simpl.
    unfold Eff.try_catch, GeminiService.generate, Eff.bind, emit, Eff.lift.
    fold prompt.
    destruct (GeminiService.generateContent m prompt) as [response|e].
    + now rewrite ResponseFacts.parseGeminiResponse_cases.
    + reflexivity.
  - unfold GeminiRoute.parse, Eff.try_catch.
    destruct (RuleParser.is_blank instruction); [reflexivity|].
    unfold GeminiService.generate, Eff.bind, emit, Eff.lift. fold prompt.
    destruct (GeminiService.generateContent m prompt) as [response|e].
    + now rewrite ResponseFacts.parseGeminiResponse_cases.
    + now destruct (Eff.is_nullish e).
Qed.

Lemma adapter_result_with_capability_witness :
  GeminiService.parseInstruction
    Samples.engine (Samples.available Samples.valid_answer)
    "Review any expense after 10 PM" []
  = (Ok (Success
           (JObj [ ("rule_type", JStr "time_based");
                   ("conditions", Samples.after_ten);
                   ("action", JStr "review");
                   ("reason", JStr "Review late expenses");
                   ("confidence_score", JNum (Num 9 1)) ])),
     [AdapterCall "Review any expense after 10 PM";
      GenerateCall (GeminiService.buildPrompt "Review any expense after 10 PM")]).
Proof.
  destruct (adapter_result_with_capability
              Samples.engine (Samples.answering Samples.valid_answer) true
              "Review any expense after 10 PM" []) as [H _].
  - intros response jsonMatch Hr Hm. injection Hr as <-.
    vm_compute in Hm. injection Hm as <-. vm_compute. reflexivity.
  - unfold Samples.available. rewrite H. vm_compute. reflexivity.
Defined.

(** C1 as stated fails: a generated response without JSON ends in a
    terminal failure, although the heuristic extractor would have produced
    a rule for the instruction; the extractor is not called. *)
Lemma malformed_response_counterexample :
  GeminiService.parseInstruction
    Samples.engine (Samples.available "I cannot help with that.")
    Samples.amount_instruction []
  = (Ok (Failure "Failed to parse AI response: No JSON found in response"
                 GeminiService.response_suggestions),
     [AdapterCall Samples.amount_instruction;
      GenerateCall (GeminiService.buildPrompt Samples.amount_instruction)])
  /\ success (GeminiService.fallbackParsing Samples.amount_instruction) = true.
Proof. split; vm_compute; reflexivity. Qed.

(** Without a capability the adapter defers to the heuristic extractor. *)
Lemma adapter_result_without_capability
      (E : Eff.Engine) (keyPresent : bool) (instruction : string) (t : trace) :
  GeminiService.parseInstruction
    E {| GeminiService.model := None;
         GeminiService.apiKeyPresent := keyPresent |} instruction t
  = (Ok (GeminiService.fallbackParsing instruction),
     (t ++ [AdapterCall instruction]) ++ [HeuristicCall instruction]).
Proof. reflexivity. Qed.

(** ** The heuristic extractor on the threshold example *)

(** C2, as the sources have it.  With the adapter unavailable, the
    instruction "Flag any expense above $1,000" matches none of the
    rule-type patterns and yields the failure "Could not determine rule
    type. ..."; with the word "amount" added ("Flag any expense amount above
    $1,000") it yields the heuristic rule of type
    [expense_amount_threshold] with action [flag], the single condition
    [{field: "amount", operator: "gt", value: 1000}] and confidence 0.6. *)
Theorem heuristic_threshold_example
        (E : Eff.Engine) (keyPresent : bool) (t : trace) :
  let svc := {| GeminiService.model := None;
                GeminiService.apiKeyPresent := keyPresent |} in
  fst (GeminiService.parseInstruction E svc "Flag any expense above $1,000" t)
  = Ok (Failure
          "Could not determine rule type. Please check your Gemini API configuration."
          [ GeminiService.key_hint_client; GeminiService.keyword_hint;
            "Include threshold amounts with $ symbol" ])
  /\ fst (GeminiService.parseInstruction
            E svc "Flag any expense amount above $1,000" t)
     = Ok (Success
             (JObj [ ("rule_type", JStr "expense_amount_threshold");
                     ("conditions",
                       JArr [JObj [ ("field", JStr "amount");
                                    ("operator", JStr "gt");
                                    ("value", JNum (Num 1000 0)) ]]);
                     ("action", JStr "flag");
                     ("reason", JStr "Flag based on expense amount_threshold");
                     ("confidence_score", JNum (Num 6 1)) ])).
Proof.
  intros svc. unfold svc.
  rewrite !adapter_result_without_capability. simpl fst.
  split; vm_compute; reflexivity.
Qed.

(** C2 as stated fails: the instruction of the claim yields no rule. *)
Lemma heuristic_threshold_counterexample :
  ~ exists rule,
      fst (GeminiService.parseInstruction
             Samples.engine Samples.unavailable
             "Flag any expense above $1,000" [])
      = Ok (Success rule).
Proof. intros [rule H]. vm_compute in H. discriminate. Qed.

(** ** Numbers and their decimal notation *)

Module NumberFacts.

Import Number.

Lemma code_ascii_of_N (n : N) : (n < 256)%N -> JS.code (ascii_of_N n) = n.
Proof. intros H. unfold JS.code. now apply N_ascii_embedding. Qed.

Lemma eqb_eq (a b : number) : eqb a b = true <-> a = b.
Proof.
  destruct a as [m1 e1], b as [m2 e2]. unfold eqb.
  rewrite andb_true_iff, Z.eqb_eq, Nat.eqb_eq. split.
  - now intros [-> ->].
  - now intros [= -> ->].
Qed.

Lemma normalize_aux_canonical (m : Z) (e : nat) :
  canonical (normalize_aux m e) = true.
Proof.
  revert m. induction e as [|e IH]; intros m; simpl; [reflexivity|].
  destruct (m mod 10 =? 0) eqn:H; [apply IH|].
  simpl. now rewrite H.
Qed.

Lemma normalize_canonical (n : number) : canonical (normalize n) = true.
Proof. destruct n. apply normalize_aux_canonical. Qed.

Lemma normalize_id (n : number) : canonical n = true -> normalize n = n.
Proof.
  destruct n as [m [|e]]; simpl; [reflexivity|].
  intros H. apply negb_true_iff in H. now rewrite H.
Qed.

Lemma add_canonical (a b : number) : canonical (add a b) = true.
Proof. destruct a, b. apply normalize_canonical. Qed.

(** Successor of an integer version. *)
Lemma add_one (k : Z) : add (of_Z k) (Num 1 0) = of_Z (k + 1).
Proof.
  unfold add, of_Z. simpl. unfold pow10. simpl. f_equal. lia.
Qed.

Lemma ltb_of_Z (a b : Z) : ltb (of_Z a) (of_Z b) = (a <? b).
Proof. unfold ltb, of_Z, pow10. simpl. now rewrite !Z.mul_1_r. Qed.

(** *** Digit strings *)

Lemma digit_char_code (d : Z) :
  0 <= d <= 9 -> JS.code (digit_char d) = Z.to_N (48 + d).
Proof. intros H. apply code_ascii_of_N. lia. Qed.

Lemma digit_char_is_digit (d : Z) :
  0 <= d <= 9 -> JS.is_digit (digit_char d) = true.
Proof.
  intros H. unfold JS.is_digit, JS.in_range. rewrite digit_char_code by lia.
  apply andb_true_iff. split; apply N.leb_le; lia.
Qed.

Lemma digit_char_val (d : Z) : 0 <= d <= 9 -> digit_val (digit_char d) = d.
Proof.
  intros H. unfold digit_val. rewrite digit_char_code by lia. lia.
Qed.

Lemma digit_char_nonzero (d : Z) :
  1 <= d <= 9 -> JS.ascii_eqb (digit_char d) "0" = false.
Proof.
  intros H. unfold JS.ascii_eqb. rewrite digit_char_code by lia.
  apply N.eqb_neq. change (JS.code "0") with 48%N. lia.
Qed.

Lemma fold_digits_shift (ds : JS.str) (a : Z) :
  fold_left (fun acc c => 10 * acc + digit_val c) ds a
  = a * 10 ^ Z.of_nat (length ds) + digits_val ds.
Proof.
  unfold digits_val. revert a.
  induction ds as [|c ds IH]; intros a; simpl fold_left.
  - simpl. lia.
  - rewrite IH. rewrite (IH (10 * 0 + digit_val c)).
    change (length (c :: ds)) with (S (length ds)).
    rewrite Nat2Z.inj_succ, Z.pow_succ_r by lia. lia.
Qed.

Lemma digits_val_app (a b : JS.str) :
  digits_val (a ++ b) = digits_val a * 10 ^ Z.of_nat (length b) + digits_val b.
Proof.
  unfold digits_val at 1. rewrite fold_left_app.
  now rewrite fold_digits_shift.
Qed.

Lemma digits_val_cons (c : ascii) (ds : JS.str) :
  digits_val (c :: ds) = digit_val c * 10 ^ Z.of_nat (length ds) + digits_val ds.
Proof.
  change (c :: ds) with ([c] ++ ds). rewrite digits_val_app.
  unfold digits_val at 1. simpl. lia.
Qed.

Lemma digits_val_zeros (k : nat) (ds : JS.str) :
  digits_val (repeat "0"%char k ++ ds) = digits_val ds.
Proof.
  induction k as [|k IH]; [reflexivity|].
  simpl repeat. rewrite <- app_comm_cons, digits_val_cons, IH.
  change (digit_val "0") with 0. lia.
Qed.

Lemma digits_fuel_val (f : nat) (n : Z) (acc : JS.str) :
  0 <= n < 2 ^ Z.of_nat f ->
  digits_val (digits_fuel f n acc)
  = n * 10 ^ Z.of_nat (length acc) + digits_val acc.
Proof.
  revert n acc. induction f as [|f IH]; intros n acc Hn.
  - simpl in *. assert (n = 0) by lia. subst. lia.
  - cbn [digits_fuel]. destruct (n <=? 0) eqn:Hle.
    + apply Z.leb_le in Hle. assert (n = 0) by lia. subst. lia.
    + apply Z.leb_gt in Hle.
      rewrite Nat2Z.inj_succ, Z.pow_succ_r in Hn by lia.
      assert (Hq : 0 <= n / 10 < 2 ^ Z.of_nat f).
      { split; [apply Z.div_pos; lia|].
        apply Z.div_lt_upper_bound; lia. }
      rewrite (IH _ _ Hq).
      rewrite digits_val_cons, digit_char_val
        by (pose proof (Z.mod_pos_bound n 10); lia).
      change (length (digit_char (n mod 10) :: acc)) with (S (length acc)).
      rewrite Nat2Z.inj_succ, Z.pow_succ_r by lia.
      pose proof (Z.div_mod n 10). nia.
Qed.

Lemma digits_fuel_digits (f : nat) (n : Z) (acc : JS.str) :
  Forall (fun c => JS.is_digit c = true) acc ->
  Forall (fun c => JS.is_digit c = true) (digits_fuel f n acc).
Proof.
  revert n acc. induction f as [|f IH]; intros n acc Hacc; [exact Hacc|].
  cbn [digits_fuel]. destruct (n <=? 0); [exact Hacc|].
  apply IH. constructor; [|exact Hacc].
  apply digit_char_is_digit. pose proof (Z.mod_pos_bound n 10). lia.
Qed.

Lemma digits_fuel_zero (f : nat) (acc : JS.str) : digits_fuel f 0 acc = acc.
Proof. destruct f; reflexivity. Qed.

Lemma digits_fuel_head (f : nat) (n : Z) (acc : JS.str) :
  0 < n < 2 ^ Z.of_nat f ->
  exists c tl, digits_fuel f n acc = c :: tl
               /\ JS.ascii_eqb c "0" = false.
Proof.
  revert n acc. induction f as [|f IH]; intros n acc Hn.
  - simpl in Hn. lia.
  - cbn [digits_fuel]. destruct (n <=? 0) eqn:Hle;
      [apply Z.leb_le in Hle; lia|].
    rewrite Nat2Z.inj_succ, Z.pow_succ_r in Hn by lia.
    destruct (Z.eq_dec (n / 10) 0) as [Hz|Hz].
    + rewrite Hz, digits_fuel_zero. eexists _, _. split; [reflexivity|].
      apply digit_char_nonzero.
      pose proof (Z.mod_pos_bound n 10). pose proof (Z.div_mod n 10). lia.
    + apply IH. split.
      * pose proof (Z.div_pos n 10). lia.
      * apply Z.div_lt_upper_bound; lia.
Qed.

Lemma digits_of_fuel (n : Z) :
  0 <= n -> 0 <= n < 2 ^ Z.of_nat (S (Z.to_nat (Z.log2 n))).
Proof.
  intros H. split; [exact H|].
  destruct (Z.eq_dec n 0) as [->|Hz]; [simpl; lia|].
  rewrite Nat2Z.inj_succ, Z2Nat.id by apply Z.log2_nonneg.
  apply Z.log2_spec. lia.
Qed.

Lemma digits_of_val (n : Z) : 0 <= n -> digits_val (digits_of n) = n.
Proof.
  intros H. unfold digits_of. rewrite digits_fuel_val by now apply digits_of_fuel.
  simpl. unfold digits_val. simpl. lia.
Qed.

Lemma digits_of_digits (n : Z) :
  Forall (fun c => JS.is_digit c = true) (digits_of n).
Proof. apply digits_fuel_digits. constructor. Qed.

Lemma digits_of_head (n : Z) :
  0 < n -> exists c tl, digits_of n = c :: tl /\ JS.ascii_eqb c "0" = false.
Proof.
  intros H. apply digits_fuel_head.
  pose proof (digits_of_fuel n). lia.
Qed.

Lemma digits_of_zero : digits_of 0 = [].
Proof. reflexivity. Qed.

End NumberFacts.

(** ** [JSON.parse] after [JSON.stringify] *)

Module JSONFacts.

Import JSON.

Lemma span_digits_app (ds rest : JS.str) :
  Forall (fun c => JS.is_digit c = true) ds ->
  match rest with [] => True | c :: _ => JS.is_digit c = false end ->
  span_digits (ds ++ rest) = (ds, rest).
Proof.
  intros Hds Hrest. induction Hds as [|c ds Hc _ IH]; cbn [app span_digits].
  - destruct rest as [|c rest]; [reflexivity|].
    cbn [span_digits]. now rewrite Hrest.
  - now rewrite Hc, IH.
Qed.

Lemma is_digit_not (c : ascii) (x : ascii) :
  JS.is_digit c = true -> JS.is_digit x = false -> is_char x c = false.
Proof.
  intros Hc Hx. apply JSFacts.ascii_eqb_neq. intros ->. congruence.
Qed.

(** The digits of a printed number: integer part and fraction. *)
Lemma number_digits_split (m : Z) (e : nat) :
  let ds0 := Number.digits_of (Z.abs m) in
  let ds := repeat "0"%char (S e - length ds0) ++ ds0 in
  let ip := firstn (length ds - e) ds in
  let fp := skipn (length ds - e) ds in
  ip ++ fp = ds /\ length fp = e
  /\ Forall (fun c => JS.is_digit c = true) ds
  /\ exists c d, ip = c :: d
                 /\ (is_char "0" c = true -> d = []).
Proof.
  intros ds0 ds ip fp.
  assert (Hds : Forall (fun c => JS.is_digit c = true) ds).
  { apply Forall_app. split.
    - apply List.Forall_forall. intros c Hc. apply repeat_spec in Hc. now subst.
    - apply NumberFacts.digits_of_digits. }
  assert (Hlen : (length ds = Nat.max (length ds0) (S e))%nat).
  { unfold ds. rewrite length_app, repeat_length. lia. }
  split; [apply firstn_skipn|]. split; [unfold fp; rewrite length_skipn; lia|].
  split; [exact Hds|].
  destruct (Nat.le_gt_cases (length ds0) e) as [Hle|Hgt].
  - (* the integer part is the single padding zero *)
    exists "0"%char, []. split; [|reflexivity].
    unfold ip. replace (length ds - e)%nat with 1%nat by lia.
    unfold ds. destruct (S e - length ds0)%nat eqn:Hpad; [lia|reflexivity].
  - (* the digits of the mantissa, which start with a non-zero digit *)
    assert (Hpos : 0 < Z.abs m).
    { destruct (Z.eq_dec (Z.abs m) 0) as [Hz|Hz]; [|lia].
      unfold ds0 in Hgt. rewrite Hz in Hgt. simpl in Hgt. lia. }
    destruct (NumberFacts.digits_of_head _ Hpos) as (c & tl & Hc & Hnz).
    fold ds0 in Hc.
    assert (Hds0 : ds = ds0).
    { unfold ds. replace (S e - length ds0)%nat with 0%nat by lia.
      reflexivity. }
    unfold ip. rewrite Hds0, Hc.
    destruct (length (c :: tl) - e)%nat eqn:Hk.
    { rewrite <- Hc in Hk. lia. }
    exists c, (firstn n tl). split; [reflexivity|].
    unfold is_char. congruence.
Qed.

Lemma make_number_printed (m : Z) (e : nat) (ip fp : JS.str) :
  Number.canonical (Num m e) = true ->
  Number.digits_val (ip ++ fp) = Z.abs m ->
  length fp = e ->
  make_number (m <? 0) ip fp 0 = Num m e.
Proof.
  intros Hcan Hval Hlen. unfold make_number. rewrite Hval, Hlen.
  assert (Hm : (if m <? 0 then - Z.abs m else Z.abs m) = m).
  { destruct (m <? 0) eqn:Hneg;
      [apply Z.ltb_lt in Hneg|apply Z.ltb_ge in Hneg]; lia. }
  rewrite Hm. destruct e as [|e].
  - simpl. f_equal. lia.
  - replace (0 <=? 0 - Z.of_nat (S e)) with false
      by (symmetry; apply Z.leb_gt; lia).
    replace (Z.to_nat (- (0 - Z.of_nat (S e)))) with (S e) by lia.
    now apply NumberFacts.normalize_id.
Qed.

(** Reading a printed number gives the number back. *)
Lemma parse_number_printed (n : number) (rest : JS.str) :
  Number.canonical n = true -> ends_number rest ->
  parse_number (number_to_chars n ++ rest) = Some (n, rest).
Proof.
  destruct n as [m e]. intros Hcan Hrest.
  unfold number_to_chars.
  destruct (number_digits_split m e) as (Hsplit & Hfp & Hds & c & d & Hip & Hzero).
  set (ds := repeat "0"%char (S e - length (Number.digits_of (Z.abs m)))
               ++ Number.digits_of (Z.abs m)) in *.
  set (ip := firstn (length ds - e) ds) in *.
  set (fp := skipn (length ds - e) ds) in *.
  assert (Hval : Number.digits_val (ip ++ fp) = Z.abs m).
  { rewrite Hsplit. unfold ds. rewrite NumberFacts.digits_val_zeros.
    apply NumberFacts.digits_of_val. lia. }
  rewrite <- Hsplit in Hds. apply Forall_app in Hds. destruct Hds as [Hdi Hdf].
  clearbody ip fp. clear Hsplit. subst ip.
  assert (Hc : JS.is_digit c = true) by now inversion Hdi.
  assert (Hd : Forall (fun c => JS.is_digit c = true) d) by now inversion Hdi.
  set (ip := c :: d) in *. assert (Hip : ip = c :: d) by reflexivity.
  clearbody ip.
  set (tail := match e with 0%nat => [] | S _ => "."%char :: fp end ++ rest).
  assert (Htail : match tail with [] => True
                             | x :: _ => JS.is_digit x = false end).
  { unfold tail. destruct e; simpl; [|reflexivity].
    destruct rest; [exact I|]. now destruct Hrest. }
  assert (Hint : parse_int (ip ++ tail) = Some (ip, tail)).
  { rewrite Hip. simpl. destruct (is_char "0" c) eqn:H0.
    - now rewrite (Hzero eq_refl).
    - rewrite Hc. now rewrite span_digits_app. }
  assert (Hfrac : parse_frac tail = Some (fp, rest)).
  { unfold tail, parse_frac. destruct e as [|e]; cbn [app].
    - destruct rest as [|x rest]; [now destruct fp|].
      destruct Hrest as (_ & Hdot & _). rewrite Hdot. now destruct fp.
    - change (is_char "." ".") with true. cbv iota.
      rewrite span_digits_app; auto;
        [|destruct rest; [exact I|now destruct Hrest]].
      destruct fp; [discriminate|reflexivity]. }
  assert (Hexp : parse_exp rest = Some (0, rest)).
  { destruct rest as [|x rest]; [reflexivity|]. unfold parse_exp.
    destruct Hrest as (_ & _ & He1 & He2). now rewrite He1, He2. }
  assert (Hnum : make_number (m <? 0) ip fp 0 = Num m e)
    by now apply make_number_printed.
  destruct (m <? 0) eqn:Hneg; cbn [app]; rewrite <- app_assoc; fold tail.
  - unfold parse_number. cbv beta iota.
    change (is_char "-" "-") with true. cbv iota.
    now rewrite Hint, Hfrac, Hexp, Hnum.
  - rewrite Hip in *. cbn [app] in *. unfold parse_number.
    rewrite (is_digit_not c "-" Hc eq_refl).
    now rewrite Hint, Hfrac, Hexp, Hnum.
Qed.

(** *** Strings *)

Lemma parse_string_quote_char (c : ascii) (tail : JS.str) :
  parse_string (quote_char c ++ tail) = cons_to c (parse_string tail).
Proof.
  destruct c as [[] [] [] [] [] [] [] []]; reflexivity.
Qed.

Lemma parse_string_quoted (cs rest : JS.str) :
  parse_string (flat_map quote_char cs ++ dquote :: rest) = Some (cs, rest).
Proof.
  induction cs as [|c cs IH]; [reflexivity|].
  cbn [flat_map]. rewrite <- app_assoc, parse_string_quote_char, IH.
  reflexivity.
Qed.

Lemma parse_quote (k : string) (rest : JS.str) :
  exists body, quote k ++ rest = dquote :: body
               /\ parse_string body = Some (JS.chars k, rest).
Proof.
  unfold quote. eexists. split.
  - cbn [app]. rewrite <- app_assoc. reflexivity.
  - apply parse_string_quoted.
Qed.

(** *** Induction on values *)

Lemma json_induction (P : json -> Prop) :
  P JNull -> (forall b, P (JBool b)) -> (forall n, P (JNum n)) ->
  (forall s, P (JStr s)) ->
  (forall l, Forall P l -> P (JArr l)) ->
  (forall l, Forall (fun m => P (snd m)) l -> P (JObj l)) ->
  forall v, P v.
Proof.
  intros HN HB HNum HS HA HO. fix IH 1.
  intros [|b|n|s|l|l].
  - exact HN.
  - apply HB.
  - apply HNum.
  - apply HS.
  - apply HA. induction l as [|x l IHl]; constructor; [apply IH|exact IHl].
  - apply HO. induction l as [|[k x] l IHl]; constructor;
      [apply IH|exact IHl].
Qed.

(** *** Unfolding [serialize] and [need] *)

Lemma serialize_array (gap level : nat) (x : json) (l : list json) :
  serialize gap level (JArr (x :: l))
  = "["%char :: break gap (S level) ++ serialize gap (S level) x
      ++ serialize_items gap (S level) l ++ break gap level ++ ["]"%char].
Proof. reflexivity. Qed.

Lemma serialize_object (gap level : nat) (k : string) (x : json)
      (l : list (string * json)) :
  serialize gap level (JObj ((k, x) :: l))
  = "{"%char :: break gap (S level) ++ quote k ++ colon gap
      ++ serialize gap (S level) x
      ++ serialize_members gap (S level) l ++ break gap level ++ ["}"%char].
Proof. reflexivity. Qed.

Lemma need_array (l : list json) : need (JArr l) = S (need_items l).
Proof. reflexivity. Qed.

Lemma need_object (l : list (string * json)) :
  need (JObj l) = S (need_members l).
Proof. reflexivity. Qed.

(** *** White space *)

Lemma skip_ws_idem (s : JS.str) : skip_ws (skip_ws s) = skip_ws s.
Proof.
  induction s as [|c s IH]; [reflexivity|]. cbn [skip_ws].
  destruct (is_ws c) eqn:Hc; [exact IH|]. cbn [skip_ws]. now rewrite Hc.
Qed.

Lemma skip_ws_app (ws s : JS.str) :
  Forall (fun c => is_ws c = true) ws -> skip_ws (ws ++ s) = skip_ws s.
Proof.
  induction 1 as [|c ws Hc _ IH]; [reflexivity|].
  cbn [app skip_ws]. now rewrite Hc.
Qed.

Lemma break_ws (gap level : nat) :
  Forall (fun c => is_ws c = true) (break gap level).
Proof.
  unfold break. destruct gap; [constructor|].
  constructor; [reflexivity|].
  apply List.Forall_forall. intros c Hc. apply repeat_spec in Hc. now subst.
Qed.

Lemma skip_ws_break (gap level : nat) (s : JS.str) :
  skip_ws (break gap level ++ s) = skip_ws s.
Proof. apply skip_ws_app, break_ws. Qed.

Lemma skip_ws_value (s : JS.str) : starts_value s -> skip_ws s = s.
Proof.
  destruct s as [|c s]; [intros []|]. intros (Hc & _). cbn [skip_ws].
  now rewrite Hc.
Qed.

Lemma parse_value_skip_ws (fuel : nat) (s : JS.str) :
  parse_value fuel (skip_ws s) = parse_value fuel s.
Proof. destruct fuel; [reflexivity|]. cbn [parse_value]. now rewrite skip_ws_idem. Qed.

Lemma parse_value_break (fuel gap level : nat) (s : JS.str) :
  parse_value fuel (break gap level ++ s) = parse_value fuel s.
Proof.
  rewrite <- parse_value_skip_ws, skip_ws_break. apply parse_value_skip_ws.
Qed.

Lemma parse_members_skip_ws (fuel : nat) (s : JS.str) :
  parse_members fuel (skip_ws s) = parse_members fuel s.
Proof. destruct fuel; [reflexivity|]. cbn [parse_members]. now rewrite skip_ws_idem. Qed.

Lemma parse_members_break (fuel gap level : nat) (s : JS.str) :
  parse_members fuel (break gap level ++ s) = parse_members fuel s.
Proof.
  rewrite <- parse_members_skip_ws, skip_ws_break. apply parse_members_skip_ws.
Qed.

Lemma parse_elements_break (fuel gap level : nat) (s : JS.str) :
  parse_elements fuel (break gap level ++ s) = parse_elements fuel s.
Proof.
  destruct fuel; [reflexivity|]. cbn [parse_elements].
  now rewrite parse_value_break.
Qed.

(** *** First characters *)

Lemma digit_not_ws (c : ascii) : JS.is_digit c = true -> is_ws c = false.
Proof.
  unfold JS.is_digit, JS.in_range, is_ws. intros H.
  apply andb_true_iff in H. destruct H as [H1 H2].
  apply N.leb_le in H1. apply N.leb_le in H2.
  repeat (apply orb_false_iff; split); apply N.eqb_neq; lia.
Qed.

Lemma number_to_chars_head (n : number) :
  exists c tl, number_to_chars n = c :: tl
               /\ (c = "-"%char \/ JS.is_digit c = true).
Proof.
  destruct n as [m e]. unfold number_to_chars.
  destruct (number_digits_split m e) as (Hsplit & _ & Hds & c & d & Hip & _).
  cbv zeta in Hsplit, Hds, Hip. rewrite Hip.
  destruct (m <? 0); cbn [app]; eexists _, _; split; try reflexivity.
  - now left.
  - right. rewrite <- Hsplit, Hip in Hds. now inversion Hds.
Qed.

Lemma value_start_char (c : ascii) :
  c = "-"%char \/ JS.is_digit c = true ->
  is_ws c = false /\ is_char "]" c = false /\ is_char "}" c = false
  /\ is_char "n" c = false /\ is_char "t" c = false
  /\ is_char "f" c = false /\ is_char dquote c = false
  /\ is_char "[" c = false /\ is_char "{" c = false.
Proof.
  intros [->|H]; [repeat split; reflexivity|].
  repeat split; try (now apply is_digit_not). now apply digit_not_ws.
Qed.

Lemma serialize_head (gap level : nat) (v : json) (rest : JS.str) :
  starts_value (serialize gap level v ++ rest).
Proof.
  destruct v as [|[]|n|s|[|x l]|[|[k x] l]];
    try (repeat split; reflexivity).
  cbn [serialize].
  destruct (number_to_chars_head n) as (c & tl & -> & Hc).
  cbn [app starts_value]. apply value_start_char in Hc. tauto.
Qed.

Lemma ends_number_items (gap level level' : nat) (l : list json)
      (close : ascii) (rest : JS.str) :
  close = "]"%char \/ close = "}"%char ->
  ends_number (serialize_items gap level l ++ break gap level' ++ close :: rest).
Proof.
  intros Hclose. destruct l as [|y l]; [|repeat split; reflexivity].
  cbn [serialize_items app]. unfold break.
  destruct gap; [|repeat split; reflexivity].
  destruct Hclose as [-> | ->]; repeat split; reflexivity.
Qed.

Lemma ends_number_members (gap level level' : nat) (l : list (string * json))
      (rest : JS.str) :
  ends_number (serialize_members gap level l ++ break gap level'
                 ++ "}"%char :: rest).
Proof.
  destruct l as [|[k y] l]; [|repeat split; reflexivity].
  cbn [serialize_members app]. unfold break.
  destruct gap; repeat split; reflexivity.
Qed.

(** *** The cases of [parse_value] *)

Lemma parse_value_number (f : nat) (c : ascii) (r : JS.str) :
  c = "-"%char \/ JS.is_digit c = true ->
  parse_value (S f) (c :: r)
  = match parse_number (c :: r) with
    | Some (n, r') => Some (JNum n, r')
    | None => None
    end.
Proof.
  intros Hc. apply value_start_char in Hc.
  destruct Hc as (H1 & _ & _ & H2 & H3 & H4 & H5 & H6 & H7).
  cbn [parse_value skip_ws]. now rewrite H1, H2, H3, H4, H5, H6, H7.
Qed.

Lemma parse_value_string (f : nat) (r : JS.str) :
  parse_value (S f) (dquote :: r)
  = match parse_string r with
    | Some (x, r') => Some (JStr (JS.text x), r')
    | None => None
    end.
Proof. reflexivity. Qed.

Lemma parse_value_array (f : nat) (r : JS.str) :
  starts_value (skip_ws r) ->
  parse_value (S f) ("["%char :: r)
  = match parse_elements f r with
    | Some (l, r') => Some (JArr l, r')
    | None => None
    end.
Proof.
  intros H. change (parse_value (S f) ("["%char :: r))
    with (match skip_ws r with
          | c' :: r' =>
              if is_char "]" c' then Some (JArr [], r')
              else match parse_elements f r with
                   | Some (l, r'') => Some (JArr l, r'')
                   | None => None
                   end
          | [] => None
          end).
  destruct (skip_ws r) as [|c' r']; [destruct H|].
  destruct H as (_ & -> & _). reflexivity.
Qed.

Lemma parse_value_object (f : nat) (r : JS.str) :
  starts_value (skip_ws r) ->
  parse_value (S f) ("{"%char :: r)
  = match parse_members f r with
    | Some (ms, r') => Some (JObj (obj_of_members ms), r')
    | None => None
    end.
Proof.
  intros H. change (parse_value (S f) ("{"%char :: r))
    with (match skip_ws r with
          | c' :: r' =>
              if is_char "}" c' then Some (JObj [], r')
              else match parse_members f r with
                   | Some (ms, r'') => Some (JObj (obj_of_members ms), r'')
                   | None => None
                   end
          | [] => None
          end).
  destruct (skip_ws r) as [|c' r']; [destruct H|].
  destruct H as (_ & _ & ->). reflexivity.
Qed.

(** *** Items and members *)

(** Reading back the items of an array, given that each item reads back. *)
Lemma parse_elements_printed (gap level level' : nat) (rest : JS.str)
      (l : list json) :
  Forall (fun v => forall rest fuel,
              (need v <= fuel)%nat -> ends_number rest ->
              parse_value fuel (serialize gap level v ++ rest) = Some (v, rest)) l ->
  forall x fuel,
    (forall rest fuel,
        (need x <= fuel)%nat -> ends_number rest ->
        parse_value fuel (serialize gap level x ++ rest) = Some (x, rest)) ->
    (need_items (x :: l) <= fuel)%nat ->
    parse_elements fuel
      (serialize gap level x ++ serialize_items gap level l
         ++ break gap level' ++ "]"%char :: rest)
    = Some (x :: l, rest).
Proof.
  induction 1 as [|y l Hy Hl IH]; intros x fuel Hx Hfuel;
    (destruct fuel as [|f]; [cbn in Hfuel; lia|]);
    cbn [need_items fold_right] in Hfuel.
  - cbn [parse_elements]. rewrite Hx; [|cbn in Hfuel; lia|].
    + cbn [serialize_items app]. rewrite skip_ws_break. reflexivity.
    + apply ends_number_items. now left.
  - cbn [parse_elements]. rewrite Hx; [|cbn in Hfuel |- *; lia|].
    + cbn [serialize_items app skip_ws].
      change (is_ws ",") with false. cbv iota.
      change (is_char "," ",") with true. cbv iota.
      rewrite <- !app_assoc. rewrite parse_elements_break.
      rewrite IH; [reflexivity|exact Hy|].
      cbn [need_items fold_right] in *. lia.
    + apply ends_number_items. now left.
Qed.

Lemma parse_value_colon (gap fuel : nat) (s : JS.str) :
  exists c r, colon gap ++ s = c :: r /\ is_ws c = false
              /\ is_char ":" c = true
              /\ parse_value fuel r = parse_value fuel s.
Proof.
  unfold colon. destruct gap; cbn [app]; eexists _, _;
    (split; [reflexivity|split; [reflexivity|split; [reflexivity|]]]).
  - reflexivity.
  - rewrite <- (parse_value_skip_ws _ (" "%char :: s)).
    cbn [skip_ws]. change (is_ws " ") with true. cbv iota.
    apply parse_value_skip_ws.
Qed.

(** Reading back the members of an object. *)
Lemma parse_members_printed (gap level level' : nat) (rest : JS.str)
      (l : list (string * json)) :
  Forall (fun m => forall rest fuel,
              (need (snd m) <= fuel)%nat -> ends_number rest ->
              parse_value fuel (serialize gap level (snd m) ++ rest)
              = Some (snd m, rest)) l ->
  forall k x fuel,
    (forall rest fuel,
        (need x <= fuel)%nat -> ends_number rest ->
        parse_value fuel (serialize gap level x ++ rest) = Some (x, rest)) ->
    (need_members ((k, x) :: l) <= fuel)%nat ->
    parse_members fuel
      (quote k ++ colon gap ++ serialize gap level x
         ++ serialize_members gap level l
         ++ break gap level' ++ "}"%char :: rest)
    = Some ((k, x) :: l, rest).
Proof.
  induction 1 as [|[k' y] l Hy Hl IH]; intros k x fuel Hx Hfuel;
    (destruct fuel as [|f]; [cbn in Hfuel; lia|]);
    cbn [need_members fold_right] in Hfuel.
  - destruct (parse_quote k (colon gap ++ serialize gap level x
                               ++ serialize_members gap level []
                               ++ break gap level' ++ "}"%char :: rest))
      as (body & -> & Hbody).
    cbn [parse_members skip_ws]. change (is_ws dquote) with false.
    change (is_char dquote dquote) with true. cbv iota. rewrite Hbody.
    destruct (parse_value_colon gap f (serialize gap level x
                               ++ serialize_members gap level []
                               ++ break gap level' ++ "}"%char :: rest))
      as (c & r & -> & Hc1 & Hc2 & Hpv).
    cbn [skip_ws]. rewrite Hc1, Hc2, Hpv.
    rewrite Hx; [|cbn in Hfuel; lia|apply ends_number_members].
    cbn [serialize_members app]. rewrite skip_ws_break.
    cbn [skip_ws]. change (is_ws "}") with false. cbv iota.
    change (is_char "," "}") with false. change (is_char "}" "}") with true.
    cbv iota. now rewrite JSFacts.text_chars.
  - destruct (parse_quote k (colon gap ++ serialize gap level x
                               ++ serialize_members gap level ((k', y) :: l)
                               ++ break gap level' ++ "}"%char :: rest))
      as (body & -> & Hbody).
    cbn [parse_members skip_ws]. change (is_ws dquote) with false.
    change (is_char dquote dquote) with true. cbv iota. rewrite Hbody.
    destruct (parse_value_colon gap f (serialize gap level x
                               ++ serialize_members gap level ((k', y) :: l)
                               ++ break gap level' ++ "}"%char :: rest))
      as (c & r & -> & Hc1 & Hc2 & Hpv).
    cbn [skip_ws]. rewrite Hc1, Hc2, Hpv.
    rewrite Hx; [|cbn in Hfuel |- *; lia|apply ends_number_members].
    cbn [serialize_members app skip_ws].
    change (is_ws ",") with false. cbv iota.
    change (is_char "," ",") with true. cbv iota.
    rewrite <- !app_assoc. rewrite parse_members_break.
    rewrite (IH k' y f); [now rewrite JSFacts.text_chars|exact Hy|].
    cbn [need_members fold_right] in *. lia.
Qed.

(** *** Objects with distinct property names *)

Lemma mem_app (k : string) (a b : list string) :
  mem k (a ++ b) = mem k a || mem k b.
Proof.
  induction a as [|x a IH]; [reflexivity|]. cbn [app mem].
  now rewrite IH, orb_assoc.
Qed.

Lemma distinct_app_fresh (a b : list string) (k : string) :
  distinct (a ++ k :: b) = true -> mem k a = false.
Proof.
  induction a as [|x a IH]; [reflexivity|]. cbn [app distinct mem].
  intros H. apply andb_true_iff in H. destruct H as [H1 H2].
  apply negb_true_iff in H1. rewrite mem_app in H1.
  apply orb_false_iff in H1. destruct H1 as [_ H1]. cbn [mem] in H1.
  apply orb_false_iff in H1. destruct H1 as [H1 _].
  rewrite String.eqb_sym, H1. now apply IH.
Qed.

Lemma obj_set_fresh (k : string) (v : json) (l : list (string * json)) :
  mem k (map fst l) = false -> obj_set k v l = l ++ [(k, v)].
Proof.
  induction l as [|[k' v'] l IH]; [reflexivity|]. cbn [map fst mem obj_set app].
  intros H. apply orb_false_iff in H. destruct H as [H1 H2].
  now rewrite H1, IH.
Qed.

Lemma fold_obj_set (ms acc : list (string * json)) :
  distinct (map fst (acc ++ ms)) = true ->
  fold_left (fun o m => obj_set (fst m) (snd m) o) ms acc = acc ++ ms.
Proof.
  revert acc. induction ms as [|[k v] ms IH]; intros acc H.
  - now rewrite app_nil_r.
  - cbn [fold_left fst snd]. rewrite obj_set_fresh.
    + rewrite IH; rewrite <- app_assoc; [reflexivity|exact H].
    + rewrite map_app in H. now apply distinct_app_fresh in H.
Qed.

Lemma obj_of_members_distinct (l : list (string * json)) :
  distinct (map fst l) = true -> obj_of_members l = l.
Proof. intros H. unfold obj_of_members. now rewrite fold_obj_set. Qed.

(** *** Reading back a printed value *)

Lemma wf_array (l : list json) :
  wf (JArr l) = true -> Forall (fun v => wf v = true) l.
Proof.
  cbn [wf]. intros H. apply List.Forall_forall. intros x Hx.
  rewrite forallb_forall in H. now apply H.
Qed.

Lemma wf_object (l : list (string * json)) :
  wf (JObj l) = true ->
  distinct (map fst l) = true /\ Forall (fun m => wf (snd m) = true) l.
Proof.
  cbn [wf]. intros H. apply andb_true_iff in H. destruct H as [H1 H2].
  split; [exact H1|]. apply List.Forall_forall. intros [k x] Hx.
  rewrite forallb_forall in H2. exact (H2 _ Hx).
Qed.

(** Whatever follows it (as long as a number is not prolonged), a printed
    value reads back as itself, at any indentation. *)
Lemma parse_value_printed (gap : nat) (v : json) :
  wf v = true ->
  forall level rest fuel,
    (need v <= fuel)%nat -> ends_number rest ->
    parse_value fuel (serialize gap level v ++ rest) = Some (v, rest).
Proof.
  induction v as [|b|n|s|l IH|l IH] using json_induction;
    intros Hwf level rest fuel Hfuel Hrest;
    (destruct fuel as [|f]; [cbn in Hfuel; lia|]).
  - reflexivity.
  - destruct b; reflexivity.
  - cbn [serialize].
    destruct (number_to_chars_head n) as (c & tl & Hn & Hc).
    pose proof (parse_number_printed n rest Hwf Hrest) as Hp.
    rewrite Hn in *. cbn [app] in *.
    now rewrite parse_value_number, Hp.
  - cbn [serialize].
    destruct (parse_quote s rest) as (body & -> & Hbody).
    now rewrite parse_value_string, Hbody, JSFacts.text_chars.
  - destruct l as [|x l]; [reflexivity|].
    apply wf_array in Hwf.
    inversion IH as [|? ? IHx IHl]; subst.
    inversion Hwf as [|? ? Hx Hl]; subst.
    rewrite serialize_array. cbn [app]. rewrite <- !app_assoc. cbn [app].
    rewrite parse_value_array
      by (rewrite skip_ws_break, skip_ws_value; apply serialize_head).
    rewrite parse_elements_break.
    rewrite need_array in Hfuel.
    rewrite (parse_elements_printed gap (S level) level rest l);
      [reflexivity| |now auto|lia].
    rewrite List.Forall_forall in *. intros y Hy. now auto.
  - destruct l as [|[k x] l]; [reflexivity|].
    apply wf_object in Hwf. destruct Hwf as [Hkeys Hwf].
    inversion IH as [|? ? IHx IHl]; subst.
    inversion Hwf as [|? ? Hx Hl]; subst. cbn [snd] in *.
    rewrite serialize_object. cbn [app]. rewrite <- !app_assoc. cbn [app].
    rewrite parse_value_object.
    2:{ rewrite skip_ws_break.
        destruct (parse_quote k (colon gap ++ serialize gap (S level) x ++
                    serialize_members gap (S level) l ++
                    break gap level ++ "}"%char :: rest)) as (body & -> & _).
        repeat split; reflexivity. }
    rewrite parse_members_break.
    rewrite need_object in Hfuel.
    rewrite (parse_members_printed gap (S level) level rest l);
      [now rewrite obj_of_members_distinct| |now auto|lia].
    rewrite List.Forall_forall in *. intros y Hy. now auto.
Qed.

(** *** Fuel *)

Lemma serialize_nonempty (gap level : nat) (v : json) :
  (1 <= length (serialize gap level v))%nat.
Proof.
  pose proof (serialize_head gap level v []) as H.
  rewrite app_nil_r in H. destruct (serialize gap level v); [destruct H|].
  cbn. lia.
Qed.

Lemma need_items_bound (gap level : nat) (l : list json) :
  Forall (fun v => forall level, (need v <= length (serialize gap level v))%nat) l ->
  (need_items l <= length (serialize_items gap level l))%nat.
Proof.
  induction 1 as [|y l Hy _ IH]; [reflexivity|].
  cbn [need_items fold_right serialize_items]. fold (need_items l).
  cbn [length]. rewrite !length_app. specialize (Hy level). lia.
Qed.

Lemma need_members_bound (gap level : nat) (l : list (string * json)) :
  Forall (fun m => forall level,
              (need (snd m) <= length (serialize gap level (snd m)))%nat) l ->
  (need_members l <= length (serialize_members gap level l))%nat.
Proof.
  induction 1 as [|[k y] l Hy _ IH]; [reflexivity|].
  cbn [need_members fold_right serialize_members]. fold (need_members l).
  cbn [length]. rewrite !length_app. specialize (Hy level). cbn [snd] in Hy. lia.
Qed.

Lemma need_bound (gap : nat) (v : json) :
  forall level, (need v <= length (serialize gap level v))%nat.
Proof.
  induction v as [|b|n|s|l IH|l IH] using json_induction; intros level;
    try apply serialize_nonempty.
  - destruct l as [|x l]; [cbn; lia|].
    inversion IH as [|? ? IHx IHl]; subst.
    rewrite serialize_array, need_array.
    cbn [need_items fold_right]. fold (need_items l).
    pose proof (need_items_bound gap (S level) l IHl).
    specialize (IHx (S level)).
    cbn [length]. rewrite !length_app. cbn [length]. lia.
  - destruct l as [|[k x] l]; [cbn; lia|].
    inversion IH as [|? ? IHx IHl]; subst. cbn [snd] in IHx.
    rewrite serialize_object, need_object.
    cbn [need_members fold_right]. fold (need_members l).
    pose proof (need_members_bound gap (S level) l IHl).
    specialize (IHx (S level)).
    cbn [length]. rewrite !length_app. cbn [length]. lia.
Qed.

(** *** The round trip *)

(** [JSON.parse(JSON.stringify(v, null, gap))] is [v]. *)
Theorem parse_stringify_indent (gap : nat) (v : json) :
  wf v = true -> parse (stringify_indent gap v) = Some v.
Proof.
  intros Hwf. unfold parse, stringify_indent. rewrite JSFacts.chars_text.
  rewrite <- (app_nil_r (serialize gap 0 v)) at 2.
  rewrite parse_value_printed; [reflexivity|exact Hwf| |exact I].
  pose proof (need_bound gap v 0%nat). lia.
Qed.

(** [JSON.parse(JSON.stringify(v))] is [v]. *)
Theorem parse_stringify (v : json) : wf v = true -> parse (stringify v) = Some v.
Proof. apply (parse_stringify_indent 0). Qed.

(** Serialisation is injective on JavaScript values. *)
Lemma stringify_inj (a b : json) :
  wf a = true -> wf b = true -> stringify a = stringify b -> a = b.
Proof.
  intros Ha Hb H. apply parse_stringify in Ha, Hb. congruence.
Qed.

Lemma stringify_nonempty (gap : nat) (v : json) :
  String.eqb (stringify_indent gap v) "" = false.
Proof.
  apply String.eqb_neq. intros H. apply (f_equal JS.chars) in H.
  unfold stringify_indent in H. rewrite JSFacts.chars_text in H.
  pose proof (serialize_nonempty gap 0 v) as Hlen. rewrite H in Hlen.
  cbn in Hlen. lia.
Qed.

End JSONFacts.

(** ** What [JSON.parse] returns is a JavaScript value *)

Module ParseFacts.

Import JSON.

Lemma make_number_canonical (neg : bool) (ip fp : JS.str) (ex : Z) :
  Number.canonical (make_number neg ip fp ex) = true.
Proof.
  unfold make_number.
  destruct (0 <=? ex - Z.of_nat (length fp)); [reflexivity|].
  apply NumberFacts.normalize_canonical.
Qed.

Lemma parse_number_canonical (s r : JS.str) (n : number) :
  parse_number s = Some (n, r) -> Number.canonical n = true.
Proof.
  unfold parse_number.
  destruct (match s with
            | [] => (false, s)
            | c :: r0 => if is_char "-" c then (true, r0) else (false, s)
            end) as [neg s1].
  destruct (parse_int s1) as [[ip s2]|]; [|discriminate].
  destruct (parse_frac s2) as [[fp s3]|]; [|discriminate].
  destruct (parse_exp s3) as [[ex s4]|]; [|discriminate].
  intros [= <- _]. apply make_number_canonical.
Qed.

Lemma mem_obj_set (k k' : string) (v : json) (l : list (string * json)) :
  mem k' (map fst (obj_set k v l))
  = mem k' (map fst l) || String.eqb k' k.
Proof.
  induction l as [|[k0 v0] l IH]; cbn [obj_set map fst mem].
  - now rewrite orb_false_r.
  - destruct (String.eqb k k0) eqn:Hk; cbn [map fst mem].
    + apply String.eqb_eq in Hk. subst k0.
      destruct (String.eqb k' k), (mem k' (map fst l)); reflexivity.
    + rewrite IH. now rewrite orb_assoc.
Qed.

Lemma distinct_obj_set (k : string) (v : json) (l : list (string * json)) :
  distinct (map fst l) = true -> distinct (map fst (obj_set k v l)) = true.
Proof.
  induction l as [|[k0 v0] l IH]; [reflexivity|].
  cbn [obj_set map fst distinct]. intros H.
  apply andb_true_iff in H. destruct H as [H1 H2].
  destruct (String.eqb k k0) eqn:Hk; cbn [map fst distinct].
  - apply String.eqb_eq in Hk. subst k0. now rewrite H1, H2.
  - rewrite mem_obj_set, IH by exact H2.
    apply negb_true_iff in H1. rewrite H1, String.eqb_sym, Hk. reflexivity.
Qed.

Lemma wf_obj_set (k : string) (v : json) (l : list (string * json)) :
  wf v = true -> forallb wf_member l = true ->
  forallb wf_member (obj_set k v l) = true.
Proof.
  intros Hv. induction l as [|[k0 v0] l IH]; cbn [obj_set forallb wf_member].
  - now rewrite Hv.
  - intros H. apply andb_true_iff in H. destruct H as [H1 H2].
    destruct (String.eqb k k0); cbn [forallb wf_member].
    + now rewrite Hv, H2.
    + now rewrite H1, IH.
Qed.

Lemma wf_obj_of_members (ms : list (string * json)) :
  forallb wf_member ms = true -> wf (JObj (obj_of_members ms)) = true.
Proof.
  unfold obj_of_members. intros H.
  assert (Hgen : forall acc,
             distinct (map fst acc) = true -> forallb wf_member acc = true ->
             wf (JObj (fold_left (fun o m => obj_set (fst m) (snd m) o) ms acc))
             = true).
  { induction ms as [|[k v] ms IH]; intros acc Hd Hw.
    - cbn [fold_left wf]. apply andb_true_iff. split; assumption.
    - cbn [forallb wf_member] in H. apply andb_true_iff in H.
      destruct H as [Hv Hms]. cbn [fold_left fst snd].
      apply IH; [exact Hms|now apply distinct_obj_set|now apply wf_obj_set]. }
  now apply Hgen.
Qed.

Lemma parse_fuel_wf (fuel : nat) :
  (forall s v r, parse_value fuel s = Some (v, r) -> wf v = true)
  /\ (forall s l r, parse_elements fuel s = Some (l, r) -> forallb wf l = true)
  /\ (forall s ms r, parse_members fuel s = Some (ms, r) ->
                     forallb wf_member ms = true).
Proof.
  induction fuel as [|f (IHv & IHe & IHm)];
    [repeat split; intros; discriminate|].
  split; [|split].
  - intros s v r. cbn [parse_value]. unfold keyword.
    repeat match goal with
           | |- context [match ?x with _ => _ end] =>
               match type of x with
               | sumbool _ _ => fail 1
               | _ => destruct x eqn:?
               end
           end; try discriminate; intros [= <- <-]; try reflexivity.
    + eapply IHe; eassumption.
    + apply wf_obj_of_members. eapply IHm; eassumption.
    + cbn [wf]. eapply parse_number_canonical; eassumption.
  - intros s l r. cbn [parse_elements]. unfold cons_to.
    repeat match goal with
           | |- context [match ?x with _ => _ end] => destruct x eqn:?
           end; try discriminate; intros [= <- <-]; cbn [forallb].
    + apply andb_true_iff. split; [eapply IHv|eapply IHe]; eassumption.
    + rewrite andb_true_r. eapply IHv; eassumption.
  - intros s ms r. cbn [parse_members]. unfold cons_to.
    repeat match goal with
           | |- context [match ?x with _ => _ end] => destruct x eqn:?
           end; try discriminate; intros [= <- <-]; cbn [forallb wf_member].
    + apply andb_true_iff. split; [eapply IHv|eapply IHm]; eassumption.
    + rewrite andb_true_r. eapply IHv; eassumption.
Qed.

(** Every value [JSON.parse] returns has distinct property names and
    numbers in lowest terms. *)
Theorem parse_wf (text : string) (v : json) :
  parse text = Some v -> wf v = true.
Proof.
  unfold parse.
  destruct (parse_value _ _) as [[v' r]|] eqn:H; [|discriminate].
  destruct (skip_ws r); [|discriminate]. intros [= <-].
  eapply parse_fuel_wf; eassumption.
Qed.

End ParseFacts.

(** ** The store: reading back what was written *)

Module StorageFacts.

Import RuleStorage.

Lemma keys_differ : STORAGE_KEY <> VERSION_KEY.
Proof. discriminate. Qed.

Lemma decode_encode (r : AuditRule.t) :
  AuditRule.decode (AuditRule.encode r) = Some r.
Proof. destruct r; reflexivity. Qed.

Lemma decode_all_encode (rs : list AuditRule.t) :
  AuditRule.decode_all (map AuditRule.encode rs) = Some rs.
Proof.
  induction rs as [|r rs IH]; [reflexivity|].
  cbn [map AuditRule.decode_all]. now rewrite decode_encode, IH.
Qed.

Lemma wf_encode (r : AuditRule.t) :
  AuditRule.well_formed r -> JSON.wf (AuditRule.encode r) = true.
Proof.
  intros (Hv & Hc & Hs). destruct r; cbn in *. now rewrite Hv, Hc, Hs.
Qed.

Lemma wf_encode_all (rs : list AuditRule.t) :
  Forall AuditRule.well_formed rs -> JSON.wf (AuditRule.encode_all rs) = true.
Proof.
  intros H. cbn [AuditRule.encode_all JSON.wf]. apply forallb_forall.
  intros v Hv. apply in_map_iff in Hv. destruct Hv as (r & <- & Hr).
  apply wf_encode. rewrite List.Forall_forall in H. now apply H.
Qed.

Lemma wf_assoc (l : list (string * json)) (k : string) (x : json) :
  forallb JSON.wf_member l = true -> JSON.assoc k l = Some x ->
  JSON.wf x = true.
Proof.
  induction l as [|[k' v] l IH]; [discriminate|].
  cbn [forallb JSON.assoc JSON.wf_member]. intros H.
  apply andb_true_iff in H. destruct H as [H1 H2].
  destruct (String.eqb k k'); [now intros [= <-]|now apply IH].
Qed.

Lemma wf_get (v : json) (k : string) (x : json) :
  JSON.wf v = true -> JSON.get k v = Some x -> JSON.wf x = true.
Proof.
  destruct v as [| | | | |l]; try discriminate. cbn [JSON.wf JSON.get].
  intros H. apply andb_true_iff in H. destruct H as [_ H].
  now apply wf_assoc.
Qed.

Lemma decode_wf (v : json) (r : AuditRule.t) :
  JSON.wf v = true -> AuditRule.decode v = Some r -> AuditRule.well_formed r.
Proof.
  intros Hwf. unfold AuditRule.decode, AuditRule.str_field,
    AuditRule.num_field, AuditRule.bool_field.
  destruct (JSON.get "id" v) as [[]|]; try discriminate.
  destruct (JSON.get "version" v) as [[| |n| | |]|] eqn:Hn; try discriminate.
  destruct (JSON.get "rule_type" v) as [[]|]; try discriminate.
  destruct (JSON.get "conditions" v) as [c|] eqn:Hc; try discriminate.
  destruct (JSON.get "action" v) as [[]|]; try discriminate.
  destruct (JSON.get "reason" v) as [[]|]; try discriminate.
  destruct (JSON.get "original_instruction" v) as [[]|]; try discriminate.
  destruct (JSON.get "created_at" v) as [[]|]; try discriminate.
  destruct (JSON.get "created_by" v) as [[]|]; try discriminate.
  destruct (JSON.get "is_active" v) as [[]|]; try discriminate.
  destruct (JSON.get "confidence_score" v) as [[| |n'| | |]|] eqn:Hs;
    try discriminate.
  intros [= <-]. repeat split; cbn.
  - exact (wf_get _ _ _ Hwf Hn).
  - exact (wf_get _ _ _ Hwf Hc).
  - exact (wf_get _ _ _ Hwf Hs).
Qed.

Lemma decode_all_wf (l : list json) (rs : list AuditRule.t) :
  forallb JSON.wf l = true -> AuditRule.decode_all l = Some rs ->
  Forall AuditRule.well_formed rs.
Proof.
  revert rs. induction l as [|v l IH]; intros rs; cbn [forallb AuditRule.decode_all].
  - intros _ [= <-]. constructor.
  - intros H. apply andb_true_iff in H. destruct H as [H1 H2].
    destruct (AuditRule.decode v) as [r|] eqn:Hr; [|discriminate].
    destruct (AuditRule.decode_all l) as [rs'|]; [|discriminate].
    intros [= <-]. constructor; [now apply (decode_wf v)|now apply IH].
Qed.

(** *** Reading *)

Lemma parse_or_empty_eq (E : Eff.Engine) (stored : option string) (ls : Storage) :
  parse_or_empty E stored ls
  = (match stored with
     | Some text =>
         if String.eqb text "" then Ok (JArr [])
         else match JSON.parse text with
              | Some v => Ok v
              | None => Throw (Thrown ESyntaxError (Eff.syntax_error_message E text))
              end
     | None => Ok (JArr [])
     end, ls).
Proof.
  unfold parse_or_empty, GeminiService.JSON_parse.
  destruct stored as [text|]; [|reflexivity].
  destruct (String.eqb text ""); [reflexivity|].
  now destruct (JSON.parse text).
Qed.

Lemma parse_or_empty_wf (E : Eff.Engine) (stored : option string) (ls : Storage)
      (v : json) :
  fst (parse_or_empty E stored ls) = Ok v -> JSON.wf v = true.
Proof.
  rewrite parse_or_empty_eq. cbn [fst]. destruct stored as [text|].
  - destruct (String.eqb text ""); [now intros [= <-]|].
    destruct (JSON.parse text) as [v'|] eqn:Hp; [|discriminate].
    intros [= <-]. now apply (ParseFacts.parse_wf text).
  - now intros [= <-].
Qed.

Lemma getAllRules_value_eq (E : Eff.Engine) (ls : Storage) :
  getAllRules_value E ls
  = (fst (parse_or_empty E (ls !! STORAGE_KEY) ls), ls).
Proof.
  unfold getAllRules_value, Eff.bind, getItem.
  now rewrite parse_or_empty_eq.
Qed.

Lemma getVersionHistory_eq (E : Eff.Engine) (ls : Storage) :
  getVersionHistory E ls
  = (fst (parse_or_empty E (ls !! VERSION_KEY) ls), ls).
Proof.
  unfold getVersionHistory, Eff.bind, getItem.
  now rewrite parse_or_empty_eq.
Qed.

Lemma getAllRules_eq (E : Eff.Engine) (ls : Storage) :
  getAllRules E ls
  = (match fst (getAllRules_value E ls) with
     | Ok (JArr l) =>
         match AuditRule.decode_all l with
         | Some rs => Ok rs
         | None => Throw outside_types
         end
     | Ok _ => Throw outside_types
     | Throw e => Throw e
     end, ls).
Proof.
  unfold getAllRules, Eff.bind. rewrite getAllRules_value_eq. cbn [fst].
  destruct (fst (parse_or_empty E (ls !! STORAGE_KEY) ls)) as [v|e];
    [|reflexivity].
  unfold as_rules. destruct v; try reflexivity.
  now destruct (AuditRule.decode_all l).
Qed.

Lemma holds_eq (E : Eff.Engine) (ls : Storage) (rules : list AuditRule.t) :
  holds E ls rules -> getAllRules E ls = (Ok rules, ls).
Proof.
  unfold holds. rewrite getAllRules_eq. cbn [fst]. now intros ->.
Qed.

Lemma holds_wf (E : Eff.Engine) (ls : Storage) (rules : list AuditRule.t) :
  holds E ls rules -> Forall AuditRule.well_formed rules.
Proof.
  unfold holds. rewrite getAllRules_eq, getAllRules_value_eq. cbn [fst].
  destruct (fst (parse_or_empty E (ls !! STORAGE_KEY) ls)) as [v|e] eqn:Hv;
    [|discriminate].
  apply parse_or_empty_wf in Hv.
  destruct v as [| | | |l|]; try discriminate.
  destruct (AuditRule.decode_all l) as [rs|] eqn:Hd; [|discriminate].
  intros [= <-]. now apply (decode_all_wf l).
Qed.

Lemma stores_holds (E : Eff.Engine) (ls : Storage) (rules : list AuditRule.t) :
  stores E ls rules -> holds E ls rules.
Proof.
  intros [H _]. unfold holds. rewrite getAllRules_eq, H.
  unfold AuditRule.encode_all. now rewrite decode_all_encode.
Qed.

Lemma stores_empty (E : Eff.Engine) : stores E ∅ [].
Proof. split; [reflexivity|constructor]. Qed.

(** *** Writing *)

Lemma read_after_write (E : Eff.Engine) (key : string) (v : json)
      (ls ls0 : Storage) :
  JSON.wf v = true ->
  fst (parse_or_empty E (<[key := JSON.stringify v]> ls !! key) ls0) = Ok v.
Proof.
  intros Hwf. rewrite lookup_insert_eq, parse_or_empty_eq. cbn [fst].
  change (JSON.stringify v) with (JSON.stringify_indent 0 v).
  rewrite JSONFacts.stringify_nonempty.
  now rewrite (JSONFacts.parse_stringify_indent 0 v Hwf).
Qed.

Lemma stores_after_write (E : Eff.Engine) (rules : list AuditRule.t) (ls : Storage) :
  Forall AuditRule.well_formed rules ->
  stores E (snd (write_rules rules ls)) rules.
Proof.
  intros Hwf. split; [|exact Hwf].
  unfold write_rules, setItem. cbn [snd]. rewrite getAllRules_value_eq. cbn [fst].
  rewrite parse_or_empty_eq.
  pose proof (read_after_write E STORAGE_KEY (AuditRule.encode_all rules) ls ls
                (wf_encode_all rules Hwf)) as H.
  now rewrite parse_or_empty_eq in H.
Qed.

Lemma stores_other_key (E : Eff.Engine) (rules : list AuditRule.t) (ls : Storage)
      (text : string) :
  stores E ls rules -> stores E (<[VERSION_KEY := text]> ls) rules.
Proof.
  intros [H Hwf]. split; [|exact Hwf].
  rewrite getAllRules_value_eq in *. cbn [fst] in *.
  rewrite lookup_insert_ne by (intros E'; symmetry in E'; now apply keys_differ).
  now rewrite parse_or_empty_eq in *.
Qed.

Lemma history_other_key (E : Eff.Engine) (ls : Storage) (text : string) :
  fst (getVersionHistory E (<[STORAGE_KEY := text]> ls))
  = fst (getVersionHistory E ls).
Proof.
  rewrite !getVersionHistory_eq. cbn [fst].
  rewrite lookup_insert_ne by apply keys_differ.
  now rewrite !parse_or_empty_eq.
Qed.

Lemma history_ok_other_key (E : Eff.Engine) (ls : Storage) (text : string) :
  history_ok E ls -> history_ok E (<[STORAGE_KEY := text]> ls).
Proof.
  intros [entries H]. exists entries. now rewrite history_other_key.
Qed.

Lemma history_ok_empty (E : Eff.Engine) : history_ok E ∅.
Proof. exists []. reflexivity. Qed.

End StorageFacts.

(** ** The store: what each operation does *)

Module OperationFacts.

Import RuleStorage StorageFacts.

Lemma set_active_wf (b : bool) (r : AuditRule.t) :
  AuditRule.well_formed r -> AuditRule.well_formed (AuditRule.set_active b r).
Proof. now destruct r. Qed.

Lemma find_wf (p : AuditRule.t -> bool) (rules : list AuditRule.t)
      (e : AuditRule.t) :
  Forall AuditRule.well_formed rules -> find p rules = Some e ->
  AuditRule.well_formed e.
Proof.
  intros H He. apply find_some in He. rewrite List.Forall_forall in H.
  now apply H.
Qed.

Lemma new_rule_wf (p : ParsedRule.t) (instr createdBy uuid now : string)
      (e : option AuditRule.t) :
  ParsedRule.representable p ->
  (forall e0, e = Some e0 -> AuditRule.well_formed e0) ->
  AuditRule.well_formed (new_rule p instr createdBy uuid now e).
Proof.
  intros (Hc & Hs) He. destruct e as [e0|]; cbn.
  - destruct (He e0 eq_refl) as (_ & Hc0 & _).
    repeat split; cbn; auto. apply NumberFacts.add_canonical.
  - repeat split; cbn; auto.
Qed.

Lemma updated_rules_wf (rules : list AuditRule.t) (e : option AuditRule.t)
      (new : AuditRule.t) :
  Forall AuditRule.well_formed rules ->
  (forall e0, e = Some e0 -> AuditRule.well_formed e0) ->
  AuditRule.well_formed new ->
  Forall AuditRule.well_formed (updated_rules rules e new).
Proof.
  intros Hr He Hn. unfold updated_rules. destruct e as [e0|].
  - apply Forall_app. split; [|now constructor].
    apply List.Forall_forall. intros x Hx. apply in_map_iff in Hx.
    destruct Hx as (r & <- & Hin).
    destruct (String.eqb _ _).
    + apply set_active_wf. now apply He.
    + rewrite List.Forall_forall in Hr. now apply Hr.
  - apply Forall_app. split; [exact Hr|now constructor].
Qed.

Lemma history_entry_wf (r : AuditRule.t) :
  AuditRule.well_formed r -> JSON.wf (history_entry r) = true.
Proof. intros (Hv & _). destruct r; cbn in *. now rewrite Hv. Qed.

(** Appending to the history log. *)
Lemma saveVersionHistory_spec (E : Eff.Engine) (rule : AuditRule.t) (ls : Storage) :
  history_ok E ls -> AuditRule.well_formed rule ->
  exists text,
    saveVersionHistory E rule ls = (Ok tt, <[VERSION_KEY := text]> ls)
    /\ history_ok E (<[VERSION_KEY := text]> ls).
Proof.
  intros [entries H] Hwf. unfold saveVersionHistory, Eff.bind.
  rewrite getVersionHistory_eq in *. cbn [fst] in H. rewrite H.
  eexists. split; [reflexivity|].
  exists (entries ++ [history_entry rule]).
  rewrite getVersionHistory_eq. cbn [fst].
  apply read_after_write. cbn [JSON.wf]. rewrite forallb_app.
  apply parse_or_empty_wf in H. cbn [JSON.wf] in H. rewrite H.
  cbn [forallb]. now rewrite history_entry_wf.
Qed.

(** [saveRule] on a typed store with a history log: it returns the new
    rule and leaves the updated array in the store. *)
Lemma saveRule_spec (E : Eff.Engine) (p : ParsedRule.t) (instr : string)
      (createdBy : option string) (uuid now : string)
      (ls : Storage) (rules : list AuditRule.t) :
  holds E ls rules -> history_ok E ls -> ParsedRule.representable p ->
  exists ls',
    saveRule E p instr createdBy uuid now ls
    = (Ok (new_rule p instr (default "system" createdBy) uuid now
                    (find (matches p) rules)), ls')
    /\ stores E ls'
         (updated_rules rules (find (matches p) rules)
            (new_rule p instr (default "system" createdBy) uuid now
                      (find (matches p) rules)))
    /\ history_ok E ls'.
Proof.
  intros Hholds Hhist Hp.
  pose proof (holds_wf _ _ _ Hholds) as Hwf.
  set (e := find (matches p) rules).
  set (new := new_rule p instr (default "system" createdBy) uuid now e).
  assert (He : forall e0, e = Some e0 -> AuditRule.well_formed e0)
    by (intros e0 H; now apply (find_wf (matches p) rules)).
  assert (Hnew : AuditRule.well_formed new) by now apply new_rule_wf.
  assert (Hupd : Forall AuditRule.well_formed (updated_rules rules e new))
    by now apply updated_rules_wf.
  unfold saveRule, Eff.bind. rewrite (holds_eq _ _ _ Hholds).
  fold e. fold new.
  pose proof (stores_after_write E _ ls Hupd) as Hst.
  unfold write_rules, setItem in *. cbn [snd] in Hst.
  set (ls1 := <[STORAGE_KEY := JSON.stringify
                  (AuditRule.encode_all (updated_rules rules e new))]> ls) in *.
  destruct (saveVersionHistory_spec E new ls1) as (text & Hsave & Hh);
    [now apply history_ok_other_key|exact Hnew|].
  rewrite Hsave. eexists. split; [reflexivity|].
  split; [now apply stores_other_key|exact Hh].
Qed.

Lemma set_active_at_wf (i : nat) (b : bool) (rules : list AuditRule.t) :
  Forall AuditRule.well_formed rules ->
  Forall AuditRule.well_formed (set_active_at i b rules).
Proof.
  intros H. unfold set_active_at.
  destruct (rules !! i) as [r|] eqn:Hr; [|exact H].
  apply Forall_insert; [exact H|].
  apply set_active_wf. eapply Forall_lookup_1; eassumption.
Qed.

Lemma deactivate_type_wf (ty : string) (rules : list AuditRule.t) :
  Forall AuditRule.well_formed rules ->
  Forall AuditRule.well_formed (deactivate_type ty rules).
Proof.
  intros H. unfold deactivate_type. apply List.Forall_forall.
  intros x Hx. apply in_map_iff in Hx. destruct Hx as (r & <- & Hin).
  rewrite List.Forall_forall in H.
  destruct (_ && _); [apply set_active_wf|]; now apply H.
Qed.

(** [deactivateRule] on a typed store. *)
Lemma deactivateRule_spec (E : Eff.Engine) (id : string)
      (ls : Storage) (rules : list AuditRule.t) :
  holds E ls rules ->
  match findIndex (fun rule => String.eqb (AuditRule.id rule) id) rules with
  | None => deactivateRule E id ls = (Ok false, ls)
  | Some i =>
      exists ls',
        deactivateRule E id ls = (Ok true, ls')
        /\ stores E ls' (set_active_at i false rules)
        /\ (history_ok E ls -> history_ok E ls')
  end.
Proof.
  intros Hholds. pose proof (holds_wf _ _ _ Hholds) as Hwf.
  unfold deactivateRule, Eff.bind. rewrite (holds_eq _ _ _ Hholds).
  destruct (findIndex _ rules) as [i|]; [|reflexivity].
  eexists. split; [reflexivity|]. split.
  - apply stores_after_write. now apply set_active_at_wf.
  - apply history_ok_other_key.
Qed.

(** [rollbackToVersion] on a typed store. *)
Lemma rollbackToVersion_spec (E : Eff.Engine) (ty : string) (v : number)
      (ls : Storage) (rules : list AuditRule.t) :
  holds E ls rules ->
  match findIndex (is_target ty v) rules with
  | None => rollbackToVersion E ty v ls = (Ok None, ls)
  | Some i =>
      exists ls',
        rollbackToVersion E ty v ls
        = (Ok (set_active_at i true (deactivate_type ty rules) !! i), ls')
        /\ stores E ls' (set_active_at i true (deactivate_type ty rules))
        /\ (history_ok E ls -> history_ok E ls')
  end.
Proof.
  intros Hholds. pose proof (holds_wf _ _ _ Hholds) as Hwf.
  unfold rollbackToVersion, Eff.bind. rewrite (holds_eq _ _ _ Hholds).
  destruct (findIndex _ rules) as [i|]; [|reflexivity].
  eexists. split; [reflexivity|]. split.
  - apply stores_after_write. now apply set_active_at_wf, deactivate_type_wf.
  - apply history_ok_other_key.
Qed.

Lemma findIndex_none {A} (p : A -> bool) (l : list A) :
  findIndex p l = None <-> forall x, In x l -> p x = false.
Proof.
  induction l as [|y l IH]; cbn [findIndex].
  - split; [intros _ x []|reflexivity].
  - destruct (p y) eqn:Hy.
    + split; [discriminate|]. intros H. specialize (H y (or_introl eq_refl)).
      congruence.
    + destruct (findIndex p l) as [i|]; cbn [option_map].
      * split; [discriminate|]. intros H. exfalso.
        assert (Hl : forall x, In x l -> p x = false)
          by (intros x Hx; apply H; now right).
        apply IH in Hl. discriminate.
      * split; [|reflexivity]. intros _ x [<-|Hx]; [exact Hy|].
        now apply IH.
Qed.

Lemma findIndex_some {A} (p : A -> bool) (l : list A) (i : nat) :
  findIndex p l = Some i ->
  exists x, l !! i = Some x /\ p x = true
            /\ forall j y, (j < i)%nat -> l !! j = Some y -> p y = false.
Proof.
  revert i. induction l as [|y l IH]; intros i; cbn [findIndex]; [discriminate|].
  destruct (p y) eqn:Hy.
  - intros [= <-]. exists y. repeat split; auto. intros j z Hj. lia.
  - destruct (findIndex p l) as [i'|]; cbn [option_map]; [|discriminate].
    intros [= <-]. destruct (IH i' eq_refl) as (x & Hx & Hpx & Hlt).
    exists x. repeat split; auto.
    intros [|j] z Hj Hz; cbn in Hz; [congruence|].
    apply (Hlt j); [lia|exact Hz].
Qed.

End OperationFacts.

(** ** Rollback *)

Module RollbackFacts.

Import RuleStorage StorageFacts OperationFacts.

Lemma lookup_map {A B} (f : A -> B) (l : list A) (j : nat) :
  map f l !! j = option_map f (l !! j).
Proof.
  revert j. induction l as [|x l IH]; intros [|j]; cbn; auto.
Qed.

Lemma set_active_same (r : AuditRule.t) :
  AuditRule.set_active (AuditRule.is_active r) r = r.
Proof. now destruct r. Qed.

Lemma is_target_true (ty : string) (v : number) (r : AuditRule.t) :
  is_target ty v r = true <-> AuditRule.rule_type r = ty /\ AuditRule.version r = v.
Proof.
  unfold is_target. now rewrite andb_true_iff, String.eqb_eq, NumberFacts.eqb_eq.
Qed.

(** The array after a rollback whose target sits at index [i]. *)
Lemma rolled_back_lookup (ty : string) (i : nat) (rules : list AuditRule.t)
      (x : AuditRule.t) :
  rules !! i = Some x -> AuditRule.rule_type x = ty ->
  set_active_at i true (deactivate_type ty rules) !! i
  = Some (AuditRule.set_active true x)
  /\ forall j r, rules !! j = Some r -> j <> i ->
       set_active_at i true (deactivate_type ty rules) !! j
       = Some (if String.eqb (AuditRule.rule_type r) ty
               then AuditRule.set_active false r else r).
Proof.
  intros Hx Hty.
  assert (Hd : forall j r, rules !! j = Some r ->
             deactivate_type ty rules !! j
             = Some (if String.eqb (AuditRule.rule_type r) ty
                     then AuditRule.set_active false r else r)).
  { intros j r Hr. unfold deactivate_type. rewrite lookup_map, Hr. cbn.
    f_equal. destruct (String.eqb _ _); [|reflexivity].
    destruct (AuditRule.is_active r) eqn:Ha; cbn; [reflexivity|].
    now rewrite <- Ha, set_active_same. }
  unfold set_active_at. rewrite (Hd i x Hx).
  assert (Hlen : (i < length (deactivate_type ty rules))%nat).
  { unfold deactivate_type. rewrite length_map. now apply lookup_lt_Some in Hx. }
  split.
  - rewrite list_lookup_insert_eq by exact Hlen.
    f_equal. now destruct (String.eqb _ _), x.
  - intros j r Hr Hj. rewrite list_lookup_insert_ne by congruence.
    now apply Hd.
Qed.

End RollbackFacts.



(** C10.  A successful rollback deactivates by rule type alone.  The
    returned target is active and has the requested rule type and version;
    every other stored rule of that rule type is inactive afterwards,
    whatever its conditions, and rules of other types are untouched.  In
    particular an active rule of the same rule type whose conditions differ
    from the target's (another lineage) is deactivated. *)
Theorem rollback_deactivates_by_rule_type
        (E : Eff.Engine) (ruleType : string) (version : number)
        (ls ls' : RuleStorage.Storage) (rules : list AuditRule.t)
        (target : AuditRule.t) :
  RuleStorage.holds E ls rules ->
  RuleStorage.rollbackToVersion E ruleType version ls = (Ok (Some target), ls') ->
  exists (i : nat) (rules' : list AuditRule.t),
    RuleStorage.holds E ls' rules'
    /\ rules' !! i = Some target
    /\ AuditRule.is_active target = true
    /\ AuditRule.rule_type target = ruleType
    /\ AuditRule.version target = version
    /\ (forall j r, rules !! j = Some r -> j <> i ->
          rules' !! j
          = Some (if String.eqb (AuditRule.rule_type r) ruleType
                  then AuditRule.set_active false r else r))
    /\ (forall j r, rules !! j = Some r ->
          AuditRule.rule_type r = ruleType -> AuditRule.is_active r = true ->
          AuditRule.conditions r <> AuditRule.conditions target ->
          rules' !! j = Some (AuditRule.set_active false r)).
Proof.
  intros Hholds Hroll.
  pose proof (OperationFacts.rollbackToVersion_spec E ruleType version ls rules
                Hholds) as Hspec.
  destruct (RuleStorage.findIndex (RuleStorage.is_target ruleType version) rules)
    as [i|] eqn:Hfind; [|rewrite Hspec in Hroll; discriminate].
  destruct Hspec as (ls1 & Heq & Hstores & _).
  rewrite Heq in Hroll. injection Hroll as Htarget <-.
  apply OperationFacts.findIndex_some in Hfind.
  destruct Hfind as (x & Hx & Htx & _).
  apply RollbackFacts.is_target_true in Htx. destruct Htx as [Hty Hv].
  destruct (RollbackFacts.rolled_back_lookup ruleType i rules x Hx Hty)
    as [Hi Hothers].
  rewrite Hi in Htarget. injection Htarget as <-.
  exists i, (RuleStorage.set_active_at i true
               (RuleStorage.deactivate_type ruleType rules)).
  split; [now apply StorageFacts.stores_holds|].
  split; [exact Hi|].
  split; [reflexivity|]. split; [now destruct x|]. split; [now destruct x|].
  split; [exact Hothers|].
  intros j r Hr Hrt _ Hcond.
  assert (Hj : j <> i).
  { intros ->. rewrite Hx in Hr. injection Hr as <-. apply Hcond.
    now destruct x. }
  rewrite (Hothers j r Hr Hj).
  apply String.eqb_eq in Hrt. now rewrite Hrt.
Qed.

Lemma rollback_deactivates_by_rule_type_witness :
  exists rules',
    RuleStorage.holds Samples.engine
      (snd (RuleStorage.rollbackToVersion
              Samples.engine "time_based" (Num 1 0)
              (Samples.store_of Samples.two_lineages))) rules'
    /\ rules' !! 1%nat = Some (Samples.rule "b1" 2 Samples.before_six false).
Proof.
  destruct (rollback_deactivates_by_rule_type
              Samples.engine "time_based" (Num 1 0)
              (Samples.store_of Samples.two_lineages)
              (snd (RuleStorage.rollbackToVersion
                      Samples.engine "time_based" (Num 1 0)
                      (Samples.store_of Samples.two_lineages)))
              Samples.two_lineages
              (Samples.rule "a1" 1 Samples.after_ten true))
    as (i & rules' & Hholds & _ & _ & _ & _ & _ & Hother).
  - vm_compute. reflexivity.
  - vm_compute. reflexivity.
  - exists rules'. split; [exact Hholds|].
    apply (Hother 1%nat (Samples.rule "b1" 2 Samples.before_six true)).
    + reflexivity.
    + reflexivity.
    + reflexivity.
    + vm_compute. discriminate.
Defined.

(** ** Import *)

Module ImportFacts.

Import RuleStorage StorageFacts.

Lemma importRules_cases (E : Eff.Engine) (payload : string) (ls : Storage) :
  importRules E payload ls
  = match JSON.parse payload with
    | Some (JArr elements) =>
        match GeminiService.every (importable E) elements with
        | Ok true => (Ok true, <[STORAGE_KEY := payload]> ls)
        | _ => (Ok false, ls)
        end
    | _ => (Ok false, ls)
    end.
Proof.
  unfold importRules, Eff.try_catch, Eff.bind, GeminiService.JSON_parse.
  destruct (JSON.parse payload) as [[| | | |elements|]|]; try reflexivity.
  unfold Eff.ret, Eff.lift.
  now destruct (GeminiService.every (importable E) elements) as [[|]|e].
Qed.

Lemma importable_true (E : Eff.Engine) (x : json) :
  importable E x = Ok true <-> ~ lacking x.
Proof.
  assert (Hbool : forall b1 b2 b3 b4 (o : option json),
             b1 && b2 && b3 && b4 && bool_decide (is_Some o) = true
             <-> ~ (b1 = false \/ b2 = false \/ b3 = false \/ b4 = false
                    \/ o = None)).
  { intros [] [] [] [] [v|]; cbn; split; try tauto; try discriminate;
      try (intros H; exfalso; apply H; tauto).
    intros _ [H|[H|[H|[H|H]]]]; discriminate. }
  unfold lacking. destruct x;
    try (unfold importable; rewrite <- Hbool; split; congruence).
  cbn. split; [discriminate|]. intros H. exfalso. apply H. now left.
Qed.

Lemma every_true (p : json -> Eff.outcome bool) (l : list json) :
  GeminiService.every p l = Ok true <-> Forall (fun x => p x = Ok true) l.
Proof.
  induction l as [|x l IH]; cbn [GeminiService.every].
  - split; [constructor|reflexivity].
  - destruct (p x) as [[|]|e] eqn:Hx.
    + rewrite IH. split; [now constructor|]. intros H. now inversion H.
    + split; [discriminate|]. intros H. inversion H. congruence.
    + split; [discriminate|]. intros H. inversion H. congruence.
Qed.

Lemma every_importable (E : Eff.Engine) (l : list json) :
  GeminiService.every (importable E) l = Ok true
  <-> Forall (fun x => ~ lacking x) l.
Proof.
  rewrite every_true. split; intros H; eapply Forall_impl; try exact H;
    intros x Hx; now apply (importable_true E).
Qed.

Lemma parse_empty_text : JSON.parse "" = None.
Proof. reflexivity. Qed.

End ImportFacts.

(** C6, as the sources have it.  [importRules] is all or nothing.  When the
    payload does not parse, is not a sequence, or has an element that lacks
    a truthy [id], [rule_type], [conditions] or [action] (absent, [null],
    [false], [0] or the empty string; a sequence, even an empty one, is
    truthy) or lacks [version], it returns [false] and the store is exactly
    as before.  Otherwise it returns [true] and the rules entry of the store
    becomes the payload itself, so that [getAllRules] yields the elements
    of the payload and nothing of the prior contents.

    The payload is assumed to be a text that [JSON.parse] of this model
    reads as the run time does ([JSON.reads_alike]: no escape above
    [00FF], plain numbers). *)
Theorem import_all_or_nothing
        (E : Eff.Engine) (payload : string) (ls : RuleStorage.Storage) :
  JSON.reads_alike payload = true ->
  (JSON.parse payload = None -> RuleStorage.importRules E payload ls = (Ok false, ls))
  /\ (forall v, JSON.parse payload = Some v -> JSON.is_array v = false ->
                RuleStorage.importRules E payload ls = (Ok false, ls))
  /\ (forall elements,
         JSON.parse payload = Some (JArr elements) ->
         Exists RuleStorage.lacking elements ->
         RuleStorage.importRules E payload ls = (Ok false, ls))
  /\ (forall elements,
         JSON.parse payload = Some (JArr elements) ->
         Forall (fun x => ~ RuleStorage.lacking x) elements ->
         RuleStorage.importRules E payload ls
         = (Ok true, <[RuleStorage.STORAGE_KEY := payload]> ls)
         /\ RuleStorage.getAllRules_value
              E (<[RuleStorage.STORAGE_KEY := payload]> ls)
            = (Ok (JArr elements), <[RuleStorage.STORAGE_KEY := payload]> ls)).
Proof.
  intros _.
  rewrite ImportFacts.importRules_cases. split; [|split; [|split]].
  - now intros ->.
  - intros v -> Hv. now destruct v.
  - intros elements -> Hex.
    destruct (GeminiService.every (RuleStorage.importable E) elements)
      as [[|]|e] eqn:Hev; try reflexivity.
    apply ImportFacts.every_importable in Hev.
    apply List.Exists_exists in Hex. destruct Hex as (x & Hx & Hl).
    rewrite List.Forall_forall in Hev. exfalso. now apply (Hev x).
  - intros elements Hp Hall. apply (ImportFacts.every_importable E) in Hall.
    rewrite Hp, Hall.
    split; [reflexivity|]. rewrite StorageFacts.getAllRules_value_eq.
    rewrite lookup_insert_eq, StorageFacts.parse_or_empty_eq. cbn [fst].
    destruct (String.eqb payload "") eqn:He.
    + apply String.eqb_eq in He. subst payload.
      rewrite ImportFacts.parse_empty_text in Hp. discriminate.
    + now rewrite Hp.
Qed.

Lemma import_all_or_nothing_witness :
  RuleStorage.importRules
    Samples.engine Samples.missing_action_payload
    (Samples.store_of Samples.two_lineages)
  = (Ok false, Samples.store_of Samples.two_lineages).
Proof.
  destruct (import_all_or_nothing
              Samples.engine Samples.missing_action_payload
              (Samples.store_of Samples.two_lineages)) as (_ & _ & H & _).
  { vm_compute. reflexivity. }
  eapply H.
  - vm_compute. reflexivity.
  - apply Exists_cons_tl, Exists_cons_hd.
    right. right. right. left. vm_compute. reflexivity.
Defined.

(** C6 as stated fails for "non-empty" read literally: an element whose
    [conditions] is the empty sequence is accepted, and the store is
    overwritten. *)
Lemma import_empty_conditions_counterexample :
  exists element,
    JSON.parse Samples.empty_conditions_payload = Some (JArr [element])
    /\ Spec.empty_field (JSON.get "conditions" element) = true
    /\ RuleStorage.importRules
         Samples.engine Samples.empty_conditions_payload
         (Samples.store_of Samples.two_lineages)
       = (Ok true,
          <[RuleStorage.STORAGE_KEY := Samples.empty_conditions_payload]>
            (Samples.store_of Samples.two_lineages)).
Proof.
  eexists. split; [vm_compute; reflexivity|].
  split; [reflexivity|].
  rewrite ImportFacts.importRules_cases. vm_compute. reflexivity.
Qed.

(** ** Histories of operations *)

Module HistoryFacts.

Import RuleStorage StorageFacts OperationFacts.

(** One operation on a store that holds the encoding of [rules]. *)
Lemma step_spec (E : Eff.Engine) (o : op) (ls : Storage)
      (rules : list AuditRule.t) :
  stores E ls rules -> history_ok E ls -> representable_op o ->
  stores E (step E o ls) (next_rules o rules) /\ history_ok E (step E o ls).
Proof.
  intros Hst Hh Ho. pose proof (stores_holds _ _ _ Hst) as Hholds.
  destruct o as [p instr by_ uuid now|ty v|i]; cbn [step next_rules].
  - destruct (saveRule_spec E p instr by_ uuid now ls rules Hholds Hh Ho)
      as (ls' & -> & Hst' & Hh').
    now split.
  - pose proof (rollbackToVersion_spec E ty v ls rules Hholds) as Hspec.
    destruct (findIndex (is_target ty v) rules) as [i|].
    + destruct Hspec as (ls' & -> & Hst' & Hh'). split; auto.
    + rewrite Hspec. now split.
  - pose proof (deactivateRule_spec E i ls rules Hholds) as Hspec.
    destruct (findIndex _ rules) as [j|].
    + destruct Hspec as (ls' & -> & Hst' & Hh'). split; auto.
    + rewrite Hspec. now split.
Qed.

Lemma run_spec (E : Eff.Engine) (ops : list op) :
  Forall representable_op ops ->
  forall ls rules,
    stores E ls rules -> history_ok E ls ->
    stores E (run E ops ls) (fold_left (fun rs o => next_rules o rs) ops rules)
    /\ history_ok E (run E ops ls).
Proof.
  induction 1 as [|o ops Ho _ IH]; intros ls rules Hst Hh; [now split|].
  cbn [run fold_left]. destruct (step_spec E o ls rules Hst Hh Ho) as [Hst' Hh'].
  now apply IH.
Qed.

(** The store after a history that starts from the empty store. *)
Lemma run_from_empty (E : Eff.Engine) (ops : list op) :
  Forall representable_op ops ->
  stores E (run E ops ∅) (contents ops) /\ history_ok E (run E ops ∅).
Proof.
  intros H. apply (run_spec E ops H); [apply stores_empty|apply history_ok_empty].
Qed.

Lemma contents_snoc (ops : list op) (o : op) :
  contents (ops ++ [o]) = next_rules o (contents ops).
Proof. unfold contents. now rewrite fold_left_app. Qed.

Lemma uuids_snoc (ops : list op) (o : op) :
  uuids (ops ++ [o]) = uuids ops ++ uuids [o].
Proof. unfold uuids. now rewrite flat_map_app. Qed.

(** *** Properties kept by every operation *)

Lemma set_active_at_Forall (Q : AuditRule.t -> Prop) (i : nat) (b : bool)
      (rules : list AuditRule.t) :
  (forall b r, Q r -> Q (AuditRule.set_active b r)) ->
  Forall Q rules -> Forall Q (set_active_at i b rules).
Proof.
  intros HQ H. unfold set_active_at.
  destruct (rules !! i) as [r|] eqn:Hr; [|exact H].
  apply Forall_insert; [exact H|].
  apply HQ. eapply Forall_lookup_1; eassumption.
Qed.

Lemma deactivate_type_Forall (Q : AuditRule.t -> Prop) (ty : string)
      (rules : list AuditRule.t) :
  (forall b r, Q r -> Q (AuditRule.set_active b r)) ->
  Forall Q rules -> Forall Q (deactivate_type ty rules).
Proof.
  intros HQ H. unfold deactivate_type. apply List.Forall_forall.
  intros x Hx. apply in_map_iff in Hx. destruct Hx as (r & <- & Hin).
  rewrite List.Forall_forall in H.
  destruct (_ && _); [apply HQ|]; now apply H.
Qed.

Lemma updated_rules_Forall (Q : AuditRule.t -> Prop) (rules : list AuditRule.t)
      (e : option AuditRule.t) (new : AuditRule.t) :
  (forall b r, Q r -> Q (AuditRule.set_active b r)) ->
  Forall Q rules -> (forall e0, e = Some e0 -> Q e0) -> Q new ->
  Forall Q (updated_rules rules e new).
Proof.
  intros HQ Hr He Hn. unfold updated_rules. destruct e as [e0|].
  - apply Forall_app. split; [|now constructor].
    apply List.Forall_forall. intros x Hx. apply in_map_iff in Hx.
    destruct Hx as (r & <- & Hin).
    destruct (String.eqb _ _).
    + apply HQ. now apply He.
    + rewrite List.Forall_forall in Hr. now apply Hr.
  - apply Forall_app. split; [exact Hr|now constructor].
Qed.

(** A property of rules that does not depend on [is_active], and that a new
    rule has whenever the rule it supersedes has it, holds throughout a
    history. *)
Lemma next_rules_Forall (Q : AuditRule.t -> Prop) (o : op)
      (rules : list AuditRule.t) :
  (forall b r, Q r -> Q (AuditRule.set_active b r)) ->
  (forall p instr by_ uuid now e,
      o = Save p instr by_ uuid now ->
      (forall e0, e = Some e0 -> Q e0) ->
      Q (new_rule p instr (default "system" by_) uuid now e)) ->
  Forall Q rules -> Forall Q (next_rules o rules).
Proof.
  intros HQ Hnew Hr. destruct o as [p instr by_ uuid now|ty v|i];
    cbn [next_rules].
  - assert (He : forall e0, find (matches p) rules = Some e0 -> Q e0).
    { intros e0 H. apply find_some in H. rewrite List.Forall_forall in Hr.
      now apply Hr. }
    apply updated_rules_Forall; auto.
  - destruct (findIndex _ rules); [|exact Hr].
    now apply set_active_at_Forall, deactivate_type_Forall.
  - destruct (findIndex _ rules); [|exact Hr].
    now apply set_active_at_Forall.
Qed.

Lemma contents_Forall (Q : AuditRule.t -> Prop) (ops : list op) :
  (forall b r, Q r -> Q (AuditRule.set_active b r)) ->
  (forall p instr by_ uuid now e,
      In (Save p instr by_ uuid now) ops ->
      (forall e0, e = Some e0 -> Q e0) ->
      Q (new_rule p instr (default "system" by_) uuid now e)) ->
  Forall Q (contents ops).
Proof.
  intros HQ. induction ops as [|o ops IH] using rev_ind; intros Hnew.
  - constructor.
  - rewrite contents_snoc. apply next_rules_Forall; auto.
    + intros p instr by_ uuid now e -> He. apply Hnew; auto.
      apply in_or_app. right. now left.
    + apply IH. intros p instr by_ uuid now e Hin He. apply Hnew; auto.
      apply in_or_app. now left.
Qed.

(** Versions are positive integers throughout. *)
Lemma contents_positive (ops : list op) :
  Forall (fun r => Number.is_positive_integer (AuditRule.version r))
         (contents ops).
Proof.
  apply contents_Forall.
  - intros b r H. now destruct r.
  - intros p instr by_ uuid now [e0|] _ He; cbn.
    + destruct (He e0 eq_refl) as (k & Hk & ->).
      exists (k + 1). split; [lia|apply NumberFacts.add_one].
    + exists 1. split; [lia|reflexivity].
Qed.

End HistoryFacts.

(** ** Lineages under saves *)

Module LineageFacts.

Import RuleStorage StorageFacts OperationFacts HistoryFacts.

Lemma of_Z_inj (a b : Z) : Number.of_Z a = Number.of_Z b -> a = b.
Proof. now intros [= ->]. Qed.

Lemma same_lineage_sym (a b : AuditRule.t) :
  AuditRule.same_lineage a b -> AuditRule.same_lineage b a.
Proof. intros [H1 H2]. now split. Qed.

Lemma same_lineage_trans (a b c : AuditRule.t) :
  AuditRule.same_lineage a b -> AuditRule.same_lineage b c ->
  AuditRule.same_lineage a c.
Proof. intros [H1 H2] [H3 H4]. split; congruence. Qed.

(** The lineage test of [saveRule] compares the signature. *)
Lemma matches_iff (p : ParsedRule.t) (r : AuditRule.t) :
  JSON.wf (AuditRule.conditions r) = true ->
  JSON.wf (ParsedRule.conditions p) = true ->
  matches p r = true
  <-> AuditRule.rule_type r = ParsedRule.rule_type p
      /\ AuditRule.is_active r = true
      /\ AuditRule.conditions r = ParsedRule.conditions p.
Proof.
  intros Hr Hp. unfold matches.
  rewrite !andb_true_iff, !String.eqb_eq. split.
  - intros [[H1 H2] H3]. repeat split; auto.
    now apply JSONFacts.stringify_inj.
  - intros (H1 & H2 & H3). repeat split; auto. now rewrite H3.
Qed.

Lemma NoDup_map_eq {A B} (f : A -> B) (l : list A) (a b : A) :
  List.NoDup (map f l) -> In a l -> In b l -> f a = f b -> a = b.
Proof.
  induction l as [|x l IH]; [intros _ []|].
  cbn [map]. intros Hnd Ha Hb Hf.
  inversion Hnd as [|? ? Hx Hl]; subst.
  destruct Ha as [<-|Ha], Hb as [<-|Hb]; auto.
  - exfalso. apply Hx. rewrite Hf. now apply in_map.
  - exfalso. apply Hx. rewrite <- Hf. now apply in_map.
Qed.

Lemma ids_updated (rules : list AuditRule.t) (e : option AuditRule.t)
      (new : AuditRule.t) :
  map AuditRule.id (updated_rules rules e new)
  = map AuditRule.id rules ++ [AuditRule.id new].
Proof.
  unfold updated_rules. destruct e as [e0|]; rewrite map_app; f_equal.
  rewrite map_map. apply map_ext. intros r.
  destruct (String.eqb (AuditRule.id r) (AuditRule.id e0)) eqn:H;
    [|reflexivity].
  apply String.eqb_eq in H. now destruct e0.
Qed.

Lemma in_updated_some (rules : list AuditRule.t) (e0 new x : AuditRule.t) :
  In x (updated_rules rules (Some e0) new) ->
  x = new
  \/ x = AuditRule.set_active false e0
  \/ (In x rules /\ AuditRule.id x <> AuditRule.id e0).
Proof.
  unfold updated_rules. intros H. apply in_app_or in H.
  destruct H as [H|[<-|[]]]; [|now left].
  apply in_map_iff in H. destruct H as (r & <- & Hr).
  destruct (String.eqb (AuditRule.id r) (AuditRule.id e0)) eqn:Hid.
  - right. now left.
  - right. right. split; [exact Hr|]. now apply String.eqb_neq.
Qed.

Lemma updated_some_old (rules : list AuditRule.t) (e0 new x : AuditRule.t) :
  In x rules -> AuditRule.id x <> AuditRule.id e0 ->
  In x (updated_rules rules (Some e0) new).
Proof.
  intros Hx Hid. unfold updated_rules. apply in_or_app. left.
  apply in_map_iff. exists x. split; [|exact Hx].
  apply String.eqb_neq in Hid. now rewrite Hid.
Qed.

Lemma updated_some_superseded (rules : list AuditRule.t) (e0 new : AuditRule.t) :
  In e0 rules ->
  In (AuditRule.set_active false e0) (updated_rules rules (Some e0) new).
Proof.
  intros He. unfold updated_rules. apply in_or_app. left.
  apply in_map_iff. exists e0. split; [|exact He].
  now rewrite String.eqb_refl.
Qed.

Lemma updated_new (rules : list AuditRule.t) (e : option AuditRule.t)
      (new : AuditRule.t) :
  In new (updated_rules rules e new).
Proof.
  unfold updated_rules. destruct e; apply in_or_app; right; now left.
Qed.

(** A save that supersedes the active rule [e0] of its lineage. *)
Lemma new_version_keeps_order (p : ParsedRule.t)
      (instr createdBy uuid now : string)
      (rules : list AuditRule.t) (e0 : AuditRule.t) :
  lineages_ordered rules -> ParsedRule.representable p ->
  ~ In uuid (map AuditRule.id rules) ->
  In e0 rules -> AuditRule.is_active e0 = true ->
  let new := new_rule p instr createdBy uuid now (Some e0) in
  lineages_ordered (updated_rules rules (Some e0) new)
  /\ (exists k, 1 <= k /\ AuditRule.version new = Number.of_Z k)
  /\ (forall r, In r rules -> AuditRule.same_lineage r new ->
         Number.ltb (AuditRule.version r) (AuditRule.version new) = true).
Proof.
  intros (Hnd & Huniq & Hmax & Hwf) Hp Hfresh He0 Hact new.
  assert (He0wf : AuditRule.well_formed e0)
    by (rewrite List.Forall_forall in Hwf; now apply Hwf).
  destruct (Hmax e0 He0) as (a & k & kr & Ha & Haact & Hal & Hav & Hev & Hk).
  assert (a = e0) by (apply Huniq; auto). subst a.
  assert (kr = k) by (apply of_Z_inj; congruence). subst kr. clear Hev.
  assert (Hnv : AuditRule.version new = Number.of_Z (k + 1))
    by (cbn; rewrite Hav; apply NumberFacts.add_one).
  assert (Hnl : AuditRule.same_lineage new e0) by (split; reflexivity).
  assert (Hnact : AuditRule.is_active new = true) by exact Hact.
  assert (Hnid : AuditRule.id new = uuid) by reflexivity.
  assert (Hnwf : AuditRule.well_formed new).
  { apply new_rule_wf; [exact Hp|]. now intros ? [= <-]. }
  (* members of a lineage that has e0 are below it *)
  assert (Hbelow : forall r, In r rules -> AuditRule.same_lineage r e0 ->
                     exists kr, AuditRule.version r = Number.of_Z kr
                                /\ 1 <= kr <= k).
  { intros r Hr Hl.
    destruct (Hmax r Hr) as (a & k' & kr & Ha' & Haact' & Hal' & Hav' & Hrv & Hk').
    assert (a = e0).
    { apply Huniq; auto. eapply same_lineage_trans; eassumption. }
    subst a. assert (k' = k) by (apply of_Z_inj; congruence). subst k'.
    now exists kr. }
  split; [|split].
  - split; [|split; [|split]].
    + (* identifiers stay distinct *)
      rewrite ids_updated, Hnid.
      apply List.NoDup_app; [exact Hnd|repeat constructor; intros []|].
      intros x Hx [<-|[]]. now apply Hfresh.
    + (* one active rule per lineage *)
      intros x y Hx Hy Hxa Hya Hl.
      apply in_updated_some in Hx. apply in_updated_some in Hy.
      destruct Hx as [->|[->|[Hx Hxid]]]; [|discriminate|];
        (destruct Hy as [->|[->|[Hy Hyid]]]; [|discriminate|]).
      * reflexivity.
      * exfalso. apply Hyid. f_equal.
        assert (AuditRule.same_lineage y e0)
          by (eapply same_lineage_trans; [apply same_lineage_sym, Hl|exact Hnl]).
        now apply Huniq.
      * exfalso. apply Hxid. f_equal.
        assert (AuditRule.same_lineage x e0)
          by (eapply same_lineage_trans; [exact Hl|exact Hnl]).
        now apply Huniq.
      * now apply Huniq.
    + (* the active rule carries the highest version *)
      intros r Hr. apply in_updated_some in Hr.
      destruct Hr as [->|[->|[Hr Hrid]]].
      * exists new, (k + 1), (k + 1). repeat split; auto;
          [apply updated_new|lia|lia].
      * exists new, (k + 1), k. repeat split; auto;
          [apply updated_new|lia|lia].
      * destruct (Hmax r Hr) as (a & k' & kr & Ha' & Haact' & Hal' & Hav' & Hrv & Hk').
        destruct (String.eqb (AuditRule.id a) (AuditRule.id e0)) eqn:Hid.
        -- apply String.eqb_eq in Hid.
           assert (a = e0) by (eapply NoDup_map_eq; eassumption). subst a.
           assert (k' = k) by (apply of_Z_inj; congruence). subst k'.
           exists new, (k + 1), kr. repeat split; auto;
             [apply updated_new| | |lia|lia].
           ++ destruct Hal' as [H1 H2]. now rewrite <- H1.
           ++ destruct Hal' as [H1 H2]. now rewrite <- H2.
        -- apply String.eqb_neq in Hid.
           exists a, k', kr. repeat split; auto; try lia; try apply Hal'.
           now apply updated_some_old.
    + apply updated_rules_wf; auto. now intros ? [= <-].
  - exists (k + 1). split; [lia|exact Hnv].
  - intros r Hr Hl.
    destruct (Hbelow r Hr) as (kr & Hrv & Hkr);
      [eapply same_lineage_trans; [exact Hl|exact Hnl]|].
    rewrite Hrv, Hnv, NumberFacts.ltb_of_Z. apply Z.ltb_lt. lia.
Qed.

(** A save whose lineage has no active rule: the lineage is empty. *)
Lemma first_version_keeps_order (p : ParsedRule.t)
      (instr createdBy uuid now : string) (rules : list AuditRule.t) :
  lineages_ordered rules -> ParsedRule.representable p ->
  ~ In uuid (map AuditRule.id rules) ->
  (forall r, In r rules -> matches p r = false) ->
  let new := new_rule p instr createdBy uuid now None in
  lineages_ordered (updated_rules rules None new)
  /\ (exists k, 1 <= k /\ AuditRule.version new = Number.of_Z k)
  /\ (forall r, In r rules -> AuditRule.same_lineage r new ->
         Number.ltb (AuditRule.version r) (AuditRule.version new) = true).
Proof.
  intros (Hnd & Huniq & Hmax & Hwf) Hp Hfresh Hnone new.
  assert (Hnwf : AuditRule.well_formed new)
    by (apply new_rule_wf; [exact Hp|discriminate]).
  assert (Hempty : forall r, In r rules -> ~ AuditRule.same_lineage r new).
  { intros r Hr Hl.
    destruct (Hmax r Hr) as (a & k & kr & Ha & Haact & Hal & _).
    assert (Hm : matches p a = true).
    { destruct Hp as [Hpc _]. apply matches_iff; auto.
      - rewrite List.Forall_forall in Hwf. now apply Hwf.
      - destruct Hal as [H1 H2], Hl as [H3 H4]. repeat split; auto.
        + now rewrite H1, H3.
        + now rewrite H2, H4. }
    rewrite (Hnone a Ha) in Hm. discriminate. }
  unfold updated_rules. split; [|split].
  - split; [|split; [|split]].
    + rewrite map_app. apply List.NoDup_app;
        [exact Hnd|repeat constructor; intros []|].
      intros x Hx [<-|[]]. now apply Hfresh.
    + intros x y Hx Hy Hxa Hya Hl.
      apply in_app_or in Hx. apply in_app_or in Hy.
      destruct Hx as [Hx|[<-|[]]], Hy as [Hy|[<-|[]]].
      * now apply Huniq.
      * exfalso. now apply (Hempty x).
      * exfalso. apply (Hempty y); [exact Hy|]. now apply same_lineage_sym.
      * reflexivity.
    + intros r Hr. apply in_app_or in Hr. destruct Hr as [Hr|[<-|[]]].
      * destruct (Hmax r Hr) as (a & k & kr & Ha & Hrest).
        exists a, k, kr. split; [apply in_or_app; now left|exact Hrest].
      * exists new, 1, 1. repeat split; auto; try lia.
        apply in_or_app. right. now left.
    + apply Forall_app. split; [exact Hwf|now constructor].
  - exists 1. split; [lia|reflexivity].
  - intros r Hr Hl. exfalso. now apply (Hempty r).
Qed.

(** Every save keeps the lineages ordered and assigns a version above all
    versions its lineage has. *)
Lemma save_keeps_order (p : ParsedRule.t)
      (instr createdBy uuid now : string) (rules : list AuditRule.t) :
  lineages_ordered rules -> ParsedRule.representable p ->
  ~ In uuid (map AuditRule.id rules) ->
  let new := new_rule p instr createdBy uuid now (find (matches p) rules) in
  lineages_ordered (updated_rules rules (find (matches p) rules) new)
  /\ (exists k, 1 <= k /\ AuditRule.version new = Number.of_Z k)
  /\ (forall r, In r rules -> AuditRule.same_lineage r new ->
         Number.ltb (AuditRule.version r) (AuditRule.version new) = true).
Proof.
  intros Hord Hp Hfresh.
  destruct (find (matches p) rules) as [e0|] eqn:Hfind.
  - apply find_some in Hfind. destruct Hfind as [He0 Hm].
    apply new_version_keeps_order; auto.
    unfold matches in Hm. apply andb_true_iff in Hm. destruct Hm as [Hm _].
    apply andb_true_iff in Hm. now destruct Hm.
  - apply first_version_keeps_order; auto.
    intros r Hr. now apply (find_none _ _ Hfind).
Qed.

Lemma lineages_ordered_nil : lineages_ordered [].
Proof.
  split; [constructor|]. split; [intros ? ? []|]. split; [intros ? []|constructor].
Qed.

(** The store of a history of saves with distinct identifiers. *)
Lemma saves_ordered (ops : list op) :
  Forall (fun o => is_save o = true) ops ->
  Forall representable_op ops ->
  List.NoDup (uuids ops) ->
  lineages_ordered (contents ops)
  /\ (forall r, In r (contents ops) -> In (AuditRule.id r) (uuids ops)).
Proof.
  induction ops as [|o ops IH] using rev_ind; intros Hsaves Hrep Hnd.
  - split; [apply lineages_ordered_nil|intros ? []].
  - apply Forall_app in Hsaves. destruct Hsaves as [Hsaves Ho].
    apply Forall_app in Hrep. destruct Hrep as [Hrep Hp].
    inversion Ho as [|? ? Hsave _]; subst. inversion Hp as [|? ? Hp' _]; subst.
    destruct o as [p instr by_ uuid now| |]; try discriminate.
    rewrite uuids_snoc in *. cbn [uuids flat_map app] in *.
    assert (Hnd' : List.NoDup (uuids ops) /\ ~ In uuid (uuids ops)).
    { split.
      - now apply NoDup_app_remove_r in Hnd.
      - apply NoDup_remove_2 in Hnd. now rewrite app_nil_r in Hnd. }
    destruct Hnd' as [Hnd1 Hnd2].
    destruct (IH Hsaves Hrep Hnd1) as [Hord Hids].
    assert (Hfresh : ~ In uuid (map AuditRule.id (contents ops))).
    { intros H. apply in_map_iff in H. destruct H as (r & <- & Hr).
      now apply Hnd2, Hids. }
    rewrite contents_snoc. cbn [next_rules].
    destruct (save_keeps_order p instr (default "system" by_) uuid now
                (contents ops) Hord Hp' Hfresh) as (Hord' & _ & _).
    split; [exact Hord'|].
    intros r Hr. apply in_or_app.
    destruct (find (matches p) (contents ops)) as [e0|] eqn:Hfind.
    + apply in_updated_some in Hr. destruct Hr as [->|[->|[Hr _]]].
      * right. now left.
      * left. apply find_some in Hfind. destruct Hfind as [He0 _].
        apply Hids in He0. now destruct e0.
      * left. now apply Hids.
    + unfold updated_rules in Hr. apply in_app_or in Hr.
      destruct Hr as [Hr|[<-|[]]]; [left; now apply Hids|right; now left].
Qed.

End LineageFacts.

(** ** Versions *)

(** C4, as the sources have it.  In every store reached from the empty
    store by saves, rollbacks and deactivations, the versions are positive
    integers.  As long as only saves are applied, every save assigns a
    version strictly greater than every version its lineage (the rules with
    the same [rule_type] and [conditions]) has so far.  (After a
    deactivation or a rollback a save may repeat a version: it counts on
    from the active rule of the signature, or from 1 when there is none.) *)
Theorem versions_in_a_lineage (E : Eff.Engine) (ops : list RuleStorage.op) :
  Forall RuleStorage.representable_op ops ->
  (exists rules,
      RuleStorage.holds E (RuleStorage.run E ops ∅) rules
      /\ Forall (fun r => Number.is_positive_integer (AuditRule.version r)) rules)
  /\ (Forall (fun o => RuleStorage.is_save o = true) ops ->
      List.NoDup (RuleStorage.uuids ops) ->
      forall p instr createdBy uuid now,
        ParsedRule.representable p -> ~ In uuid (RuleStorage.uuids ops) ->
        exists rules new ls',
          RuleStorage.holds E (RuleStorage.run E ops ∅) rules
          /\ RuleStorage.saveRule E p instr createdBy uuid now
               (RuleStorage.run E ops ∅) = (Ok new, ls')
          /\ Number.is_positive_integer (AuditRule.version new)
          /\ forall r, In r rules -> AuditRule.same_lineage r new ->
               Number.ltb (AuditRule.version r) (AuditRule.version new) = true).
Proof.
  intros Hrep.
  destruct (HistoryFacts.run_from_empty E ops Hrep) as [Hst Hh].
  pose proof (StorageFacts.stores_holds _ _ _ Hst) as Hholds.
  split.
  - exists (RuleStorage.contents ops). split; [exact Hholds|].
    apply HistoryFacts.contents_positive.
  - intros Hsaves Hnd p instr createdBy uuid now Hp Hfresh.
    destruct (LineageFacts.saves_ordered ops Hsaves Hrep Hnd) as [Hord Hids].
    destruct (OperationFacts.saveRule_spec E p instr createdBy uuid now _ _
                Hholds Hh Hp) as (ls' & Hsave & _ & _).
    assert (Hf : ~ In uuid (map AuditRule.id (RuleStorage.contents ops))).
    { intros H. apply in_map_iff in H. destruct H as (r & <- & Hr).
      now apply Hfresh, Hids. }
    destruct (LineageFacts.save_keeps_order
                p instr (default "system" createdBy) uuid now
                (RuleStorage.contents ops) Hord Hp Hf) as (_ & (k & Hk & Hv) & Hlt).
    eexists _, _, _. split; [exact Hholds|]. split; [exact Hsave|].
    split; [now exists k|exact Hlt].
Qed.

Lemma versions_in_a_lineage_witness :
  exists rules new ls',
    RuleStorage.holds Samples.engine
      (RuleStorage.run Samples.engine [Samples.save "id1"; Samples.save "id2"] ∅)
      rules
    /\ RuleStorage.saveRule
         Samples.engine (Samples.parsed Samples.after_ten) "again" None
         "id3" "2024-05-02T10:00:00.000Z"
         (RuleStorage.run Samples.engine [Samples.save "id1"; Samples.save "id2"] ∅)
       = (Ok new, ls')
    /\ Number.is_positive_integer (AuditRule.version new)
    /\ forall r, In r rules -> AuditRule.same_lineage r new ->
         Number.ltb (AuditRule.version r) (AuditRule.version new) = true.
Proof.
  assert (Hrep : Forall RuleStorage.representable_op
                   [Samples.save "id1"; Samples.save "id2"])
    by (repeat constructor).
  destruct (versions_in_a_lineage
              Samples.engine [Samples.save "id1"; Samples.save "id2"] Hrep)
    as [_ H].
  apply H.
  - repeat constructor.
  - repeat constructor; cbn; intuition discriminate.
  - repeat constructor.
  - cbn. intuition discriminate.
Defined.

(** C4 as stated fails once a deactivation or a rollback intervenes.  After
    save and deactivate, the next save of the same signature creates
    version 1 beside the version 1 that exists.  After three saves and a
    rollback to version 1, the next save creates version 2 while the
    lineage has version 3. *)
Lemma versions_counterexample :
  (RuleStorage.holds Samples.engine
     (RuleStorage.run Samples.engine Samples.saved_and_deactivated ∅)
     [Samples.rule "id1" 1 Samples.after_ten false]
   /\ fst (RuleStorage.saveRule
             Samples.engine (Samples.parsed Samples.after_ten)
             "Review any expense after 10 PM" None
             "id2" "2024-05-01T10:00:00.000Z"
             (RuleStorage.run Samples.engine Samples.saved_and_deactivated ∅))
      = Ok (Samples.rule "id2" 1 Samples.after_ten true)
   /\ AuditRule.same_lineage (Samples.rule "id1" 1 Samples.after_ten false)
                             (Samples.rule "id2" 1 Samples.after_ten true)
   /\ Number.ltb (AuditRule.version (Samples.rule "id1" 1 Samples.after_ten false))
                 (AuditRule.version (Samples.rule "id2" 1 Samples.after_ten true))
      = false)
  /\ (RuleStorage.holds Samples.engine
        (RuleStorage.run Samples.engine Samples.saved_and_rolled_back ∅)
        [Samples.rule "id1" 1 Samples.after_ten true;
         Samples.rule "id2" 2 Samples.after_ten false;
         Samples.rule "id3" 3 Samples.after_ten false]
      /\ fst (RuleStorage.saveRule
                Samples.engine (Samples.parsed Samples.after_ten)
                "Review any expense after 10 PM" None
                "id4" "2024-05-01T10:00:00.000Z"
                (RuleStorage.run Samples.engine Samples.saved_and_rolled_back ∅))
         = Ok (Samples.rule "id4" 2 Samples.after_ten true)
      /\ AuditRule.same_lineage (Samples.rule "id3" 3 Samples.after_ten false)
                                (Samples.rule "id4" 2 Samples.after_ten true)
      /\ Number.ltb (AuditRule.version (Samples.rule "id3" 3 Samples.after_ten false))
                    (AuditRule.version (Samples.rule "id4" 2 Samples.after_ten true))
         = false).
Proof.
  split; (split; [vm_compute; reflexivity|]);
    (split; [vm_compute; reflexivity|]);
    (split; [split; reflexivity|reflexivity]).
Qed.

(** ** Two saves of one signature *)

Module SaveTwiceFacts.

Import RuleStorage StorageFacts OperationFacts.


(** The rule a save creates passes the lineage test of that save. *)
Lemma new_rule_matches (p : ParsedRule.t) (instr createdBy uuid now : string)
      (rules : list AuditRule.t) :
  matches p (new_rule p instr createdBy uuid now (find (matches p) rules)) = true.
Proof.
  destruct (find (matches p) rules) as [e0|] eqn:Hfind.
  - apply find_some in Hfind. destruct Hfind as [_ Hm]. exact Hm.
  - unfold matches. cbn. now rewrite !String.eqb_refl.
Qed.



Lemma find_last {A} (P : A -> bool) (l : list A) (x : A) :
  (forall r, In r l -> P r = false) -> P x = true ->
  find P (l ++ [x]) = Some x.
Proof.
  intros Hl Hx. induction l as [|y l IH]; cbn.
  - now rewrite Hx.
  - rewrite (Hl y) by now left. apply IH. intros r Hr. apply Hl. now right.
Qed.


End SaveTwiceFacts.




(** ** Export, clear, import *)

Module RoundTripFacts.

Import RuleStorage StorageFacts OperationFacts HistoryFacts.

Lemma exportable_not_lacking (r : AuditRule.t) :
  exportable r -> ~ lacking (AuditRule.encode r).
Proof.
  intros (Hid & Hrt & Hact & Hc). unfold lacking. destruct r; cbn in *.
  rewrite Hc.
  intros [H|[H|[H|[H|H]]]]; try discriminate;
    apply negb_false_iff, String.eqb_eq in H; congruence.
Qed.

Lemma truthy_array (v : json) : JSON.is_array v = true -> JSON.truthy v = true.
Proof. now destruct v. Qed.

(** Every rule of a history of importable saves passes the import test. *)
Lemma contents_exportable (ops : list op) :
  Forall importable_op ops ->
  Forall (fun u => u <> "") (uuids ops) ->
  Forall exportable (contents ops).
Proof.
  intros Hwf Hids. apply contents_Forall.
  - intros b r H. now destruct r.
  - intros p instr by_ uuid now e Hin He.
    assert (Hu : uuid <> "").
    { rewrite List.Forall_forall in Hids. apply Hids.
      unfold uuids. apply in_flat_map. eexists. split; [exact Hin|]. now left. }
    destruct e as [e0|]; cbn.
    + destruct (He e0 eq_refl) as (_ & Hrt & Hact & Hc). now repeat split.
    + rewrite List.Forall_forall in Hwf. specialize (Hwf _ Hin).
      destruct Hwf as (Hrt & Hact & Harr & _).
      repeat split; auto. now apply truthy_array.
Qed.

Lemma representable_of_importable (ops : list op) :
  Forall importable_op ops -> Forall representable_op ops.
Proof.
  apply List.Forall_impl. intros [p ? ? ? ?| |]; cbn; auto.
  now intros (_ & _ & _ & H).
Qed.

(** What an accepted import leaves in the store. *)
Lemma import_accepted (E : Eff.Engine) (payload : string) (ls : Storage)
      (elements : list json) :
  JSON.parse payload = Some (JArr elements) ->
  Forall (fun x => ~ lacking x) elements ->
  importRules E payload ls = (Ok true, <[STORAGE_KEY := payload]> ls)
  /\ getAllRules_value E (<[STORAGE_KEY := payload]> ls)
     = (Ok (JArr elements), <[STORAGE_KEY := payload]> ls).
Proof.
  intros Hp Hall. apply (ImportFacts.every_importable E) in Hall.
  rewrite ImportFacts.importRules_cases, Hp, Hall.
  split; [reflexivity|]. rewrite getAllRules_value_eq.
  rewrite lookup_insert_eq, parse_or_empty_eq. cbn [fst].
  destruct (String.eqb payload "") eqn:He.
  - apply String.eqb_eq in He. subst payload.
    rewrite ImportFacts.parse_empty_text in Hp. discriminate.
  - now rewrite Hp.
Qed.

End RoundTripFacts.

(** C9, as the sources have it.  For every store built from the empty
    store by saves (rollbacks and deactivations may be interleaved) of rules
    whose [rule_type] and [action] are not empty and whose [conditions] are
    a sequence, under identifiers that are not empty: [exportRules], then
    [clearAllRules], then [importRules] of the exported text succeeds, and
    [getAllRules] returns the same value as before the round trip: the same
    rules with the same ids and field values in the same order.  (A saved
    rule with an empty [rule_type] or [action] makes [importRules] refuse
    the export.) *)
Theorem export_clear_import_round_trip
        (E : Eff.Engine) (ops : list RuleStorage.op) :
  Forall RuleStorage.importable_op ops ->
  Forall (fun u => u <> "") (RuleStorage.uuids ops) ->
  exists exported value ls2,
    RuleStorage.exportRules E (RuleStorage.run E ops ∅)
    = (Ok exported, RuleStorage.run E ops ∅)
    /\ RuleStorage.getAllRules_value E (RuleStorage.run E ops ∅)
       = (Ok value, RuleStorage.run E ops ∅)
    /\ RuleStorage.importRules
         E exported (snd (RuleStorage.clearAllRules (RuleStorage.run E ops ∅)))
       = (Ok true, ls2)
    /\ RuleStorage.getAllRules_value E ls2 = (Ok value, ls2)
    /\ value = AuditRule.encode_all (RuleStorage.contents ops).
Proof.
  intros Hwf Hids.
  pose proof (RoundTripFacts.representable_of_importable ops Hwf) as Hrep.
  destruct (HistoryFacts.run_from_empty E ops Hrep) as [[Hval Hrules] _].
  pose proof (RoundTripFacts.contents_exportable ops Hwf Hids) as Hexp.
  set (ls := RuleStorage.run E ops ∅) in *.
  set (value := AuditRule.encode_all (RuleStorage.contents ops)) in *.
  assert (Hvwf : JSON.wf value = true) by now apply StorageFacts.wf_encode_all.
  assert (Hget : RuleStorage.getAllRules_value E ls = (Ok value, ls)).
  { rewrite StorageFacts.getAllRules_value_eq in *. cbn [fst] in Hval.
    now rewrite Hval. }
  destruct (RoundTripFacts.import_accepted
              E (JSON.stringify_indent 2 value)
              (snd (RuleStorage.clearAllRules ls))
              (map AuditRule.encode (RuleStorage.contents ops)))
    as [Himp Hread].
  - now apply JSONFacts.parse_stringify_indent.
  - apply List.Forall_forall. intros x Hx. apply in_map_iff in Hx.
    destruct Hx as (r & <- & Hr). apply RoundTripFacts.exportable_not_lacking.
    rewrite List.Forall_forall in Hexp. now apply Hexp.
  - exists (JSON.stringify_indent 2 value), value. eexists.
    split; [|split; [exact Hget|split; [exact Himp|split; [exact Hread|reflexivity]]]].
    unfold RuleStorage.exportRules, Eff.bind. now rewrite Hget.
Qed.

Lemma export_clear_import_round_trip_witness :
  exists exported value ls2,
    RuleStorage.exportRules
      Samples.engine
      (RuleStorage.run Samples.engine [Samples.save "id1"; Samples.save "id2"] ∅)
    = (Ok exported,
       RuleStorage.run Samples.engine [Samples.save "id1"; Samples.save "id2"] ∅)
    /\ RuleStorage.getAllRules_value
         Samples.engine
         (RuleStorage.run Samples.engine [Samples.save "id1"; Samples.save "id2"] ∅)
       = (Ok value,
          RuleStorage.run Samples.engine [Samples.save "id1"; Samples.save "id2"] ∅)
    /\ RuleStorage.importRules
         Samples.engine exported
         (snd (RuleStorage.clearAllRules
                 (RuleStorage.run Samples.engine
                    [Samples.save "id1"; Samples.save "id2"] ∅)))
       = (Ok true, ls2)
    /\ RuleStorage.getAllRules_value Samples.engine ls2 = (Ok value, ls2)
    /\ value = AuditRule.encode_all
                 (RuleStorage.contents [Samples.save "id1"; Samples.save "id2"]).
Proof.
  apply (export_clear_import_round_trip
           Samples.engine [Samples.save "id1"; Samples.save "id2"]).
  - repeat constructor; cbn; discriminate.
  - repeat constructor; discriminate.
Defined.

(** C9 as stated fails: a rule with an empty [action] passes the response
    validation and is saved as it is; the store that the save produces is
    exported, cleared, and the export refused by [importRules], so that the
    store stays empty where it held the rule. *)
Lemma round_trip_counterexample :
  GeminiService.validateParsedRule Samples.engine Samples.blank_action_answer
  = Ok true
  /\ exists saved exported,
       let ls := RuleStorage.run Samples.engine [Samples.save_blank_action] ∅ in
       let cleared := snd (RuleStorage.clearAllRules ls) in
       RuleStorage.getAllRules Samples.engine ls = (Ok [saved], ls)
       /\ AuditRule.action saved = ""
       /\ RuleStorage.exportRules Samples.engine ls = (Ok exported, ls)
       /\ RuleStorage.importRules Samples.engine exported cleared
          = (Ok false, cleared)
       /\ RuleStorage.getAllRules Samples.engine cleared = (Ok [], cleared).
Proof.
  split; [vm_compute; reflexivity|].
  eexists _, _. cbv zeta.
  split; [vm_compute; reflexivity|]. split; [reflexivity|].
  split; [vm_compute; reflexivity|]. split; vm_compute; reflexivity.
Qed.

(* ===================================================================== *)
(** * Further properties of the store and of the parsers *)
(* ===================================================================== *)

(** ** The store: reading back what was written *)

Module ReadFacts.

Import RuleStorage StorageFacts OperationFacts.

Lemma getRuleById_eq (E : Eff.Engine) (i : string) (ls : Storage)
      (rules : list AuditRule.t) :
  holds E ls rules ->
  getRuleById E i ls
  = (Ok (find (fun rule => String.eqb (AuditRule.id rule) i) rules), ls).
Proof.
  intros H. unfold getRuleById, Eff.bind. now rewrite (holds_eq _ _ _ H).
Qed.

Lemma getActiveRules_eq (E : Eff.Engine) (ls : Storage)
      (rules : list AuditRule.t) :
  holds E ls rules ->
  getActiveRules E ls
  = (Ok (List.filter (fun rule => AuditRule.is_active rule) rules), ls).
Proof.
  intros H. unfold getActiveRules, Eff.bind. now rewrite (holds_eq _ _ _ H).
Qed.

(** The store after [rules] was written holds [rules]. *)
Lemma holds_written (E : Eff.Engine) (rules : list AuditRule.t) (ls : Storage) :
  Forall AuditRule.well_formed rules ->
  holds E (<[STORAGE_KEY := JSON.stringify (AuditRule.encode_all rules)]> ls)
        rules.
Proof.
  intros Hwf. apply stores_holds. exact (stores_after_write E rules ls Hwf).
Qed.

Lemma deactivateRule_eq (E : Eff.Engine) (i : string) (ls : Storage)
      (rules : list AuditRule.t) :
  holds E ls rules ->
  deactivateRule E i ls
  = match findIndex (fun rule => String.eqb (AuditRule.id rule) i) rules with
    | None => (Ok false, ls)
    | Some k =>
        (Ok true,
         <[STORAGE_KEY := JSON.stringify
                            (AuditRule.encode_all (set_active_at k false rules))]>
           ls)
    end.
Proof.
  intros H. unfold deactivateRule, Eff.bind. rewrite (holds_eq _ _ _ H).
  now destruct (findIndex _ rules).
Qed.

Lemma rollbackToVersion_eq (E : Eff.Engine) (ty : string) (v : number)
      (ls : Storage) (rules : list AuditRule.t) :
  holds E ls rules ->
  rollbackToVersion E ty v ls
  = match findIndex (is_target ty v) rules with
    | None => (Ok None, ls)
    | Some k =>
        (Ok (set_active_at k true (deactivate_type ty rules) !! k),
         <[STORAGE_KEY := JSON.stringify
                            (AuditRule.encode_all
                               (set_active_at k true (deactivate_type ty rules)))]>
           ls)
    end.
Proof.
  intros H. unfold rollbackToVersion, Eff.bind. rewrite (holds_eq _ _ _ H).
  now destruct (findIndex _ rules).
Qed.

Lemma deleteRule_eq (E : Eff.Engine) (i : string) (ls : Storage)
      (rules : list AuditRule.t) :
  holds E ls rules ->
  let kept :=
    List.filter (fun rule => negb (String.eqb (AuditRule.id rule) i)) rules in
  deleteRule E i ls
  = if (length kept =? length rules)%nat then (Ok false, ls)
    else (Ok true,
          <[STORAGE_KEY := JSON.stringify (AuditRule.encode_all kept)]> ls).
Proof.
  intros H kept. unfold deleteRule, Eff.bind. rewrite (holds_eq _ _ _ H).
  fold kept. now destruct (length kept =? length rules)%nat.
Qed.

(** [find] returns the element at the index [findIndex] returns. *)
Lemma find_findIndex {A} (p : A -> bool) (l : list A) :
  find p l = match findIndex p l with Some i => l !! i | None => None end.
Proof.
  induction l as [|x l IH]; [reflexivity|]. cbn [find findIndex].
  destruct (p x); [reflexivity|]. rewrite IH.
  now destruct (findIndex p l).
Qed.

Lemma findIndex_first {A} (p : A -> bool) (l : list A) (i : nat) (x : A) :
  l !! i = Some x -> p x = true ->
  (forall j y, (j < i)%nat -> l !! j = Some y -> p y = false) ->
  findIndex p l = Some i.
Proof.
  revert i. induction l as [|y l IH]; intros i Hx Hp Hlt; [discriminate|].
  cbn [findIndex]. destruct i as [|i].
  - cbn in Hx. injection Hx as ->. now rewrite Hp.
  - rewrite (Hlt 0%nat y) by (cbn; auto; lia).
    rewrite (IH i); [reflexivity|exact Hx|exact Hp|].
    intros j z Hj Hz. apply (Hlt (S j)); [lia|exact Hz].
Qed.

Lemma filter_length_all {A} (p : A -> bool) (l : list A) :
  length (List.filter p l) = length l -> List.filter p l = l.
Proof.
  induction l as [|x l IH]; [reflexivity|]. cbn [List.filter].
  pose proof (List.filter_length_le p l) as Hle.
  destruct (p x); cbn [length]; intros H.
  - f_equal. apply IH. lia.
  - lia.
Qed.

Lemma filter_all {A} (p : A -> bool) (l : list A) :
  (forall x, In x l -> p x = true) -> List.filter p l = l.
Proof.
  induction l as [|x l IH]; [reflexivity|]. intros H. cbn [List.filter].
  rewrite (H x) by now left. f_equal. apply IH. intros y Hy. apply H. now right.
Qed.

Lemma filter_wf (p : AuditRule.t -> bool) (rules : list AuditRule.t) :
  Forall AuditRule.well_formed rules ->
  Forall AuditRule.well_formed (List.filter p rules).
Proof.
  rewrite !List.Forall_forall. intros H x Hx. apply filter_In in Hx. now apply H.
Qed.

Lemma lookup_In {A} (l : list A) (i : nat) (x : A) : l !! i = Some x -> In x l.
Proof.
  revert i. induction l as [|y l IH]; intros [|i]; cbn; try discriminate.
  - intros [= ->]. now left.
  - intros H. right. now apply (IH i).
Qed.

Lemma In_lookup {A} (l : list A) (x : A) : In x l -> exists i, l !! i = Some x.
Proof.
  induction l as [|y l IH]; [intros []|]. intros [->|H].
  - now exists 0%nat.
  - destruct (IH H) as [i Hi]. now exists (S i).
Qed.

Lemma set_active_at_length (i : nat) (b : bool) (rules : list AuditRule.t) :
  length (set_active_at i b rules) = length rules.
Proof.
  unfold set_active_at. destruct (rules !! i); [|reflexivity].
  apply length_insert.
Qed.

Lemma set_active_at_lookup (i : nat) (b : bool) (rules : list AuditRule.t)
      (j : nat) :
  set_active_at i b rules !! j
  = if decide (j = i) then option_map (AuditRule.set_active b) (rules !! i)
    else rules !! j.
Proof.
  unfold set_active_at. destruct (rules !! i) as [r|] eqn:Hr.
  - destruct (decide (j = i)) as [->|Hne].
    + rewrite list_lookup_insert_eq; [reflexivity|].
      now apply lookup_lt_Some in Hr.
    + now rewrite list_lookup_insert_ne by congruence.
  - destruct (decide (j = i)) as [->|Hne]; [exact Hr|reflexivity].
Qed.

End ReadFacts.

(** An identifier that no stored rule carries: [getRuleById] returns
    [null], [deactivateRule] and [deleteRule] return [false], and neither
    writes to the store. *)
Theorem unknown_id_changes_nothing
        (E : Eff.Engine) (id : string) (ls : RuleStorage.Storage)
        (rules : list AuditRule.t) :
  RuleStorage.holds E ls rules ->
  (forall r, In r rules -> AuditRule.id r <> id) ->
  RuleStorage.getRuleById E id ls = (Ok None, ls)
  /\ RuleStorage.deactivateRule E id ls = (Ok false, ls)
  /\ RuleStorage.deleteRule E id ls = (Ok false, ls).
Proof.
  intros Hholds Hnone.
  assert (Hidx : RuleStorage.findIndex
                   (fun rule => String.eqb (AuditRule.id rule) id) rules = None).
  { apply OperationFacts.findIndex_none. intros r Hr.
    apply String.eqb_neq. now apply Hnone. }
  split; [|split].
  - rewrite (ReadFacts.getRuleById_eq E id ls rules Hholds).
    now rewrite ReadFacts.find_findIndex, Hidx.
  - now rewrite (ReadFacts.deactivateRule_eq E id ls rules Hholds), Hidx.
  - rewrite (ReadFacts.deleteRule_eq E id ls rules Hholds).
    rewrite ReadFacts.filter_all; [now rewrite Nat.eqb_refl|].
    intros r Hr. apply negb_true_iff, String.eqb_neq. now apply Hnone.
Qed.

Lemma unknown_id_changes_nothing_witness :
  RuleStorage.getRuleById
    Samples.engine "zz" (Samples.store_of Samples.two_lineages)
  = (Ok None, Samples.store_of Samples.two_lineages)
  /\ RuleStorage.deactivateRule
       Samples.engine "zz" (Samples.store_of Samples.two_lineages)
     = (Ok false, Samples.store_of Samples.two_lineages)
  /\ RuleStorage.deleteRule
       Samples.engine "zz" (Samples.store_of Samples.two_lineages)
     = (Ok false, Samples.store_of Samples.two_lineages).
Proof.
  apply (unknown_id_changes_nothing
           Samples.engine "zz" (Samples.store_of Samples.two_lineages)
           Samples.two_lineages).
  - vm_compute. reflexivity.
  - intros r [<-|[<-|[]]]; vm_compute; discriminate.
Defined.

(** [deactivateRule] on an identifier that is stored returns [true]; the
    rule [getRuleById] found before is found afterwards with
    [is_active = false] and is otherwise the same; the array keeps its
    length and every rule with another identifier stays where and as it
    was.  Deactivating once more changes nothing. *)
Theorem deactivate_then_read
        (E : Eff.Engine) (id : string) (ls : RuleStorage.Storage)
        (rules : list AuditRule.t) (r : AuditRule.t) :
  RuleStorage.holds E ls rules ->
  RuleStorage.getRuleById E id ls = (Ok (Some r), ls) ->
  exists ls' rules',
    RuleStorage.deactivateRule E id ls = (Ok true, ls')
    /\ RuleStorage.holds E ls' rules'
    /\ RuleStorage.getRuleById E id ls'
       = (Ok (Some (AuditRule.set_active false r)), ls')
    /\ length rules' = length rules
    /\ (forall j x, rules !! j = Some x -> AuditRule.id x <> id ->
                    rules' !! j = Some x)
    /\ RuleStorage.deactivateRule E id ls' = (Ok true, ls').
Proof.
  intros Hholds Hget.
  pose proof (StorageFacts.holds_wf _ _ _ Hholds) as Hwf.
  rewrite (ReadFacts.getRuleById_eq E id ls rules Hholds) in Hget.
  rewrite ReadFacts.find_findIndex in Hget.
  set (p := fun rule => String.eqb (AuditRule.id rule) id) in *.
  destruct (RuleStorage.findIndex p rules) as [k|] eqn:Hk;
    [|discriminate].
  assert (Hr : rules !! k = Some r) by congruence.
  destruct (OperationFacts.findIndex_some p rules k Hk)
    as (x & Hx & Hpx & Hbefore).
  assert (x = r) by congruence. subst x.
  set (rules' := RuleStorage.set_active_at k false rules).
  assert (Hwf' : Forall AuditRule.well_formed rules')
    by now apply OperationFacts.set_active_at_wf.
  assert (Hk' : RuleStorage.findIndex p rules' = Some k).
  { apply (ReadFacts.findIndex_first p rules' k (AuditRule.set_active false r)).
    - unfold rules'. rewrite ReadFacts.set_active_at_lookup.
      rewrite decide_True by reflexivity. now rewrite Hr.
    - unfold p in *. now destruct r.
    - intros j y Hj Hy. unfold rules' in Hy.
      rewrite ReadFacts.set_active_at_lookup in Hy.
      rewrite decide_False in Hy by lia. now apply (Hbefore j). }
  assert (Hholds' :
            RuleStorage.holds
              E (<[RuleStorage.STORAGE_KEY :=
                     JSON.stringify (AuditRule.encode_all rules')]> ls) rules')
    by now apply ReadFacts.holds_written.
  exists (<[RuleStorage.STORAGE_KEY :=
             JSON.stringify (AuditRule.encode_all rules')]> ls), rules'.
  split; [rewrite (ReadFacts.deactivateRule_eq E id ls rules Hholds);
          fold p; rewrite Hk; reflexivity|].
  split; [exact Hholds'|]. split; [|split; [|split]].
  - rewrite (ReadFacts.getRuleById_eq E id _ rules' Hholds').
    rewrite ReadFacts.find_findIndex. fold p. rewrite Hk'.
    unfold rules'. rewrite ReadFacts.set_active_at_lookup.
    rewrite decide_True by reflexivity. now rewrite Hr.
  - apply ReadFacts.set_active_at_length.
  - intros j x Hx' Hid. unfold rules'.
    rewrite ReadFacts.set_active_at_lookup.
    destruct (decide (j = k)) as [->|Hne]; [|exact Hx'].
    exfalso. apply Hid. assert (x = r) by congruence. subst x.
    now apply String.eqb_eq in Hpx.
  - rewrite (ReadFacts.deactivateRule_eq E id _ rules' Hholds'). fold p.
    rewrite Hk'. f_equal. rewrite insert_insert_eq. do 3 f_equal.
    apply list_eq. intros j. unfold rules'.
    rewrite !ReadFacts.set_active_at_lookup.
    destruct (decide (j = k)) as [->|Hne]; [|reflexivity].
    rewrite decide_True by reflexivity. rewrite Hr. cbn. now destruct r.
Qed.

Lemma deactivate_then_read_witness :
  exists ls' rules',
    RuleStorage.deactivateRule
      Samples.engine "b1" (Samples.store_of Samples.two_lineages)
    = (Ok true, ls')
    /\ RuleStorage.holds Samples.engine ls' rules'
    /\ RuleStorage.getRuleById Samples.engine "b1" ls'
       = (Ok (Some (AuditRule.set_active
                      false (Samples.rule "b1" 2 Samples.before_six true))), ls')
    /\ length rules' = length Samples.two_lineages
    /\ (forall j x, Samples.two_lineages !! j = Some x ->
                    AuditRule.id x <> "b1" -> rules' !! j = Some x)
    /\ RuleStorage.deactivateRule Samples.engine "b1" ls' = (Ok true, ls').
Proof.
  apply (deactivate_then_read
           Samples.engine "b1" (Samples.store_of Samples.two_lineages)
           Samples.two_lineages).
  - vm_compute. reflexivity.
  - vm_compute. reflexivity.
Defined.

(** [deleteRule] on an identifier that is stored returns [true] and removes
    every rule that carries it: the store then holds the other rules, in
    their order, [getRuleById] no longer finds the identifier, and no other
    entry of the storage, the version log included, is touched. *)
Theorem delete_removes_rule
        (E : Eff.Engine) (id : string) (ls : RuleStorage.Storage)
        (rules : list AuditRule.t) (r : AuditRule.t) :
  RuleStorage.holds E ls rules ->
  In r rules -> AuditRule.id r = id ->
  exists ls',
    RuleStorage.deleteRule E id ls = (Ok true, ls')
    /\ RuleStorage.holds
         E ls'
         (List.filter (fun rule => negb (String.eqb (AuditRule.id rule) id))
                      rules)
    /\ RuleStorage.getRuleById E id ls' = (Ok None, ls')
    /\ (forall key, key <> RuleStorage.STORAGE_KEY -> ls' !! key = ls !! key).
Proof.
  intros Hholds Hr Hid.
  pose proof (StorageFacts.holds_wf _ _ _ Hholds) as Hwf.
  set (keep := fun rule => negb (String.eqb (AuditRule.id rule) id)).
  assert (Hlen : (length (List.filter keep rules) =? length rules)%nat = false).
  { apply Nat.eqb_neq. intros Hlen.
    apply ReadFacts.filter_length_all in Hlen.
    assert (Hin : In r (List.filter keep rules)) by now rewrite Hlen.
    apply filter_In in Hin. destruct Hin as [_ Hk]. unfold keep in Hk.
    apply negb_true_iff, String.eqb_neq in Hk. contradiction. }
  assert (Hholds' :
            RuleStorage.holds
              E (<[RuleStorage.STORAGE_KEY :=
                     JSON.stringify
                       (AuditRule.encode_all (List.filter keep rules))]> ls)
              (List.filter keep rules))
    by now apply ReadFacts.holds_written, ReadFacts.filter_wf.
  eexists. split; [|split; [exact Hholds'|split]].
  - rewrite (ReadFacts.deleteRule_eq E id ls rules Hholds). fold keep.
    now rewrite Hlen.
  - rewrite (ReadFacts.getRuleById_eq E id _ _ Hholds').
    f_equal. f_equal.
    destruct (find _ (List.filter keep rules)) as [x|] eqn:Hx; [|reflexivity].
    apply find_some in Hx. destruct Hx as [Hin Hx].
    apply filter_In in Hin. destruct Hin as [_ Hk]. unfold keep in Hk.
    now rewrite Hx in Hk.
  - intros key Hkey. now rewrite lookup_insert_ne by congruence.
Qed.

Lemma delete_removes_rule_witness :
  exists ls',
    RuleStorage.deleteRule
      Samples.engine "a1" (Samples.store_of Samples.two_lineages)
    = (Ok true, ls')
    /\ RuleStorage.holds
         Samples.engine ls'
         (List.filter (fun rule => negb (String.eqb (AuditRule.id rule) "a1"))
                      Samples.two_lineages)
    /\ RuleStorage.getRuleById Samples.engine "a1" ls' = (Ok None, ls')
    /\ (forall key, key <> RuleStorage.STORAGE_KEY ->
                    ls' !! key = Samples.store_of Samples.two_lineages !! key).
Proof.
  apply (delete_removes_rule
           Samples.engine "a1" (Samples.store_of Samples.two_lineages)
           Samples.two_lineages (Samples.rule "a1" 1 Samples.after_ten true)).
  - vm_compute. reflexivity.
  - simpl. auto.
  - reflexivity.
Defined.

(** A rule saved under a fresh identifier is stored as returned: the rule
    [saveRule] returns carries the identifier and is active, [getRuleById]
    finds exactly it, and the array has grown by one. *)
Theorem saved_rule_is_found
        (E : Eff.Engine) (p : ParsedRule.t) (instr : string)
        (createdBy : option string) (uuid now : string)
        (ls : RuleStorage.Storage) (rules : list AuditRule.t) :
  RuleStorage.holds E ls rules -> RuleStorage.history_ok E ls ->
  ParsedRule.representable p ->
  (forall r, In r rules -> AuditRule.id r <> uuid) ->
  exists new ls' rules',
    RuleStorage.saveRule E p instr createdBy uuid now ls = (Ok new, ls')
    /\ AuditRule.id new = uuid
    /\ AuditRule.is_active new = true
    /\ AuditRule.original_instruction new = instr
    /\ AuditRule.created_by new = default "system" createdBy
    /\ RuleStorage.getRuleById E uuid ls' = (Ok (Some new), ls')
    /\ RuleStorage.holds E ls' rules'
    /\ length rules' = S (length rules).
Proof.
  intros Hholds Hh Hp Hfresh.
  destruct (OperationFacts.saveRule_spec E p instr createdBy uuid now ls rules
              Hholds Hh Hp) as (ls' & Hsave & Hst & _).
  set (e := find (RuleStorage.matches p) rules) in *.
  set (new := RuleStorage.new_rule p instr (default "system" createdBy) uuid now e)
    in *.
  pose proof (StorageFacts.stores_holds _ _ _ Hst) as Hholds'.
  assert (Hid : AuditRule.id new = uuid) by (unfold new; now destruct e).
  exists new, ls', (RuleStorage.updated_rules rules e new).
  split; [exact Hsave|]. split; [exact Hid|]. split; [|split; [|split; [|split; [|split]]]].
  - pose proof (SaveTwiceFacts.new_rule_matches
                  p instr (default "system" createdBy) uuid now rules) as Hm.
    fold e in Hm. fold new in Hm. unfold RuleStorage.matches in Hm.
    apply andb_true_iff in Hm. destruct Hm as [Hm _].
    apply andb_true_iff in Hm. now destruct Hm.
  - unfold new. now destruct e.
  - unfold new. now destruct e.
  - rewrite (ReadFacts.getRuleById_eq E uuid ls' _ Hholds'). f_equal. f_equal.
    assert (Hold : forall r, In r rules ->
                     String.eqb (AuditRule.id r) uuid = false)
      by (intros r Hr; apply String.eqb_neq; now apply Hfresh).
    unfold RuleStorage.updated_rules. destruct e as [e0|] eqn:He.
    + apply SaveTwiceFacts.find_last; [|now rewrite Hid, String.eqb_refl].
      intros x Hx. apply in_map_iff in Hx. destruct Hx as (r & <- & Hr).
      destruct (String.eqb (AuditRule.id r) (AuditRule.id e0)) eqn:Hre.
      * apply String.eqb_eq in Hre. cbn. rewrite <- Hre. now apply Hold.
      * now apply Hold.
    + apply SaveTwiceFacts.find_last; [exact Hold|].
      now rewrite Hid, String.eqb_refl.
  - exact Hholds'.
  - unfold RuleStorage.updated_rules. destruct e.
    + rewrite length_app, length_map. cbn. lia.
    + rewrite length_app. cbn. lia.
Qed.

Lemma saved_rule_is_found_witness :
  exists new ls' rules',
    RuleStorage.saveRule
      Samples.engine (Samples.parsed Samples.after_ten) "again" None
      "a2" "2024-05-02T10:00:00.000Z" (Samples.store_of Samples.two_lineages)
    = (Ok new, ls')
    /\ AuditRule.id new = "a2"
    /\ AuditRule.is_active new = true
    /\ AuditRule.original_instruction new = "again"
    /\ AuditRule.created_by new = "system"
    /\ RuleStorage.getRuleById Samples.engine "a2" ls' = (Ok (Some new), ls')
    /\ RuleStorage.holds Samples.engine ls' rules'
    /\ length rules' = S (length Samples.two_lineages).
Proof.
  apply (saved_rule_is_found
           Samples.engine (Samples.parsed Samples.after_ten) "again" None
           "a2" "2024-05-02T10:00:00.000Z"
           (Samples.store_of Samples.two_lineages) Samples.two_lineages).
  - vm_compute. reflexivity.
  - exists []. vm_compute. reflexivity.
  - split; reflexivity.
  - intros r [<-|[<-|[]]]; vm_compute; discriminate.
Defined.

(** [clearAllRules] leaves a store that reads as empty, whatever it held
    before (text that is not JSON included): [getAllRules] and
    [getActiveRules] return the empty array, [getRuleById] returns [null],
    [exportRules] returns the text of the empty array and the version log is
    empty.  Entries of the storage under other keys are untouched. *)
Theorem clear_empties_store
        (E : Eff.Engine) (ls : RuleStorage.Storage) (id : string) :
  let ls' := snd (RuleStorage.clearAllRules ls) in
  RuleStorage.clearAllRules ls = (Ok tt, ls')
  /\ RuleStorage.getAllRules E ls' = (Ok [], ls')
  /\ RuleStorage.getActiveRules E ls' = (Ok [], ls')
  /\ RuleStorage.getRuleById E id ls' = (Ok None, ls')
  /\ RuleStorage.exportRules E ls' = (Ok "[]", ls')
  /\ RuleStorage.getVersionHistory E ls' = (Ok (JArr []), ls')
  /\ (forall key, key <> RuleStorage.STORAGE_KEY ->
                  key <> RuleStorage.VERSION_KEY -> ls' !! key = ls !! key).
Proof.
  intros ls'.
  assert (Hs : ls' !! RuleStorage.STORAGE_KEY = None).
  { unfold ls', RuleStorage.clearAllRules, Eff.bind, RuleStorage.removeItem.
    cbn [snd]. rewrite lookup_delete_ne by (symmetry; apply StorageFacts.keys_differ).
    apply lookup_delete_eq. }
  assert (Hv : ls' !! RuleStorage.VERSION_KEY = None).
  { unfold ls', RuleStorage.clearAllRules, Eff.bind, RuleStorage.removeItem.
    cbn [snd]. apply lookup_delete_eq. }
  assert (Hall : RuleStorage.getAllRules E ls' = (Ok [], ls')).
  { rewrite StorageFacts.getAllRules_eq, StorageFacts.getAllRules_value_eq.
    cbn [fst]. rewrite Hs. reflexivity. }
  assert (Hholds : RuleStorage.holds E ls' []).
  { unfold RuleStorage.holds. now rewrite Hall. }
  split; [reflexivity|]. split; [exact Hall|]. split; [|split; [|split; [|split]]].
  - now rewrite (ReadFacts.getActiveRules_eq E ls' [] Hholds).
  - now rewrite (ReadFacts.getRuleById_eq E id ls' [] Hholds).
  - unfold RuleStorage.exportRules, Eff.bind.
    rewrite StorageFacts.getAllRules_value_eq. cbn [fst]. rewrite Hs. reflexivity.
  - rewrite StorageFacts.getVersionHistory_eq. cbn [fst]. now rewrite Hv.
  - intros key H1 H2.
    unfold ls', RuleStorage.clearAllRules, Eff.bind, RuleStorage.removeItem.
    cbn [snd]. now rewrite !lookup_delete_ne by congruence.
Qed.

(** When the rules entry of the storage is text that [JSON.parse] rejects,
    every operation that reads the rules throws the parser's [SyntaxError]
    and writes nothing: the readers, and [saveRule], [deactivateRule],
    [rollbackToVersion] and [deleteRule] alike.  (The text is taken to have
    no escape above [00FF]; with such an escape, [JSON.parse] of the run
    time may accept what [JSON.parse] of this model refuses.) *)
Theorem unreadable_rules_entry
        (E : Eff.Engine) (ls : RuleStorage.Storage) (text : string)
        (p : ParsedRule.t) (instr : string) (createdBy : option string)
        (uuid now id ruleType : string) (version : number) :
  ls !! RuleStorage.STORAGE_KEY = Some text ->
  text <> "" -> JSON.no_wide_escape (JS.chars text) = true ->
  JSON.parse text = None ->
  let error := Thrown ESyntaxError (Eff.syntax_error_message E text) in
  RuleStorage.getAllRules E ls = (Throw error, ls)
  /\ RuleStorage.getActiveRules E ls = (Throw error, ls)
  /\ RuleStorage.getRuleById E id ls = (Throw error, ls)
  /\ RuleStorage.getRuleVersions E ruleType ls = (Throw error, ls)
  /\ RuleStorage.getRuleStats E ls = (Throw error, ls)
  /\ RuleStorage.exportRules E ls = (Throw error, ls)
  /\ RuleStorage.saveRule E p instr createdBy uuid now ls = (Throw error, ls)
  /\ RuleStorage.deactivateRule E id ls = (Throw error, ls)
  /\ RuleStorage.rollbackToVersion E ruleType version ls = (Throw error, ls)
  /\ RuleStorage.deleteRule E id ls = (Throw error, ls).
Proof.
  intros Hs Hne _ Hparse error.
  assert (Hv : RuleStorage.getAllRules_value E ls = (Throw error, ls)).
  { rewrite StorageFacts.getAllRules_value_eq, Hs, StorageFacts.parse_or_empty_eq.
    apply String.eqb_neq in Hne. cbn [fst]. now rewrite Hne, Hparse. }
  assert (Hall : RuleStorage.getAllRules E ls = (Throw error, ls)).
  { rewrite StorageFacts.getAllRules_eq. now rewrite Hv. }
  unfold RuleStorage.getActiveRules, RuleStorage.getRuleById,
    RuleStorage.getRuleVersions, RuleStorage.getRuleStats,
    RuleStorage.exportRules, RuleStorage.saveRule, RuleStorage.deactivateRule,
    RuleStorage.rollbackToVersion, RuleStorage.deleteRule, Eff.bind.
  rewrite Hall, Hv. repeat split.
Qed.

Lemma unreadable_rules_entry_witness :
  RuleStorage.getAllRules Samples.engine {[ RuleStorage.STORAGE_KEY := "oops" ]}
  = (Throw (Thrown ESyntaxError "Unexpected token in JSON"),
     {[ RuleStorage.STORAGE_KEY := "oops" ]}).
Proof.
  apply (unreadable_rules_entry
           Samples.engine {[ RuleStorage.STORAGE_KEY := "oops" ]} "oops"
           (Samples.parsed Samples.after_ten) "" None "" "" "" "" (Num 1 0)).
  - reflexivity.
  - discriminate.
  - reflexivity.
  - vm_compute. reflexivity.
Defined.







(** ** Invariants of the histories *)

Module InvariantFacts.

Import RuleStorage StorageFacts OperationFacts HistoryFacts.

Lemma run_snoc (E : Eff.Engine) (ops : list op) (o : op) (ls : Storage) :
  run E (ops ++ [o]) ls = step E o (run E ops ls).
Proof. unfold run. now rewrite fold_left_app. Qed.

Lemma deactivate_type_lookup (ty : string) (rules : list AuditRule.t) (j : nat) :
  deactivate_type ty rules !! j
  = option_map
      (fun r => if String.eqb (AuditRule.rule_type r) ty
                then AuditRule.set_active false r else r)
      (rules !! j).
Proof.
  unfold deactivate_type. rewrite RollbackFacts.lookup_map.
  destruct (rules !! j) as [r|]; [|reflexivity]. cbn. f_equal.
  destruct (String.eqb _ _); [|reflexivity].
  destruct (AuditRule.is_active r) eqn:Ha; cbn; [reflexivity|].
  now rewrite <- Ha, RollbackFacts.set_active_same.
Qed.

(** The positions of the array [saveRule] writes back. *)
Lemma updated_rules_lookup (rules : list AuditRule.t)
      (e : option AuditRule.t) (new : AuditRule.t) (j : nat) :
  updated_rules rules e new !! j
  = if decide (j < length rules)%nat
    then option_map
           (fun r =>
              match e with
              | Some e0 =>
                  if String.eqb (AuditRule.id r) (AuditRule.id e0)
                  then AuditRule.set_active false e0 else r
              | None => r
              end)
           (rules !! j)
    else if decide (j = length rules) then Some new else None.
Proof.
  unfold updated_rules. destruct e as [e0|].
  - destruct (decide (j < length rules)%nat) as [Hlt|Hge].
    + rewrite lookup_app_l by now rewrite length_map.
      apply RollbackFacts.lookup_map.
    + rewrite lookup_app_r by (rewrite length_map; lia). rewrite length_map.
      destruct (decide (j = length rules)) as [->|Hne].
      * now rewrite Nat.sub_diag.
      * destruct (j - length rules)%nat as [|n] eqn:Hn; [lia|reflexivity].
  - destruct (decide (j < length rules)%nat) as [Hlt|Hge].
    + rewrite lookup_app_l by exact Hlt. now destruct (rules !! j).
    + rewrite lookup_app_r by lia.
      destruct (decide (j = length rules)) as [->|Hne].
      * now rewrite Nat.sub_diag.
      * destruct (j - length rules)%nat as [|n] eqn:Hn; [lia|reflexivity].
Qed.

Lemma find_lookup {A} (p : A -> bool) (l : list A) (x : A) :
  find p l = Some x -> exists i, l !! i = Some x /\ p x = true.
Proof.
  intros H. apply find_some in H. destruct H as [Hin Hp].
  destruct (ReadFacts.In_lookup l x Hin) as [i Hi]. now exists i.
Qed.

Lemma matches_active (p : ParsedRule.t) (r : AuditRule.t) :
  matches p r = true -> AuditRule.is_active r = true.
Proof.
  unfold matches. intros H. apply andb_true_iff in H. destruct H as [H _].
  apply andb_true_iff in H. now destruct H.
Qed.

Lemma same_lineage_matches (p : ParsedRule.t) (a : AuditRule.t) :
  AuditRule.rule_type a = ParsedRule.rule_type p ->
  AuditRule.conditions a = ParsedRule.conditions p ->
  AuditRule.is_active a = true -> matches p a = true.
Proof.
  intros H1 H2 H3. unfold matches. now rewrite H1, H2, H3, !String.eqb_refl.
Qed.

Lemma new_rule_lineage (p : ParsedRule.t) (instr createdBy uuid now : string)
      (e : option AuditRule.t) :
  let new := new_rule p instr createdBy uuid now e in
  match e with
  | Some e0 => AuditRule.same_lineage new e0
  | None =>
      AuditRule.rule_type new = ParsedRule.rule_type p
      /\ AuditRule.conditions new = ParsedRule.conditions p
  end.
Proof. destruct e; now split. Qed.

(** Every operation keeps the store free of a second active rule of one
    signature. *)
Lemma next_rules_one_active (o : op) (rules : list AuditRule.t) :
  one_active_per_signature rules ->
  one_active_per_signature (next_rules o rules).
Proof.
  intros Hone. destruct o as [p instr by_ uuid now|ty v|id]; cbn [next_rules].
  - set (e := find (matches p) rules).
    set (new := new_rule p instr (default "system" by_) uuid now e).
    pose proof (new_rule_lineage p instr (default "system" by_) uuid now e)
      as Hlin. cbn zeta in Hlin. fold new in Hlin.
    assert (Hclash : forall i a,
               (i < length rules)%nat ->
               updated_rules rules e new !! i = Some a ->
               AuditRule.is_active a = true ->
               AuditRule.same_lineage a new -> False).
    { intros i a Hi Ha Hact Hsame.
      rewrite updated_rules_lookup, decide_True in Ha by exact Hi.
      destruct (rules !! i) as [r|] eqn:Hr; [|discriminate].
      cbn in Ha. injection Ha as Ha.
      destruct e as [e0|] eqn:He.
      - destruct (find_lookup _ _ _ He) as (k & Hk & Hm).
        destruct (String.eqb (AuditRule.id r) (AuditRule.id e0)) eqn:Hid.
        + subst a. now destruct e0.
        + subst a.
          assert (i = k).
          { apply (Hone i k r e0 Hr Hk Hact (matches_active _ _ Hm)).
            now apply (LineageFacts.same_lineage_trans r new e0). }
          subst k. assert (r = e0) by congruence. subst r.
          now rewrite String.eqb_refl in Hid.
      - subst a. destruct Hlin as [Ht Hc]. destruct Hsame as [Ht' Hc'].
        assert (Hm : matches p r = true)
          by (apply same_lineage_matches; congruence).
        pose proof (find_none _ _ He r (ReadFacts.lookup_In _ _ _ Hr)).
        congruence. }
    assert (Hold : forall i a,
               (i < length rules)%nat ->
               updated_rules rules e new !! i = Some a ->
               AuditRule.is_active a = true -> rules !! i = Some a).
    { intros i a Hi Ha Hact.
      rewrite updated_rules_lookup, decide_True in Ha by exact Hi.
      destruct (rules !! i) as [r|] eqn:Hr; [|discriminate].
      cbn in Ha. injection Ha as Ha. destruct e as [e0|]; [|congruence].
      destruct (String.eqb _ _); [|congruence].
      subst a. now destruct e0. }
    intros i j a b Ha Hb Hacta Hactb Hsame.
    assert (Hi : (i <= length rules)%nat).
    { apply lookup_lt_Some in Ha. unfold updated_rules in Ha.
      destruct e; rewrite length_app in Ha; try rewrite length_map in Ha;
        cbn in Ha; lia. }
    assert (Hj : (j <= length rules)%nat).
    { apply lookup_lt_Some in Hb. unfold updated_rules in Hb.
      destruct e; rewrite length_app in Hb; try rewrite length_map in Hb;
        cbn in Hb; lia. }
    destruct (decide (i < length rules)%nat) as [Hi'|Hi'],
             (decide (j < length rules)%nat) as [Hj'|Hj'].
    + apply (Hone i j a b); auto.
    + exfalso. apply (Hclash i a Hi' Ha Hacta).
      rewrite updated_rules_lookup, decide_False, decide_True in Hb by lia.
      congruence.
    + exfalso. apply (Hclash j b Hj' Hb Hactb).
      rewrite updated_rules_lookup, decide_False, decide_True in Ha by lia.
      apply LineageFacts.same_lineage_sym. congruence.
    + lia.
  - destruct (findIndex (is_target ty v) rules) as [k|] eqn:Hk; [|exact Hone].
    destruct (findIndex_some _ _ _ Hk) as (x & Hx & Hpx & _).
    apply RollbackFacts.is_target_true in Hpx. destruct Hpx as [Hty _].
    destruct (RollbackFacts.rolled_back_lookup ty k rules x Hx Hty)
      as [Hat Hother].
    assert (Hrest : forall i a,
               i <> k ->
               set_active_at k true (deactivate_type ty rules) !! i = Some a ->
               AuditRule.is_active a = true ->
               rules !! i = Some a /\ AuditRule.rule_type a <> ty).
    { intros i a Hi Ha Hact.
      destruct (rules !! i) as [r|] eqn:Hr.
      - rewrite (Hother i r Hr Hi) in Ha. injection Ha as Ha.
        destruct (String.eqb (AuditRule.rule_type r) ty) eqn:Hrt.
        + subst a. now destruct r.
        + subst a. split; [reflexivity|]. now apply String.eqb_neq.
      - exfalso. apply lookup_lt_Some in Ha.
        rewrite ReadFacts.set_active_at_length in Ha.
        unfold deactivate_type in Ha. rewrite length_map in Ha.
        apply lookup_ge_None in Hr. lia. }
    intros i j a b Ha Hb Hacta Hactb Hlin.
    pose proof Hlin as [Hsame _].
    destruct (decide (i = k)) as [->|Hi], (decide (j = k)) as [->|Hj];
      [reflexivity| | |].
    + exfalso. destruct (Hrest j b Hj Hb Hactb) as [_ Hne]. apply Hne.
      rewrite <- Hsame. rewrite Hat in Ha. injection Ha as <-.
      now destruct x.
    + exfalso. destruct (Hrest i a Hi Ha Hacta) as [_ Hne]. apply Hne.
      rewrite Hsame. rewrite Hat in Hb. injection Hb as <-.
      now destruct x.
    + destruct (Hrest i a Hi Ha Hacta) as [Ha' _].
      destruct (Hrest j b Hj Hb Hactb) as [Hb' _].
      apply (Hone i j a b); auto.
  - destruct (findIndex _ rules) as [k|] eqn:Hk; [|exact Hone].
    assert (Hrest : forall i a,
               set_active_at k false rules !! i = Some a ->
               AuditRule.is_active a = true -> rules !! i = Some a).
    { intros i a Ha Hact. rewrite ReadFacts.set_active_at_lookup in Ha.
      destruct (decide (i = k)) as [->|Hne]; [|exact Ha].
      destruct (rules !! k) as [r|]; [|discriminate].
      cbn in Ha. injection Ha as <-. now destruct r. }
    intros i j a b Ha Hb Hacta Hactb Hsame.
    apply (Hone i j a b); auto.
Qed.

Lemma contents_one_active (ops : list op) :
  one_active_per_signature (contents ops).
Proof.
  induction ops as [|o ops IH] using rev_ind.
  - intros i j a b Ha. discriminate.
  - rewrite contents_snoc. now apply next_rules_one_active.
Qed.

(** *** Identifiers *)

Lemma set_active_at_ids (k : nat) (b : bool) (rules : list AuditRule.t) :
  map AuditRule.id (set_active_at k b rules) = map AuditRule.id rules.
Proof.
  apply list_eq. intros j. rewrite !RollbackFacts.lookup_map.
  rewrite ReadFacts.set_active_at_lookup.
  destruct (decide (j = k)) as [->|Hne]; [|reflexivity].
  now destruct (rules !! k) as [[]|].
Qed.

Lemma deactivate_type_ids (ty : string) (rules : list AuditRule.t) :
  map AuditRule.id (deactivate_type ty rules) = map AuditRule.id rules.
Proof.
  unfold deactivate_type. rewrite map_map. apply map_ext. intros r.
  destruct (_ && _); [now destruct r|reflexivity].
Qed.

Lemma next_rules_ids (o : op) (rules : list AuditRule.t) :
  map AuditRule.id (next_rules o rules) = map AuditRule.id rules ++ uuids [o].
Proof.
  destruct o as [p instr by_ uuid now|ty v|id]; cbn [next_rules].
  - rewrite LineageFacts.ids_updated. cbn. f_equal. f_equal.
    now destruct (find _ rules).
  - cbn. rewrite app_nil_r. destruct (findIndex _ rules); [|reflexivity].
    now rewrite set_active_at_ids, deactivate_type_ids.
  - cbn. rewrite app_nil_r. destruct (findIndex _ rules); [|reflexivity].
    now rewrite set_active_at_ids.
Qed.

Lemma contents_ids (ops : list op) :
  map AuditRule.id (contents ops) = uuids ops.
Proof.
  induction ops as [|o ops IH] using rev_ind; [reflexivity|].
  now rewrite contents_snoc, next_rules_ids, uuids_snoc, IH.
Qed.

End InvariantFacts.

Module ExtensionFacts.

Import RuleStorage StorageFacts OperationFacts HistoryFacts InvariantFacts.

Lemma set_active_twice (b c : bool) (r : AuditRule.t) :
  AuditRule.set_active b (AuditRule.set_active c r) = AuditRule.set_active b r.
Proof. now destruct r. Qed.

(** With distinct identifiers, an operation leaves every stored rule in
    its place and changes at most its [is_active]. *)
Lemma next_rules_keeps (o : op) (rules : list AuditRule.t) (i : nat)
      (r : AuditRule.t) :
  List.NoDup (map AuditRule.id rules) -> rules !! i = Some r ->
  exists b, next_rules o rules !! i = Some (AuditRule.set_active b r).
Proof.
  intros Hnd Hr. pose proof (lookup_lt_Some _ _ _ Hr) as Hi.
  destruct o as [p instr by_ uuid now|ty v|id]; cbn [next_rules].
  - rewrite updated_rules_lookup, decide_True, Hr by exact Hi. cbn.
    destruct (find (matches p) rules) as [e0|] eqn:He.
    + destruct (String.eqb (AuditRule.id r) (AuditRule.id e0)) eqn:Hid.
      * apply String.eqb_eq in Hid. apply find_some in He. destruct He as [He _].
        assert (r = e0)
          by (apply (LineageFacts.NoDup_map_eq AuditRule.id rules); auto;
              now apply (ReadFacts.lookup_In rules i)).
        subst e0. now exists false.
      * exists (AuditRule.is_active r). now rewrite RollbackFacts.set_active_same.
    + exists (AuditRule.is_active r). now rewrite RollbackFacts.set_active_same.
  - destruct (findIndex _ rules) as [k|].
    + rewrite ReadFacts.set_active_at_lookup, !deactivate_type_lookup.
      destruct (decide (i = k)) as [->|Hne]; rewrite Hr; cbn.
      * exists true. destruct (String.eqb _ _); [|reflexivity].
        now rewrite set_active_twice.
      * destruct (String.eqb _ _); [now exists false|].
        exists (AuditRule.is_active r). now rewrite RollbackFacts.set_active_same.
    + exists (AuditRule.is_active r). now rewrite RollbackFacts.set_active_same.
  - destruct (findIndex _ rules) as [k|].
    + rewrite ReadFacts.set_active_at_lookup.
      destruct (decide (i = k)) as [->|Hne]; [rewrite Hr; now exists false|].
      exists (AuditRule.is_active r). now rewrite RollbackFacts.set_active_same.
    + exists (AuditRule.is_active r). now rewrite RollbackFacts.set_active_same.
Qed.

Lemma contents_keeps (ops1 ops2 : list op) (i : nat) (r : AuditRule.t) :
  List.NoDup (uuids (ops1 ++ ops2)) -> contents ops1 !! i = Some r ->
  exists b, contents (ops1 ++ ops2) !! i = Some (AuditRule.set_active b r).
Proof.
  induction ops2 as [|o ops2 IH] using rev_ind; intros Hnd Hr.
  - rewrite app_nil_r. exists (AuditRule.is_active r).
    now rewrite RollbackFacts.set_active_same.
  - rewrite app_assoc in *. rewrite uuids_snoc in Hnd.
    apply NoDup_app_remove_r in Hnd.
    destruct (IH Hnd Hr) as [b Hb]. rewrite contents_snoc.
    destruct (next_rules_keeps o (contents (ops1 ++ ops2)) i
                (AuditRule.set_active b r)) as [c Hc];
      [now rewrite contents_ids|exact Hb|].
    exists c. now rewrite set_active_twice in Hc.
Qed.

(** *** The version log *)

Lemma history_entry_set_active (b : bool) (r : AuditRule.t) :
  history_entry (AuditRule.set_active b r) = history_entry r.
Proof. now destruct r. Qed.

(** [saveRule] on a typed store whose version log holds [entries]. *)
Lemma saveRule_log (E : Eff.Engine) (p : ParsedRule.t) (instr : string)
      (createdBy : option string) (uuid now : string)
      (ls : Storage) (rules : list AuditRule.t) (entries : list json) :
  holds E ls rules ->
  fst (getVersionHistory E ls) = Ok (JArr entries) ->
  ParsedRule.representable p ->
  let new := new_rule p instr (default "system" createdBy) uuid now
                      (find (matches p) rules) in
  saveRule E p instr createdBy uuid now ls
  = (Ok new,
     <[VERSION_KEY := JSON.stringify (JArr (entries ++ [history_entry new]))]>
       (<[STORAGE_KEY :=
            JSON.stringify
              (AuditRule.encode_all
                 (updated_rules rules (find (matches p) rules) new))]> ls))
  /\ fst (getVersionHistory E (snd (saveRule E p instr createdBy uuid now ls)))
     = Ok (JArr (entries ++ [history_entry new])).
Proof.
  intros Hholds Hlog Hp new.
  pose proof (holds_wf _ _ _ Hholds) as Hwf.
  assert (Hnew : AuditRule.well_formed new).
  { apply new_rule_wf; [exact Hp|].
    intros e0 H. now apply (find_wf (matches p) rules). }
  assert (Hsave :
            saveRule E p instr createdBy uuid now ls
            = (Ok new,
               <[VERSION_KEY :=
                   JSON.stringify (JArr (entries ++ [history_entry new]))]>
                 (<[STORAGE_KEY :=
                      JSON.stringify
                        (AuditRule.encode_all
                           (updated_rules rules (find (matches p) rules) new))]>
                    ls))).
  { unfold saveRule, Eff.bind. rewrite (holds_eq _ _ _ Hholds). fold new.
    unfold write_rules, setItem, saveVersionHistory, Eff.bind.
    rewrite getVersionHistory_eq. cbn [fst].
    rewrite getVersionHistory_eq in Hlog. cbn [fst] in Hlog.
    rewrite lookup_insert_ne by apply keys_differ.
    rewrite parse_or_empty_eq in *. cbn [fst] in *. rewrite Hlog.
    reflexivity. }
  split; [exact Hsave|]. rewrite Hsave. cbn [snd].
  rewrite getVersionHistory_eq. cbn [fst].
  apply read_after_write. cbn [JSON.wf]. rewrite forallb_app.
  rewrite getVersionHistory_eq in Hlog. cbn [fst] in Hlog.
  apply parse_or_empty_wf in Hlog. cbn [JSON.wf] in Hlog. rewrite Hlog.
  cbn [forallb]. now rewrite history_entry_wf.
Qed.

(** Rollbacks and deactivations leave the version log alone. *)
Lemma step_keeps_log (E : Eff.Engine) (o : op) (ls : Storage)
      (rules : list AuditRule.t) :
  holds E ls rules -> is_save o = false ->
  fst (getVersionHistory E (step E o ls)) = fst (getVersionHistory E ls).
Proof.
  intros Hholds Ho. destruct o as [p instr by_ uuid now|ty v|id];
    [discriminate| |]; cbn [step].
  - rewrite (ReadFacts.rollbackToVersion_eq E ty v ls rules Hholds).
    destruct (findIndex _ rules); [|reflexivity].
    cbn [snd]. apply history_other_key.
  - rewrite (ReadFacts.deactivateRule_eq E id ls rules Hholds).
    destruct (findIndex _ rules); [|reflexivity].
    cbn [snd]. apply history_other_key.
Qed.

Lemma next_rules_entries (o : op) (rules : list AuditRule.t) :
  is_save o = false ->
  map history_entry (next_rules o rules) = map history_entry rules.
Proof.
  intros Ho. apply list_eq. intros j. rewrite !RollbackFacts.lookup_map.
  destruct o as [p instr by_ uuid now|ty v|id]; [discriminate| |];
    cbn [next_rules].
  - destruct (findIndex _ rules) as [k|]; [|reflexivity].
    rewrite ReadFacts.set_active_at_lookup, !deactivate_type_lookup.
    destruct (decide (j = k)) as [->|Hne];
      destruct (rules !! _) as [r|]; cbn; try reflexivity;
      destruct (String.eqb _ _); now rewrite ?history_entry_set_active.
  - destruct (findIndex _ rules) as [k|]; [|reflexivity].
    rewrite ReadFacts.set_active_at_lookup.
    destruct (decide (j = k)) as [->|Hne]; [|reflexivity].
    destruct (rules !! k) as [r|]; cbn; [|reflexivity].
    now rewrite history_entry_set_active.
Qed.

Lemma updated_rules_entries (rules : list AuditRule.t)
      (e : option AuditRule.t) (new : AuditRule.t) :
  List.NoDup (map AuditRule.id rules) ->
  (forall e0, e = Some e0 -> In e0 rules) ->
  map history_entry (updated_rules rules e new)
  = map history_entry rules ++ [history_entry new].
Proof.
  intros Hnd He. unfold updated_rules. destruct e as [e0|];
    rewrite map_app; [|reflexivity].
  f_equal. rewrite map_map. apply map_ext_in. intros r Hr.
  destruct (String.eqb (AuditRule.id r) (AuditRule.id e0)) eqn:Hid;
    [|reflexivity].
  apply String.eqb_eq in Hid.
  assert (r = e0)
    by (apply (LineageFacts.NoDup_map_eq AuditRule.id rules); auto).
  subst e0. apply history_entry_set_active.
Qed.

(** After a history with distinct identifiers, the version log lists the
    stored rules. *)
Lemma run_log (E : Eff.Engine) (ops : list op) :
  Forall representable_op ops -> List.NoDup (uuids ops) ->
  fst (getVersionHistory E (run E ops ∅))
  = Ok (JArr (map history_entry (contents ops))).
Proof.
  induction ops as [|o ops IH] using rev_ind; intros Hrep Hnd; [reflexivity|].
  apply Forall_app in Hrep. destruct Hrep as [Hrep Ho].
  rewrite uuids_snoc in Hnd. pose proof (NoDup_app_remove_r _ _ Hnd) as Hnd'.
  specialize (IH Hrep Hnd').
  destruct (run_from_empty E ops Hrep) as [Hst _].
  pose proof (stores_holds _ _ _ Hst) as Hholds.
  rewrite run_snoc, contents_snoc.
  destruct (is_save o) eqn:Hs.
  - destruct o as [p instr by_ uuid now| |]; try discriminate.
    cbn [step next_rules].
    apply Forall_inv in Ho. cbn in Ho.
    destruct (saveRule_log E p instr by_ uuid now _ _ _ Hholds IH Ho)
      as [_ Hlog].
    rewrite Hlog. f_equal. f_equal. symmetry.
    apply updated_rules_entries; [now rewrite contents_ids|].
    intros e0 He. now apply find_some in He.
  - rewrite (step_keeps_log E o _ _ Hholds Hs), IH.
    now rewrite next_rules_entries.
Qed.

End ExtensionFacts.

(** In every store reached from the empty store by saves, rollbacks and
    deactivations, no signature [(rule_type, conditions)] has two active
    rules. *)
Theorem one_active_rule_per_signature
        (E : Eff.Engine) (ops : list RuleStorage.op) :
  Forall RuleStorage.representable_op ops ->
  exists rules,
    RuleStorage.getAllRules E (RuleStorage.run E ops ∅)
    = (Ok rules, RuleStorage.run E ops ∅)
    /\ RuleStorage.one_active_per_signature rules.
Proof.
  intros Hrep. destruct (HistoryFacts.run_from_empty E ops Hrep) as [Hst _].
  exists (RuleStorage.contents ops). split.
  - now apply StorageFacts.holds_eq, StorageFacts.stores_holds.
  - apply InvariantFacts.contents_one_active.
Qed.

Lemma one_active_rule_per_signature_witness :
  exists rules,
    RuleStorage.getAllRules
      Samples.engine (RuleStorage.run Samples.engine Samples.saved_and_rolled_back ∅)
    = (Ok rules, RuleStorage.run Samples.engine Samples.saved_and_rolled_back ∅)
    /\ RuleStorage.one_active_per_signature rules.
Proof.
  apply (one_active_rule_per_signature Samples.engine Samples.saved_and_rolled_back).
  repeat constructor.
Defined.

(** The store holds one rule per save, in the order of the saves, each
    under the identifier drawn for it: saves append, and neither a save nor
    a rollback nor a deactivation removes or reorders a rule. *)
Theorem stored_ids_are_the_saved_ids
        (E : Eff.Engine) (ops : list RuleStorage.op) :
  Forall RuleStorage.representable_op ops ->
  exists rules,
    RuleStorage.getAllRules E (RuleStorage.run E ops ∅)
    = (Ok rules, RuleStorage.run E ops ∅)
    /\ map AuditRule.id rules = RuleStorage.uuids ops.
Proof.
  intros Hrep. destruct (HistoryFacts.run_from_empty E ops Hrep) as [Hst _].
  exists (RuleStorage.contents ops). split.
  - now apply StorageFacts.holds_eq, StorageFacts.stores_holds.
  - apply InvariantFacts.contents_ids.
Qed.

Lemma stored_ids_are_the_saved_ids_witness :
  exists rules,
    RuleStorage.getAllRules
      Samples.engine (RuleStorage.run Samples.engine Samples.saved_and_rolled_back ∅)
    = (Ok rules, RuleStorage.run Samples.engine Samples.saved_and_rolled_back ∅)
    /\ map AuditRule.id rules = ["id1"; "id2"; "id3"].
Proof.
  apply (stored_ids_are_the_saved_ids Samples.engine Samples.saved_and_rolled_back).
  repeat constructor.
Defined.

(** With distinct identifiers, saves, rollbacks and deactivations never
    rewrite a stored rule: whatever operations follow, every rule stays at
    its position with every field as it was, [is_active] excepted. *)
Theorem stored_rules_only_change_activity
        (E : Eff.Engine) (ops later : list RuleStorage.op) :
  Forall RuleStorage.representable_op (ops ++ later) ->
  List.NoDup (RuleStorage.uuids (ops ++ later)) ->
  exists before after,
    RuleStorage.holds E (RuleStorage.run E ops ∅) before
    /\ RuleStorage.holds E (RuleStorage.run E later (RuleStorage.run E ops ∅))
                         after
    /\ forall i r,
         before !! i = Some r ->
         exists b, after !! i = Some (AuditRule.set_active b r).
Proof.
  intros Hrep Hnd.
  destruct (HistoryFacts.run_from_empty E (ops ++ later) Hrep) as [Hst2 _].
  apply Forall_app in Hrep. destruct Hrep as [Hrep1 _].
  destruct (HistoryFacts.run_from_empty E ops Hrep1) as [Hst1 _].
  exists (RuleStorage.contents ops), (RuleStorage.contents (ops ++ later)).
  split; [now apply StorageFacts.stores_holds|]. split.
  - unfold RuleStorage.run in *. rewrite fold_left_app in Hst2.
    now apply StorageFacts.stores_holds.
  - intros i r Hr. now apply ExtensionFacts.contents_keeps.
Qed.

Lemma stored_rules_only_change_activity_witness :
  exists before after,
    RuleStorage.holds
      Samples.engine
      (RuleStorage.run Samples.engine [Samples.save "id1"; Samples.save "id2"] ∅)
      before
    /\ RuleStorage.holds
         Samples.engine
         (RuleStorage.run
            Samples.engine
            [Samples.save "id3"; RuleStorage.Rollback "time_based" (Num 1 0)]
            (RuleStorage.run
               Samples.engine [Samples.save "id1"; Samples.save "id2"] ∅))
         after
    /\ forall i r,
         before !! i = Some r ->
         exists b, after !! i = Some (AuditRule.set_active b r).
Proof.
  apply (stored_rules_only_change_activity
           Samples.engine [Samples.save "id1"; Samples.save "id2"]
           [Samples.save "id3"; RuleStorage.Rollback "time_based" (Num 1 0)]).
  - repeat constructor.
  - repeat constructor; cbn; intuition discriminate.
Defined.

(** With distinct identifiers, the version log mirrors the store: after any
    saves, rollbacks and deactivations its entries describe the stored
    rules one by one, in order ([rule_id], [rule_type], [version],
    [timestamp], [created_by], and the action "created").  Only saves append
    to it. *)
Theorem version_log_mirrors_store
        (E : Eff.Engine) (ops : list RuleStorage.op) :
  Forall RuleStorage.representable_op ops ->
  List.NoDup (RuleStorage.uuids ops) ->
  exists rules,
    RuleStorage.getAllRules E (RuleStorage.run E ops ∅)
    = (Ok rules, RuleStorage.run E ops ∅)
    /\ RuleStorage.getVersionHistory E (RuleStorage.run E ops ∅)
       = (Ok (JArr (map RuleStorage.history_entry rules)),
          RuleStorage.run E ops ∅).
Proof.
  intros Hrep Hnd. destruct (HistoryFacts.run_from_empty E ops Hrep) as [Hst _].
  exists (RuleStorage.contents ops). split.
  - now apply StorageFacts.holds_eq, StorageFacts.stores_holds.
  - pose proof (ExtensionFacts.run_log E ops Hrep Hnd) as Hlog.
    rewrite StorageFacts.getVersionHistory_eq in *. cbn [fst] in Hlog.
    now rewrite Hlog.
Qed.

Lemma version_log_mirrors_store_witness :
  exists rules,
    RuleStorage.getAllRules
      Samples.engine (RuleStorage.run Samples.engine Samples.saved_and_rolled_back ∅)
    = (Ok rules, RuleStorage.run Samples.engine Samples.saved_and_rolled_back ∅)
    /\ RuleStorage.getVersionHistory
         Samples.engine
         (RuleStorage.run Samples.engine Samples.saved_and_rolled_back ∅)
       = (Ok (JArr (map RuleStorage.history_entry rules)),
          RuleStorage.run Samples.engine Samples.saved_and_rolled_back ∅).
Proof.
  apply (version_log_mirrors_store Samples.engine Samples.saved_and_rolled_back).
  - repeat constructor.
  - repeat constructor; cbn; intuition discriminate.
Defined.

Module RollbackReadFacts.

Import RuleStorage StorageFacts OperationFacts InvariantFacts.

(** The array after a rollback, position by position. *)
Lemma rolled_back_at (ty : string) (k : nat) (rules : list AuditRule.t) (j : nat) :
  set_active_at k true (deactivate_type ty rules) !! j
  = option_map
      (fun r =>
         if decide (j = k) then AuditRule.set_active true r
         else if String.eqb (AuditRule.rule_type r) ty
              then AuditRule.set_active false r else r)
      (rules !! j).
Proof.
  rewrite ReadFacts.set_active_at_lookup, !deactivate_type_lookup.
  destruct (decide (j = k)) as [->|Hne]; [|reflexivity].
  destruct (rules !! k) as [r|]; [|reflexivity]. cbn. f_equal.
  destruct (String.eqb _ _); [|reflexivity].
  apply ExtensionFacts.set_active_twice.
Qed.


(** The active rules of the rolled-back type: the target alone. *)
Lemma rolled_back_active (ty : string) (k : nat) (rules : list AuditRule.t)
      (x : AuditRule.t) :
  rules !! k = Some x -> AuditRule.rule_type x = ty ->
  List.filter (fun r => String.eqb (AuditRule.rule_type r) ty)
    (List.filter (fun r => AuditRule.is_active r)
                 (set_active_at k true (deactivate_type ty rules)))
  = [AuditRule.set_active true x].
Proof.
  intros Hx Hty.
  set (g := fun r => if String.eqb (AuditRule.rule_type r) ty
                     then AuditRule.set_active false r else r).
  assert (Hsplit : set_active_at k true (deactivate_type ty rules)
                   = map g (take k rules)
                       ++ AuditRule.set_active true x :: map g (drop (S k) rules)).
  { apply list_eq. intros j. rewrite rolled_back_at.
    pose proof (lookup_lt_Some _ _ _ Hx) as Hk.
    destruct (decide (j < k)%nat) as [Hlt|Hge].
    - rewrite lookup_app_l by (rewrite length_map, length_take; lia).
      rewrite RollbackFacts.lookup_map, lookup_take_lt by exact Hlt.
      destruct (rules !! j); [|reflexivity]. cbn.
      now rewrite decide_False by lia.
    - rewrite lookup_app_r by (rewrite length_map, length_take; lia).
      rewrite length_map, length_take, Nat.min_l by lia.
      destruct (decide (j = k)) as [->|Hne].
      + rewrite Nat.sub_diag, Hx. reflexivity.
      + destruct (j - k)%nat as [|n] eqn:Hn; [lia|].
        change ((AuditRule.set_active true x :: map g (drop (S k) rules)) !! S n)
          with (map g (drop (S k) rules) !! n).
        rewrite RollbackFacts.lookup_map, lookup_drop.
        replace (S k + n)%nat with j by lia.
        now destruct (rules !! j). }
  assert (Hnone : forall l,
             List.filter (fun r => String.eqb (AuditRule.rule_type r) ty)
               (List.filter (fun r => AuditRule.is_active r) (map g l)) = []).
  { induction l as [|r l IH]; [reflexivity|]. cbn [map List.filter].
    destruct (String.eqb (AuditRule.rule_type r) ty) eqn:Hrt.
    - replace (g r) with (AuditRule.set_active false r)
        by (unfold g; now rewrite Hrt).
      replace (AuditRule.is_active (AuditRule.set_active false r)) with false
        by now destruct r.
      exact IH.
    - replace (g r) with r by (unfold g; now rewrite Hrt).
      destruct (AuditRule.is_active r); [|exact IH].
      cbn [List.filter]. now rewrite Hrt. }
  rewrite Hsplit, !List.filter_app. cbn [List.filter].
  replace (AuditRule.is_active (AuditRule.set_active true x)) with true
    by now destruct x.
  cbn [List.filter].
  replace (AuditRule.rule_type (AuditRule.set_active true x))
    with (AuditRule.rule_type x) by now destruct x.
  rewrite Hty, String.eqb_refl, !Hnone. reflexivity.
Qed.

End RollbackReadFacts.

(** After a successful rollback, the rule returned is the one active rule of
    its rule type: among the rules [getActiveRules] returns, those of the
    rolled-back type are the target alone. *)
Theorem rollback_leaves_one_active_of_type
        (E : Eff.Engine) (ruleType : string) (version : number)
        (ls ls' : RuleStorage.Storage) (rules : list AuditRule.t)
        (target : AuditRule.t) :
  RuleStorage.holds E ls rules ->
  RuleStorage.rollbackToVersion E ruleType version ls = (Ok (Some target), ls') ->
  exists actives,
    RuleStorage.getActiveRules E ls' = (Ok actives, ls')
    /\ List.filter (fun r => String.eqb (AuditRule.rule_type r) ruleType) actives
       = [target].
Proof.
  intros Hholds Hroll.
  pose proof (StorageFacts.holds_wf _ _ _ Hholds) as Hwf.
  rewrite (ReadFacts.rollbackToVersion_eq E ruleType version ls rules Hholds)
    in Hroll.
  destruct (RuleStorage.findIndex _ rules) as [k|] eqn:Hk; [|discriminate].
  destruct (OperationFacts.findIndex_some _ _ _ Hk) as (x & Hx & Hpx & _).
  apply RollbackFacts.is_target_true in Hpx. destruct Hpx as [Hty _].
  destruct (RollbackFacts.rolled_back_lookup ruleType k rules x Hx Hty)
    as [Hat _].
  rewrite Hat in Hroll. injection Hroll as <- <-.
  eexists. split.
  - apply ReadFacts.getActiveRules_eq, ReadFacts.holds_written.
    now apply OperationFacts.set_active_at_wf, OperationFacts.deactivate_type_wf.
  - now apply RollbackReadFacts.rolled_back_active.
Qed.

Lemma rollback_leaves_one_active_of_type_witness :
  exists actives,
    RuleStorage.getActiveRules
      Samples.engine
      (snd (RuleStorage.rollbackToVersion
              Samples.engine "time_based" (Num 1 0)
              (Samples.store_of Samples.two_lineages)))
    = (Ok actives,
       snd (RuleStorage.rollbackToVersion
              Samples.engine "time_based" (Num 1 0)
              (Samples.store_of Samples.two_lineages)))
    /\ List.filter (fun r => String.eqb (AuditRule.rule_type r) "time_based")
                   actives
       = [Samples.rule "a1" 1 Samples.after_ten true].
Proof.
  apply (rollback_leaves_one_active_of_type
           Samples.engine "time_based" (Num 1 0)
           (Samples.store_of Samples.two_lineages) _ Samples.two_lineages).
  - vm_compute. reflexivity.
  - vm_compute. reflexivity.
Defined.



(** ** The order of numbers *)

Module OrderFacts.

Import Number.







End OrderFacts.

(** ** Sorting *)

Module SortFacts.

Import JSArray.

Section Sorting.
Context {A : Type}.
Variable comparefn : A -> A -> Z.

(** [before a b]: [a] may stand in front of [b]. *)
Let before (a b : A) : Prop := comparefn a b <= 0.

Hypothesis before_total : forall a b, ~ before a b -> before b a.
Hypothesis before_trans : forall a b c, before a b -> before b c -> before a c.





End Sorting.


End SortFacts.



(** ** Statistics *)

Module StatsFacts.

Import RuleStorage.

Lemma count_up_records (key : string) (counts : gmap string number)
      (n : string -> nat) :
  records counts n ->
  records (count_up key counts)
          (fun name => if String.eqb key name then S (n name) else n name).
Proof.
  intros H name. unfold count_up.
  destruct (String.eqb key name) eqn:Hk.
  - apply String.eqb_eq in Hk. subst name. rewrite lookup_insert_eq, (H key).
    f_equal. destruct (n key) as [|k].
    + reflexivity.
    + replace (Number.is_zero (Number.of_Z (Z.of_nat (S k)))) with false
        by (symmetry; apply Z.eqb_neq; cbn; lia).
      rewrite NumberFacts.add_one. f_equal. lia.
  - apply String.eqb_neq in Hk. rewrite lookup_insert_ne by exact Hk. apply H.
Qed.

Lemma fold_count_up {A} (key : A -> string) (l : list A)
      (counts : gmap string number) (n : string -> nat) :
  records counts n ->
  records (fold_left (fun acc x => count_up (key x) acc) l counts)
          (fun name => (n name + filed key name l)%nat).
Proof.
  revert counts n. induction l as [|x l IH]; intros counts n H.
  - intros name. unfold filed. cbn. rewrite Nat.add_0_r. apply H.
  - cbn [fold_left].
    pose proof (IH _ _ (count_up_records (key x) counts n H)) as H'.
    intros name. rewrite (H' name). unfold filed. cbn [List.filter].
    destruct (String.eqb (key x) name); cbn [length];
      now rewrite ?Nat.add_succ_r.
Qed.

Lemma fold_pair {A B C} (f : A -> B -> B) (g : A -> C -> C) (l : list A)
      (b : B) (c : C) :
  fold_left (fun '(b, c) x => (f x b, g x c)) l (b, c)
  = (fold_left (fun b x => f x b) l b, fold_left (fun c x => g x c) l c).
Proof.
  revert b c. induction l as [|x l IH]; intros b c; [reflexivity|].
  cbn [fold_left]. apply IH.
Qed.

End StatsFacts.

(** [getRuleStats] counts the stored rules: [total] is the number of rules,
    [active] the number of active ones, and [byType] and [byAction] give,
    for every rule type and every action, the number of active rules that
    carry it; a name that no active rule carries has no entry.  The storage
    is not written.  (The rule types and actions of the active rules are
    taken not to be property names of [Object.prototype].) *)
Theorem rule_stats_count_active_rules
        (E : Eff.Engine) (ls : RuleStorage.Storage) (rules : list AuditRule.t) :
  RuleStorage.holds E ls rules ->
  (forall r, In r rules -> AuditRule.is_active r = true ->
             RuleStorage.is_inherited (AuditRule.rule_type r) = false
             /\ RuleStorage.is_inherited (AuditRule.action r) = false) ->
  let activeRules := List.filter (fun r => AuditRule.is_active r) rules in
  exists stats,
    RuleStorage.getRuleStats E ls = (Ok stats, ls)
    /\ RuleStorage.total stats = Number.of_Z (Z.of_nat (length rules))
    /\ RuleStorage.active stats = Number.of_Z (Z.of_nat (length activeRules))
    /\ RuleStorage.records (RuleStorage.byType stats)
               (fun name => RuleStorage.filed AuditRule.rule_type name activeRules)
    /\ RuleStorage.records (RuleStorage.byAction stats)
               (fun name => RuleStorage.filed AuditRule.action name activeRules).
Proof.
  intros Hholds Hnames activeRules.
  assert (Hguard :
            existsb (fun rule => RuleStorage.is_inherited (AuditRule.rule_type rule)
                                 || RuleStorage.is_inherited (AuditRule.action rule))
                    activeRules = false).
  { destruct (existsb _ activeRules) eqn:Hex; [|reflexivity].
    apply existsb_exists in Hex. destruct Hex as (r & Hr & Hbad).
    apply filter_In in Hr. destruct Hr as [Hr Hact].
    destruct (Hnames r Hr Hact) as [H1 H2]. now rewrite H1, H2 in Hbad. }
  assert (Hempty : forall counts : string -> nat,
             (forall name, counts name = 0%nat) ->
             RuleStorage.records (∅ : gmap string number) counts).
  { intros counts H name. now rewrite lookup_empty, H. }
  unfold RuleStorage.getRuleStats, Eff.bind.
  rewrite (StorageFacts.holds_eq _ _ _ Hholds). fold activeRules.
  rewrite Hguard, StatsFacts.fold_pair.
  eexists. split; [reflexivity|]. cbn.
  split; [reflexivity|]. split; [reflexivity|]. split.
  - apply (StatsFacts.fold_count_up AuditRule.rule_type activeRules ∅ (fun _ => 0%nat)).
    now apply Hempty.
  - apply (StatsFacts.fold_count_up AuditRule.action activeRules ∅ (fun _ => 0%nat)).
    now apply Hempty.
Qed.

Lemma rule_stats_count_active_rules_witness :
  exists stats,
    RuleStorage.getRuleStats Samples.engine (Samples.store_of Samples.two_lineages)
    = (Ok stats, Samples.store_of Samples.two_lineages)
    /\ RuleStorage.total stats = Num 2 0
    /\ RuleStorage.active stats = Num 2 0
    /\ RuleStorage.records (RuleStorage.byType stats)
               (fun name => RuleStorage.filed AuditRule.rule_type name Samples.two_lineages)
    /\ RuleStorage.records (RuleStorage.byAction stats)
               (fun name => RuleStorage.filed AuditRule.action name Samples.two_lineages).
Proof.
  apply (rule_stats_count_active_rules
           Samples.engine (Samples.store_of Samples.two_lineages)
           Samples.two_lineages).
  - vm_compute. reflexivity.
  - intros r [<-|[<-|[]]] _; split; reflexivity.
Defined.

(** ** The matcher *)

Module MatcherFacts.

Import Regex.

(** A match of a group-free regex calls the continuation on a suffix no
    longer than the input, with the captures unchanged. *)
Lemma rmatch_group_free {R} (ic : bool) (r : regex) :
  group_free r = true ->
  forall (s : JS.str) (caps : list JS.str)
         (k : JS.str -> list JS.str -> option R) (x : R),
    rmatch ic r s caps k = Some x ->
    exists s', k s' caps = Some x /\ (length s' <= length s)%nat.
Proof.
  induction r as [|c| |p|r1 IH1 r2 IH2|r1 IH1 r2 IH2|r1 IH1|r1 IH1];
    cbn [group_free]; intros Hg s caps k x.
  - cbn. intros H. now exists s.
  - destruct s as [|y s]; cbn; [discriminate|].
    destruct (char_matches ic c y); [|discriminate].
    intros H. exists s. split; [exact H|lia].
  - destruct s as [|y s]; cbn; [discriminate|].
    destruct (JS.is_line_terminator y); [discriminate|].
    intros H. exists s. split; [exact H|lia].
  - destruct s as [|y s]; cbn; [discriminate|].
    destruct (p y); [|discriminate].
    intros H. exists s. split; [exact H|lia].
  - apply andb_true_iff in Hg. destruct Hg as [Hg1 Hg2].
    cbn [rmatch]. intros H.
    destruct (IH1 Hg1 _ _ _ _ H) as (s1 & H1 & Hl1).
    destruct (IH2 Hg2 _ _ _ _ H1) as (s2 & H2 & Hl2).
    exists s2. split; [exact H2|lia].
  - apply andb_true_iff in Hg. destruct Hg as [Hg1 Hg2].
    cbn [rmatch]. destruct (rmatch ic r1 s caps k) as [y|] eqn:H1.
    + intros [= <-]. now apply (IH1 Hg1).
    + now apply (IH2 Hg2).
  - cbn [rmatch]. generalize (length s) at 1. intros n. revert s caps.
    induction n as [|n IHn]; intros s caps.
    + intros H. now exists s.
    + match goal with
      | |- match ?m with _ => _ end = _ -> _ => destruct m as [y|] eqn:H1
      end.
      * intros [= <-].
        destruct (IH1 Hg _ _ _ _ H1) as (s1 & Hs1 & Hl1).
        destruct (length s1 <? length s)%nat; [|discriminate].
        destruct (IHn _ _ Hs1) as (s2 & Hs2 & Hl2).
        exists s2. split; [exact Hs2|lia].
      * intros H. now exists s.
  - discriminate.
Qed.

(** A star, and an optional part, cannot make a match fail. *)
Lemma star_succeeds {R} (ic : bool) (r : regex) (s : JS.str)
      (caps : list JS.str) (k : JS.str -> list JS.str -> option R) :
  k s caps <> None -> rmatch ic (Star r) s caps k <> None.
Proof.
  intros Hk. cbn [rmatch]. destruct (length s) as [|n]; [exact Hk|].
  match goal with
  | |- match ?m with _ => _ end <> _ => destruct m
  end; [discriminate|exact Hk].
Qed.

Lemma opt_succeeds {R} (ic : bool) (r : regex) (s : JS.str)
      (caps : list JS.str) (k : JS.str -> list JS.str -> option R) :
  k s caps <> None -> rmatch ic (Opt r) s caps k <> None.
Proof.
  intros Hk. unfold Opt. cbn [rmatch].
  destruct (rmatch ic r s caps k); [discriminate|exact Hk].
Qed.

(** The search returns a match at some position of the input, and finds
    one whenever some position has one. *)
Lemma exec_some (ic : bool) (r : regex) (s : JS.str) (m : match_result) :
  exec ic r s = Some m ->
  exists pre t, s = pre ++ t /\ match_here ic r t = Some m.
Proof.
  induction s as [|c s IH]; cbn [exec].
  - destruct (match_here ic r []) eqn:H; [|discriminate].
    intros [= <-]. now exists [], [].
  - destruct (match_here ic r (c :: s)) eqn:H.
    + intros [= <-]. now exists [], (c :: s).
    + intros Hs. destruct (IH Hs) as (pre & t & -> & Ht).
      now exists (c :: pre), t.
Qed.

Lemma exec_finds (ic : bool) (r : regex) (pre t : JS.str) :
  match_here ic r t <> None -> exec ic r (pre ++ t) <> None.
Proof.
  intros Ht. induction pre as [|c pre IH].
  - cbn [app]. destruct t; cbn [exec]; destruct (match_here ic r _);
      congruence.
  - cbn [app exec]. now destruct (match_here ic r (c :: pre ++ t)).
Qed.

End MatcherFacts.

(** ** The amount pattern *)

Module AmountFacts.

Import Regex MatcherFacts.
Import GeminiService(amount_rest).

(** The amount pattern at the front of the input, step by step. *)
Lemma match_here_re_amount (s : JS.str) :
  let body t :=
    match t with
    | d :: t0 =>
        if JS.is_digit d
        then rmatch false amount_rest t0 []
               (fun s' caps =>
                  Some {| matched := firstn (length s - length s') s;
                          groups := caps ++ [firstn (length t - length s') t] |})
        else None
    | [] => None
    end in
  match_here false GeminiService.re_amount s
  = match
      match s with
      | c :: s1 => if char_matches false "$" c then body s1 else None
      | [] => None
      end
    with
    | Some m => Some m
    | None => body s
    end.
Proof.
  intros body. unfold match_here, GeminiService.re_amount, Opt, Plus.
  cbn [rmatch].
  assert (Hbody : forall t,
             rmatch false digit t []
               (fun s' caps' =>
                  rmatch false (Star digit) s' caps'
                    (fun s'0 caps'0 =>
                       rmatch false
                         (Seq (Star (Seq (Chr ",") (Times 3 digit)))
                              (Alt (Seq (Chr ".") (Times 2 digit)) Eps))
                         s'0 caps'0
                         (fun s'1 caps'1 =>
                            Some {| matched := firstn (length s - length s'1) s;
                                    groups := caps'1
                                              ++ [firstn (length t - length s'1) t] |})))
             = body t).
  { intros [|d t0]; [reflexivity|]. unfold body, digit. cbn [rmatch].
    destruct (JS.is_digit d); reflexivity. }
  rewrite Hbody. destruct s as [|c s1]; [reflexivity|].
  destruct (char_matches false "$" c); [|reflexivity].
  now rewrite Hbody.
Qed.

Lemma amount_rest_group_free : group_free amount_rest = true.
Proof. reflexivity. Qed.

Lemma amount_rest_succeeds {R} (t : JS.str) (caps : list JS.str)
      (k : JS.str -> list JS.str -> option R) :
  (forall s' caps', k s' caps' <> None) ->
  rmatch false amount_rest t caps k <> None.
Proof.
  intros Hk. unfold amount_rest. cbn [rmatch].
  assert (H3 : forall s c,
             rmatch false (Opt (Seq (Chr ".") (Times 2 digit))) s c k <> None)
    by (intros s c; apply opt_succeeds, Hk).
  assert (H2 : forall s c,
             rmatch false (Star (Seq (Chr ",") (Times 3 digit))) s c
               (fun s' c' =>
                  rmatch false (Opt (Seq (Chr ".") (Times 2 digit))) s' c' k)
             <> None)
    by (intros s c; apply star_succeeds, H3).
  apply (star_succeeds false digit t caps
           (fun s' c' =>
              rmatch false
                (Seq (Star (Seq (Chr ",") (Times 3 digit)))
                     (Opt (Seq (Chr ".") (Times 2 digit)))) s' c' k)).
  apply H2.
Qed.

(** A match of the amount pattern captures a text that begins with a
    digit. *)
Lemma match_here_amount_some (s : JS.str) (m : match_result) :
  match_here false GeminiService.re_amount s = Some m ->
  exists d g, JS.is_digit d = true /\ groups m = [d :: g] /\ In d s.
Proof.
  rewrite match_here_re_amount. cbn zeta.
  assert (Hbody : forall t,
             match t with
             | d :: t0 =>
                 if JS.is_digit d
                 then rmatch false amount_rest t0 []
                        (fun s' caps =>
                           Some {| matched := firstn (length s - length s') s;
                                   groups := caps
                                             ++ [firstn (length t - length s') t] |})
                 else None
             | [] => None
             end = Some m ->
             exists d g, JS.is_digit d = true /\ groups m = [d :: g] /\ In d t).
  { intros [|d t0]; [discriminate|].
    destruct (JS.is_digit d) eqn:Hd; [|discriminate].
    intros H.
    destruct (rmatch_group_free false amount_rest amount_rest_group_free
                _ _ _ _ H) as (s' & Hs' & Hlen).
    injection Hs' as <-. cbn [groups app length].
    assert (Hn : (S (length t0) - length s' = S (length t0 - length s'))%nat)
      by lia.
    exists d, (firstn (length t0 - length s') t0).
    split; [exact Hd|]. split; [now rewrite Hn|now left]. }
  destruct s as [|c s1].
  - intros H. now apply (Hbody []).
  - destruct (char_matches false "$" c).
    + destruct (match s1 with [] => None | _ => _ end) as [m'|] eqn:H1.
      * intros [= <-]. destruct (Hbody s1 H1) as (d & g & Hd & Hg & Hin).
        exists d, g. repeat split; auto. now right.
      * intros H. exact (Hbody (c :: s1) H).
    + intros H. exact (Hbody (c :: s1) H).
Qed.

(** The amount pattern matches wherever a digit stands. *)
Lemma match_here_amount_digit (d : ascii) (t : JS.str) :
  JS.is_digit d = true ->
  match_here false GeminiService.re_amount (d :: t) <> None.
Proof.
  intros Hd. rewrite match_here_re_amount. cbn zeta.
  destruct (if char_matches false "$" d then _ else None); [discriminate|].
  rewrite Hd. apply amount_rest_succeeds. discriminate.
Qed.

Lemma remove_all_head (c d : ascii) (g : JS.str) :
  JS.ascii_eqb d c = false -> JS.remove_all c (d :: g) = d :: JS.remove_all c g.
Proof. intros H. unfold JS.remove_all. cbn [List.filter]. now rewrite H. Qed.

Lemma digit_not_comma (d : ascii) :
  JS.is_digit d = true -> JS.ascii_eqb d "," = false.
Proof.
  unfold JS.is_digit, JS.in_range, JS.ascii_eqb. intros H.
  apply andb_true_iff in H. destruct H as [H _]. apply N.leb_le in H.
  apply N.eqb_neq. change (JS.code ",") with 44%N. lia.
Qed.

Lemma parseFloat_digit (d : ascii) (g : JS.str) :
  JS.is_digit d = true ->
  exists value,
    GeminiService.parseFloat (d :: g) = Some value
    /\ Number.canonical value = true.
Proof.
  intros Hd. unfold GeminiService.parseFloat. cbn [JSON.span_digits].
  rewrite Hd. destruct (JSON.span_digits g) as [ip r].
  eexists. split; [reflexivity|]. apply ParseFacts.make_number_canonical.
Qed.

End AmountFacts.

(** The heuristic extractor finds a condition exactly when the instruction
    contains a digit (a [$] sign is not needed): without a digit the
    conditions are empty; with one they are the single condition
    [{field: "amount", operator: "gt", value}] where [value] is a number,
    never [NaN]. *)
Theorem conditions_iff_digit (instruction : JS.str) :
  (existsb JS.is_digit instruction = false ->
   GeminiService.extractBasicConditions instruction = [])
  /\ (existsb JS.is_digit instruction = true ->
      exists value,
        Number.canonical value = true
        /\ GeminiService.extractBasicConditions instruction
           = [JObj [("field", JStr "amount"); ("operator", JStr "gt");
                    ("value", JNum value)]]).
Proof.
  unfold GeminiService.extractBasicConditions. split.
  - intros Hnone.
    destruct (Regex.exec false GeminiService.re_amount instruction) as [m|] eqn:Hm;
      [|reflexivity].
    exfalso. destruct (MatcherFacts.exec_some _ _ _ _ Hm) as (pre & t & -> & Ht).
    destruct (AmountFacts.match_here_amount_some t m Ht) as (d & g & Hd & _ & Hin).
    assert (Hex : existsb JS.is_digit (pre ++ t) = true).
    { apply existsb_exists. exists d. split; [|exact Hd].
      apply in_or_app. now right. }
    congruence.
  - intros Hsome. apply existsb_exists in Hsome.
    destruct Hsome as (d & Hin & Hd).
    apply in_split in Hin. destruct Hin as (pre & t & ->).
    pose proof (MatcherFacts.exec_finds false GeminiService.re_amount pre (d :: t)
                  (AmountFacts.match_here_amount_digit d t Hd)) as Hfind.
    destruct (Regex.exec false GeminiService.re_amount (pre ++ d :: t))
      as [m|] eqn:Hm; [|congruence].
    destruct (MatcherFacts.exec_some _ _ _ _ Hm) as (pre' & t' & _ & Ht').
    destruct (AmountFacts.match_here_amount_some t' m Ht')
      as (d' & g & Hd' & Hg & _).
    rewrite Hg. cbn [nth].
    rewrite AmountFacts.remove_all_head by now apply AmountFacts.digit_not_comma.
    destruct (AmountFacts.parseFloat_digit d' (JS.remove_all "," g) Hd')
      as (value & -> & Hc).
    now exists value.
Qed.

Lemma conditions_iff_digit_witness :
  exists value,
    Number.canonical value = true
    /\ GeminiService.extractBasicConditions (JS.chars "over 250 dollars")
       = [JObj [("field", JStr "amount"); ("operator", JStr "gt");
                ("value", JNum value)]].
Proof.
  apply (conditions_iff_digit (JS.chars "over 250 dollars")).
  reflexivity.
Defined.

(** ** What the parsing entry points return *)

Module AdapterFacts.

Import GeminiService.

Lemma extractAction_in (instruction : JS.str) :
  In (extractAction instruction) ParsedRule.actions.
Proof.
  unfold extractAction.
  destruct (find _ actionKeywords) as [[action keywords]|] eqn:H;
    [|now left].
  apply find_some in H. destruct H as [H _]. unfold actionKeywords in H.
  cbn in H. cbn.
  repeat (destruct H as [H|H]; [injection H as <- _; tauto|]).
  destruct H.
Qed.

Lemma determineRuleType_in (instruction : JS.str) (ruleType : string) :
  determineRuleType instruction = Some ruleType ->
  In ruleType [ "expense_amount_threshold"; "vendor_frequency";
                "category_amount_threshold"; "duplicate_detection";
                "time_based" ].
Proof.
  unfold determineRuleType.
  repeat (destruct (Regex.test _ _ _); [intros [= <-]; cbn; tauto|]).
  discriminate.
Qed.

(** The conditions of the heuristic extractor pass the condition test of
    the validation. *)
Lemma extracted_conditions_valid (E : Eff.Engine) (instruction : JS.str) :
  every (validCondition E) (extractBasicConditions instruction) = Ok true
  /\ (length (extractBasicConditions instruction) <= 1)%nat.
Proof.
  unfold extractBasicConditions.
  destruct (Regex.exec _ _ _) as [m|]; [|split; [reflexivity|cbn; lia]].
  destruct (parseFloat _); split; try reflexivity; cbn; lia.
Qed.

(** A rule of the heuristic extractor passes the validation. *)
Lemma fallback_valid (E : Eff.Engine) (key_hint instruction : string)
      (rule : json) :
  fallbackParsing_with key_hint instruction = Success rule ->
  validateParsedRule E rule = Ok true.
Proof.
  unfold fallbackParsing_with.
  destruct (determineRuleType _) as [ruleType|]; [|discriminate].
  intros [= <-].
  set (conditions := extractBasicConditions _).
  pose proof (extracted_conditions_valid
                E (JS.trim (JS.toLowerCase (JS.chars instruction)))) as [Hc _].
  fold conditions in Hc.
  unfold validateParsedRule. cbn - [every validCondition conditions].
  exact Hc.
Qed.

(** The adapter returns a result, whatever the generation capability does. *)
Lemma parseInstruction_cases (E : Eff.Engine) (svc : t) (instruction : string)
      (tr : trace) :
  exists result tr',
    parseInstruction E svc instruction tr = (Ok result, tr')
    /\ forall rule, result = Success rule -> validateParsedRule E rule = Ok true.
Proof.
  unfold parseInstruction, Eff.bind, emit. cbn [fst snd].
  destruct (model svc) as [m|].
  - unfold Eff.try_catch, generate, Eff.bind, emit, Eff.lift.
    destruct (generateContent m (buildPrompt instruction)) as [text|e].
    + rewrite ResponseFacts.parseGeminiResponse_cases.
      eexists _, _. split; [reflexivity|].
      intros rule. destruct (Regex.exec _ _ _) as [jm|]; [|discriminate].
      destruct (JSON.parse _) as [v|]; [|discriminate].
      destruct (validateParsedRule E v) as [[|]|] eqn:Hv; try discriminate.
      now intros [= <-].
    + eexists _, _. split; [reflexivity|]. intros rule.
      apply fallback_valid.
  - eexists _, _. split; [reflexivity|]. intros rule. apply fallback_valid.
Qed.

End AdapterFacts.

(** Every rule of the heuristic extractor is one the response validation
    accepts: its rule type is one of the five the extractor knows (never
    [compliance_check]), its action one of the four actions, its confidence
    0.6, and it has at most one condition. *)
Theorem heuristic_rule_is_valid
        (E : Eff.Engine) (key_hint instruction : string) (rule : json) :
  GeminiService.fallbackParsing_with key_hint instruction = Success rule ->
  GeminiService.validateParsedRule E rule = Ok true
  /\ exists ruleType conditions action reason,
       rule = JObj [ ("rule_type", JStr ruleType);
                     ("conditions", JArr conditions);
                     ("action", JStr action);
                     ("reason", JStr reason);
                     ("confidence_score", JNum (Num 6 1)) ]
       /\ In ruleType [ "expense_amount_threshold"; "vendor_frequency";
                        "category_amount_threshold"; "duplicate_detection";
                        "time_based" ]
       /\ In action ["flag"; "review"; "reject"; "approve"]
       /\ (length conditions <= 1)%nat.
Proof.
  intros H. split; [now apply (AdapterFacts.fallback_valid E key_hint instruction)|].
  unfold GeminiService.fallbackParsing_with in H.
  destruct (GeminiService.determineRuleType _) as [ruleType|] eqn:Hty;
    [|discriminate].
  injection H as <-. eexists _, _, _, _. split; [reflexivity|].
  split; [now apply (AdapterFacts.determineRuleType_in _ _ Hty)|].
  split; [apply AdapterFacts.extractAction_in|].
  apply (AdapterFacts.extracted_conditions_valid E).
Qed.

Lemma heuristic_rule_is_valid_witness :
  GeminiService.validateParsedRule
    Samples.engine
    (JObj [ ("rule_type", JStr "expense_amount_threshold");
            ("conditions",
              JArr [JObj [ ("field", JStr "amount"); ("operator", JStr "gt");
                           ("value", JNum (Num 1000 0)) ]]);
            ("action", JStr "flag");
            ("reason", JStr "Flag based on expense amount_threshold");
            ("confidence_score", JNum (Num 6 1)) ])
  = Ok true.
Proof.
  apply (heuristic_rule_is_valid
           Samples.engine GeminiService.key_hint_client Samples.amount_instruction).
  vm_compute. reflexivity.
Defined.

(** Whatever the generation capability answers or throws, a rule that the
    in-process parser returns with [success: true] passes the response
    validation: [rule_type], [action] and [reason] are strings,
    [confidence_score] is a number between 0 and 1, and [conditions] is an
    array whose elements have a truthy [field], a truthy [operator] and a
    [value]. *)
Theorem returned_rules_are_valid
        (E : Eff.Engine) (svc : GeminiService.t) (instruction : string)
        (t t' : trace) (rule : json) :
  RuleParser.parseInstruction E svc instruction t = (Ok (Success rule), t') ->
  GeminiService.validateParsedRule E rule = Ok true.
Proof.
  unfold RuleParser.parseInstruction.
  destruct (RuleParser.is_blank instruction); [discriminate|].
  unfold Eff.try_catch.
  destruct (AdapterFacts.parseInstruction_cases E svc instruction t)
    as (result & tr' & -> & Hvalid).
  intros [= -> _]. now apply Hvalid.
Qed.

Lemma returned_rules_are_valid_witness :
  GeminiService.validateParsedRule
    Samples.engine
    (JObj [ ("rule_type", JStr "expense_amount_threshold");
            ("conditions",
              JArr [JObj [ ("field", JStr "amount"); ("operator", JStr "gt");
                           ("value", JNum (Num 1000 0)) ]]);
            ("action", JStr "flag");
            ("reason", JStr "Flag based on expense amount_threshold");
            ("confidence_score", JNum (Num 6 1)) ])
  = Ok true.
Proof.
  apply (returned_rules_are_valid
           Samples.engine Samples.unavailable Samples.amount_instruction
           [] [AdapterCall Samples.amount_instruction;
               HeuristicCall Samples.amount_instruction]).
  vm_compute. reflexivity.
Defined.

(** The [catch] of the in-process parser never fires.  For an instruction
    that is not blank, the parser returns exactly what the adapter returns,
    and the adapter returns a result whatever the generation capability
    does; the failure "Failed to parse instruction: ..." is never
    produced. *)
Theorem parser_defers_to_adapter
        (E : Eff.Engine) (svc : GeminiService.t) (instruction : string)
        (t : trace) :
  RuleParser.is_blank instruction = false ->
  RuleParser.parseInstruction E svc instruction t
  = GeminiService.parseInstruction E svc instruction t
  /\ exists result t',
       GeminiService.parseInstruction E svc instruction t = (Ok result, t').
Proof.
  intros Hblank. unfold RuleParser.parseInstruction. rewrite Hblank.
  unfold Eff.try_catch.
  destruct (AdapterFacts.parseInstruction_cases E svc instruction t)
    as (result & tr' & Heq & _).
  rewrite Heq. split; [reflexivity|]. now exists result, tr'.
Qed.

Lemma parser_defers_to_adapter_witness :
  RuleParser.parseInstruction
    Samples.engine Samples.unavailable Samples.amount_instruction []
  = GeminiService.parseInstruction
      Samples.engine Samples.unavailable Samples.amount_instruction [].
Proof.
  apply (parser_defers_to_adapter
           Samples.engine Samples.unavailable Samples.amount_instruction []).
  vm_compute. reflexivity.
Defined.

(** The HTTP-mediated parser contains every failure of the API client.  For
    an instruction that is not blank it calls the client once and returns a
    result: the client's own result when the call succeeds, and otherwise
    the failure "Failed to parse instruction: <message>", with "Unknown
    error" as the message when the value thrown is not an [Error]. *)
Theorem remote_parser_contains_failures
        (apiClient : string -> Eff.outcome ConversionResult)
        (instruction : string) (t : trace) :
  RuleParser.is_blank instruction = false ->
  exists result,
    RuleParser.parseInstruction_remote apiClient instruction t
    = (Ok result, t ++ [ApiCall instruction])
    /\ match apiClient instruction with
       | Ok answer => result = answer
       | Throw error =>
           result
           = Failure
               ("Failed to parse instruction: "
                  +:+ match Eff.class_of error with
                      | ENotAnError | ENullish => "Unknown error"
                      | _ => Eff.message error
                      end)
               [ "Check your internet connection";
                 "Verify the backend server is running";
                 "Try simplifying your instruction" ]
       end.
Proof.
  intros Hblank. unfold RuleParser.parseInstruction_remote. rewrite Hblank.
  unfold Eff.try_catch, Eff.bind, emit, Eff.lift.
  destruct (apiClient instruction) as [answer|error];
    eexists; split; reflexivity.
Qed.

Lemma remote_parser_contains_failures_witness :
  exists result,
    RuleParser.parseInstruction_remote
      (fun _ => Throw (Thrown ENotAnError "")) "flag it" []
    = (Ok result, [ApiCall "flag it"])
    /\ result
       = Failure "Failed to parse instruction: Unknown error"
                 [ "Check your internet connection";
                   "Verify the backend server is running";
                   "Try simplifying your instruction" ].
Proof.
  apply (remote_parser_contains_failures
           (fun _ => Throw (Thrown ENotAnError "")) "flag it" []).
  vm_compute. reflexivity.
Defined.

(** The status of the server route depends on the instruction alone.  A
    request without an instruction, or with a falsy one ([null], [false],
    0, the empty string) or a blank string, is answered with status 400; a
    truthy instruction that is not a string (a number, [true], an array, an
    object) with status 500 and "Failed to parse instruction"; in both
    cases nothing is called.  A string that is not blank is answered with
    status 200, whatever the generation capability answers and whatever it
    throws, with one exception: when it throws [null] or [undefined], the
    inner [catch] fails on reading [error.message] and the answer is status
    500 with "Failed to parse instruction".  The route itself never
    throws. *)
Theorem route_status
        (E : Eff.Engine) (model : option GeminiService.Model)
        (instruction : option json) (t : trace) :
  exists status body t',
    GeminiRoute.parse E model instruction t = (Ok (status, body), t')
    /\ match instruction with
       | Some (JStr text) =>
           if RuleParser.is_blank text
           then status = 400%nat /\ body = RuleParser.empty_instruction /\ t' = t
           else
             match model with
             | Some m =>
                 match GeminiService.generateContent
                         m (GeminiService.buildPrompt text) with
                 | Ok _ => status = 200%nat
                 | Throw error =>
                     if Eff.is_nullish error
                     then status = 500%nat /\ body = GeminiRoute.server_error
                     else status = 200%nat
                 end
             | None => status = 200%nat
             end
       | Some value =>
           if JSON.truthy value
           then status = 500%nat /\ body = GeminiRoute.server_error /\ t' = t
           else status = 400%nat /\ body = RuleParser.empty_instruction /\ t' = t
       | None =>
           status = 400%nat /\ body = RuleParser.empty_instruction /\ t' = t
       end.
Proof.
  unfold GeminiRoute.parse, Eff.try_catch.
  destruct instruction as [[| b | n | text | l | l]|];
    try (now eexists _, _, _; split; [reflexivity|]);
    try (destruct b; now eexists _, _, _; split; [reflexivity|]).
  - destruct (JSON.truthy (JNum n)) eqn:Hn;
      now eexists _, _, _; split; [reflexivity|].
  - destruct (RuleParser.is_blank text);
      [now eexists _, _, _; split; [reflexivity|]|].
    destruct model as [m|].
    + unfold GeminiService.generate, Eff.bind, emit, Eff.lift.
      destruct (GeminiService.generateContent m _) as [answer|error].
      * rewrite ResponseFacts.parseGeminiResponse_cases.
        now eexists _, _, _; split; [reflexivity|].
      * destruct (Eff.is_nullish error);
          now eexists _, _, _; split; [reflexivity|].
    + now eexists _, _, _; split; [reflexivity|].
Qed.

Module EmbeddingFacts.

Import Regex Braces.






End EmbeddingFacts.



Module WordFacts.

Import Regex MatcherFacts.

(** A literal matches where the input starts with it. *)
Lemma rmatch_Lit {R} (ic : bool) (w t : JS.str) (caps : list JS.str)
      (k : JS.str -> list JS.str -> option R) :
  JS.starts_with w t = true ->
  rmatch ic (Lit w) t caps k = k (skipn (length w) t) caps.
Proof.
  revert t. induction w as [|a w IH]; intros t; [reflexivity|].
  destruct t as [|b t]; [discriminate|]. cbn [JS.starts_with Lit].
  intros H. apply andb_true_iff in H. destruct H as [Hab Hw].
  rewrite RegexFacts.rmatch_Seq, RegexFacts.rmatch_Chr_cons.
  replace (char_matches ic a b) with true.
  - now apply IH.
  - apply JSFacts.ascii_eqb_eq in Hab. subst b. unfold char_matches.
    destruct ic; symmetry; apply JSFacts.ascii_eqb_refl.
Qed.

Lemma includes_split (s w : JS.str) :
  JS.includes s w = true ->
  exists pre t, s = pre ++ t /\ JS.starts_with w t = true.
Proof.
  induction s as [|c s IH]; cbn [JS.includes].
  - rewrite orb_false_r. intros H. now exists [], [].
  - intros H. apply orb_true_iff in H. destruct H as [H|H].
    + now exists [], (c :: s).
    + destruct (IH H) as (pre & t & -> & Ht). now exists (c :: pre), t.
Qed.

(** A word of an alternation is found wherever the input contains it. *)
Lemma test_word (ic : bool) (r : regex) (s : JS.str) (word : string) :
  (forall t, JS.starts_with (JS.chars word) t = true ->
             match_here ic r t <> None) ->
  JS.includes s (JS.chars word) = true -> test ic r s = true.
Proof.
  intros Hr Hs. destruct (includes_split _ _ Hs) as (pre & t & -> & Ht).
  unfold test.
  pose proof (exec_finds ic r pre t (Hr t Ht)) as H.
  now destruct (exec ic r (pre ++ t)).
Qed.

Lemma match_here_Word (ic : bool) (word : string) (t : JS.str) :
  JS.starts_with (JS.chars word) t = true ->
  match_here ic (Word word) t <> None.
Proof.
  intros H. unfold match_here, Word. now rewrite rmatch_Lit.
Qed.

Lemma match_here_Alt_l (ic : bool) (r1 r2 : regex) (t : JS.str) :
  match_here ic r1 t <> None -> match_here ic (Alt r1 r2) t <> None.
Proof.
  unfold match_here. cbn [rmatch]. now destruct (rmatch ic r1 t [] _).
Qed.

Lemma match_here_Alt_r (ic : bool) (r1 r2 : regex) (t : JS.str) :
  match_here ic r2 t <> None -> match_here ic (Alt r1 r2) t <> None.
Proof.
  unfold match_here. cbn [rmatch]. now destruct (rmatch ic r1 t [] _).
Qed.

End WordFacts.

(** The heuristic extractor classifies every instruction that contains one
    of the words of its last two patterns, also inside another word ("am"
    in "amount" or "same", "pm" in "shipment"): for such an instruction it
    returns a rule, never "Could not determine rule type". *)
Theorem keyword_always_classifies
        (key_hint instruction word : string) :
  In word ["duplicate"; "identical"; "time"; "after"; "before"; "am"; "pm"] ->
  JS.includes (JS.trim (JS.toLowerCase (JS.chars instruction))) (JS.chars word)
  = true ->
  exists rule,
    GeminiService.fallbackParsing_with key_hint instruction = Success rule.
Proof.
  intros Hword Hinc. unfold GeminiService.fallbackParsing_with.
  set (s := JS.trim (JS.toLowerCase (JS.chars instruction))) in *.
  assert (Hty : GeminiService.determineRuleType s <> None).
  { unfold GeminiService.determineRuleType.
    destruct (Regex.test true GeminiService.re_expense s); [discriminate|].
    destruct (Regex.test true GeminiService.re_vendor s); [discriminate|].
    destruct (Regex.test true GeminiService.re_category s); [discriminate|].
    destruct (Regex.test true GeminiService.re_duplicate s) eqn:Hdup;
      [discriminate|].
    destruct (Regex.test true GeminiService.re_time s) eqn:Htime;
      [discriminate|].
    exfalso. cbn in Hword.
    destruct Hword as [<-|[<-|[<-|[<-|[<-|[<-|[<-|[]]]]]]]].
    - rewrite (WordFacts.test_word true _ s "duplicate") in Hdup;
        [discriminate| |exact Hinc].
      intros t Ht. apply WordFacts.match_here_Alt_l.
      now apply WordFacts.match_here_Word.
    - rewrite (WordFacts.test_word true _ s "identical") in Hdup;
        [discriminate| |exact Hinc].
      intros t Ht. apply WordFacts.match_here_Alt_r, WordFacts.match_here_Alt_r.
      now apply WordFacts.match_here_Word.
    - rewrite (WordFacts.test_word true _ s "time") in Htime;
        [discriminate| |exact Hinc].
      intros t Ht. apply WordFacts.match_here_Alt_l.
      now apply WordFacts.match_here_Word.
    - rewrite (WordFacts.test_word true _ s "after") in Htime;
        [discriminate| |exact Hinc].
      intros t Ht. apply WordFacts.match_here_Alt_r, WordFacts.match_here_Alt_l.
      now apply WordFacts.match_here_Word.
    - rewrite (WordFacts.test_word true _ s "before") in Htime;
        [discriminate| |exact Hinc].
      intros t Ht.
      apply WordFacts.match_here_Alt_r, WordFacts.match_here_Alt_r,
        WordFacts.match_here_Alt_l.
      now apply WordFacts.match_here_Word.
    - rewrite (WordFacts.test_word true _ s "am") in Htime;
        [discriminate| |exact Hinc].
      intros t Ht.
      apply WordFacts.match_here_Alt_r, WordFacts.match_here_Alt_r,
        WordFacts.match_here_Alt_r, WordFacts.match_here_Alt_l.
      now apply WordFacts.match_here_Word.
    - rewrite (WordFacts.test_word true _ s "pm") in Htime;
        [discriminate| |exact Hinc].
      intros t Ht.
      apply WordFacts.match_here_Alt_r, WordFacts.match_here_Alt_r,
        WordFacts.match_here_Alt_r, WordFacts.match_here_Alt_r.
      now apply WordFacts.match_here_Word. }
  destruct (GeminiService.determineRuleType s); [|congruence].
  eexists. reflexivity.
Qed.

Lemma keyword_always_classifies_witness :
  exists rule,
    GeminiService.fallbackParsing_with
      GeminiService.key_hint_client "Flag large amounts"
    = Success rule.
Proof.
  apply (keyword_always_classifies
           GeminiService.key_hint_client "Flag large amounts" "am").
  - simpl. tauto.
  - vm_compute. reflexivity.
Defined.
